(** * nginx access-log analysis: the line parser and the record collector

    A shallow embedding of [src/main.py], lines 11-124: [parse_log_line],
    [read_log_file], the column coercions applied to the data frame and
    the loading of the rows into the database.

    Text is modelled as [string]; a character is read as the code point of
    the same number (U+0000 .. U+00FF), so the classes [\d], [\w] and [\s] of
    the pattern are the ones Python's [re] uses for [str] on that range.
    Lines holding code points above U+00FF are outside this model: every
    statement below is about lines and files of characters up to U+00FF.
    Beyond them [\d] also takes the decimal digits of other scripts and
    [urlsplit] refuses some hosts for their normal form. *)

From Stdlib Require Import Bool Arith ZArith NArith Lia List Ascii String.
From Stdlib Require Import SpecFloat.
Import ListNotations.

Local Open Scope string_scope.
Local Open Scope bool_scope.

Set Implicit Arguments.

(* ------------------------------------------------------------------ *)
(** ** Text helpers (the [str] methods the code relies on) *)

Module Str.

Definition newline : ascii := "010"%char.
Definition carriage_return : ascii := "013"%char.

(** The double-quote character, and the one-character text holding it. *)
Definition dquote : ascii := "034"%char.
Definition dq : string := String dquote EmptyString.

(** The one-character text holding a newline. *)
Definition nl : string := String newline EmptyString.

Definition code (a : ascii) : N := N_of_ascii a.

Definition between (lo hi : N) (a : ascii) : bool :=
  (lo <=? code a)%N && (code a <=? hi)%N.

Fixpoint all (p : ascii -> bool) (s : string) : bool :=
  match s with
  | EmptyString => true
  | String a t => p a && all p t
  end.

(** [c in s] for a one-character [c]. *)
Fixpoint mem (c : ascii) (s : string) : bool :=
  match s with
  | EmptyString => false
  | String a t => Ascii.eqb a c || mem c t
  end.

(** Longest prefix of [s] whose characters satisfy [p], and what follows. *)
Fixpoint span (p : ascii -> bool) (s : string) : string * string :=
  match s with
  | String a t =>
      if p a then let (r, q) := span p t in (String a r, q)
      else (EmptyString, s)
  | EmptyString => (EmptyString, EmptyString)
  end.

(** [s.partition(c)]: text before the first [c], whether [c] was found,
    text after it. *)
Definition partition (c : ascii) (s : string) : string * bool * string :=
  match span (fun a => negb (Ascii.eqb a c)) s with
  | (l, String _ r) => (l, true, r)
  | (l, EmptyString) => (l, false, EmptyString)
  end.

(** [s] without the prefix [p], when [s] starts with [p]. *)
Fixpoint strip_prefix (p s : string) : option string :=
  match p, s with
  | EmptyString, _ => Some s
  | String a p', String b s' =>
      if Ascii.eqb a b then strip_prefix p' s' else None
  | String _ _, EmptyString => None
  end.

Definition startswith (p s : string) : bool :=
  match strip_prefix p s with Some _ => true | None => false end.

Fixpoint take (n : nat) (s : string) : string :=
  match n, s with
  | S n', String a t => String a (take n' t)
  | _, _ => EmptyString
  end.

(** The last character of [s], if any. *)
Fixpoint last (s : string) : option ascii :=
  match s with
  | EmptyString => None
  | String a EmptyString => Some a
  | String _ t => last t
  end.

Definition lower (a : ascii) : ascii :=
  if between 65 90 a then ascii_of_N (code a + 32) else a.

Fixpoint lowercase (s : string) : string :=
  match s with
  | EmptyString => EmptyString
  | String a t => String (lower a) (lowercase t)
  end.

(** [s.split(c)]: the pieces between occurrences of [c]. *)
Fixpoint split (c : ascii) (s : string) : list string :=
  match s with
  | EmptyString => [EmptyString]
  | String a t =>
      if Ascii.eqb a c then EmptyString :: split c t
      else match split c t with
           | p :: ps => String a p :: ps
           | [] => [String a EmptyString]
           end
  end.

(** Value of a run of decimal digits, most significant first. *)
Fixpoint decimal (s : string) (acc : N) : N :=
  match s with
  | EmptyString => acc
  | String a t => decimal t (10 * acc + (code a - 48))%N
  end.

Definition nonempty (s : string) : bool :=
  match s with EmptyString => false | String _ _ => true end.

(** [c.join(l)] *)
Fixpoint join (c : ascii) (l : list string) : string :=
  match l with
  | [] => EmptyString
  | [x] => x
  | x :: l' => x ++ String c (join c l')
  end.

(** The text [q] stops a run of [p]: it is empty or starts with a
    character outside [p]. *)
Definition stops (p : ascii -> bool) (q : string) : Prop :=
  match q with
  | EmptyString => True
  | String a _ => p a = false
  end.

End Str.

(* ------------------------------------------------------------------ *)
(** ** The regular-expression engine ([re.compile(...).match]) *)

Module Re.

(** Character classes of [re] for [str] patterns, on U+0000 .. U+00FF. *)
Definition is_digit (a : ascii) : bool := Str.between 48 57 a.

Definition is_word (a : ascii) : bool :=
  is_digit a || Str.between 65 90 a || Str.between 97 122 a
  || N.eqb (Str.code a) 95
  || N.eqb (Str.code a) 170 || Str.between 178 179 a
  || N.eqb (Str.code a) 181 || Str.between 185 186 a
  || Str.between 188 190 a || Str.between 192 214 a
  || Str.between 216 246 a || Str.between 248 255 a.

Definition is_space (a : ascii) : bool :=
  Str.between 9 13 a || Str.between 28 32 a
  || N.eqb (Str.code a) 133 || N.eqb (Str.code a) 160.

(** An element of a bracketed set, or a class escape standing alone. *)
Inductive atom : Type :=
| AChar (c : ascii)      (* a literal character *)
| ADigit                 (* \d *)
| AWord                  (* \w *)
| ASpace.                (* \s *)

Inductive cset : Type :=
| Is (a : atom)              (* \d, \w, \s *)
| NoneOf (l : list atom).    (* [^...] *)

Definition in_atom (x : atom) (a : ascii) : bool :=
  match x with
  | AChar c => Ascii.eqb a c
  | ADigit => is_digit a
  | AWord => is_word a
  | ASpace => is_space a
  end.

Definition in_cset (c : cset) (a : ascii) : bool :=
  match c with
  | Is x => in_atom x a
  | NoneOf l => negb (existsb (fun x => in_atom x a) l)
  end.

(** The pattern syntax the program uses. Repetition is applied to
    single-character classes only, as in the source pattern. *)
Inductive regex : Type :=
| Lit (s : string)               (* literal text *)
| Plus (c : cset)                (* c+, greedy *)
| Count (n : nat) (c : cset)     (* c{n} *)
| WordBoundary                   (* \b *)
| EndAnchor                      (* $ *)
| Seq (r1 r2 : regex)
| Alt (r1 r2 : regex)            (* r1|r2, r1 tried first *)
| Group (name : string) (r : regex).   (* (?P<name>r) *)

(** Position of the matcher in the subject: the character before the
    position (none at the start), the text from the position on, and the
    named groups closed so far. *)
Record mstate : Type := MState {
  prev : option ascii;
  rest : string;
  groups : list (string * string)
}.

Definition cont : Type := mstate -> option mstate.

(** Text between two positions of the same subject. *)
Definition taken (st st' : mstate) : string :=
  Str.take (String.length (rest st) - String.length (rest st')) (rest st).

Definition set_group (name text : string) (st : mstate) : mstate :=
  MState (prev st) (rest st) (groups st ++ [(name, text)])%list.

Fixpoint eat (lit : string) (p : option ascii) (s : string)
  : option (option ascii * string) :=
  match lit, s with
  | EmptyString, _ => Some (p, s)
  | String a l', String b s' =>
      if Ascii.eqb a b then eat l' (Some b) s' else None
  | String _ _, EmptyString => None
  end.

Definition word_before (st : mstate) : bool :=
  match prev st with Some a => is_word a | None => false end.

Definition word_after (st : mstate) : bool :=
  match rest st with String a _ => is_word a | EmptyString => false end.

(** [\b]: exactly one side of the position is a word character. *)
Definition at_boundary (st : mstate) : bool :=
  xorb (word_before st) (word_after st).

(** [$] without MULTILINE: the end of the subject, or just before a
    newline that is its last character. *)
Definition at_end (st : mstate) : bool :=
  match rest st with
  | EmptyString => true
  | String a EmptyString => Ascii.eqb a Str.newline
  | _ => false
  end.

(** Greedy repetition: take as many characters as the class allows, then
    give them back one at a time until the continuation succeeds. *)
Fixpoint star (c : cset) (k : cont) (p : option ascii) (s : string)
  (g : list (string * string)) : option mstate :=
  match s with
  | String a t =>
      if in_cset c a then
        match star c k (Some a) t g with
        | Some r => Some r
        | None => k (MState p s g)
        end
      else k (MState p s g)
  | EmptyString => k (MState p s g)
  end.

Fixpoint count (n : nat) (c : cset) (k : cont) (p : option ascii)
  (s : string) (g : list (string * string)) : option mstate :=
  match n with
  | O => k (MState p s g)
  | S n' =>
      match s with
      | String a t => if in_cset c a then count n' c k (Some a) t g else None
      | EmptyString => None
      end
  end.

(** Backtracking matcher in continuation-passing style: [run r k st]
    matches [r] at [st] and hands every way of doing so, in priority
    order, to [k] until one succeeds. *)
Fixpoint run (r : regex) (k : cont) (st : mstate) : option mstate :=
  match r with
  | Lit l =>
      match eat l (prev st) (rest st) with
      | Some (p, s) => k (MState p s (groups st))
      | None => None
      end
  | Plus c =>
      match rest st with
      | String a t =>
          if in_cset c a then star c k (Some a) t (groups st) else None
      | EmptyString => None
      end
  | Count n c => count n c k (prev st) (rest st) (groups st)
  | WordBoundary => if at_boundary st then k st else None
  | EndAnchor => if at_end st then k st else None
  | Seq r1 r2 => run r1 (run r2 k) st
  | Alt r1 r2 =>
      match run r1 k st with
      | Some m => Some m
      | None => run r2 k st
      end
  | Group name r =>
      run r (fun st' => k (set_group name (taken st st') st')) st
  end.

(** [pattern.match(line)]: anchored at the start of the line only. *)
Definition re_match (r : regex) (line : string) : option mstate :=
  run r Some (MState None line []).

Fixpoint group_names (r : regex) : list string :=
  match r with
  | Seq r1 r2 | Alt r1 r2 => (group_names r1 ++ group_names r2)%list
  | Group name r' => name :: group_names r'
  | _ => []
  end.

Fixpoint lookup (name : string) (g : list (string * string)) : option string :=
  match g with
  | [] => None
  | (n, v) :: g' => if String.eqb n name then Some v else lookup name g'
  end.

End Re.

(* ------------------------------------------------------------------ *)
(** ** Python values, dictionaries and exceptions *)

Inductive exn : Type :=
| ValueError
| KeyError (key : string)
| OSError                (* with its subclasses, [FileNotFoundError] ... *)
| UnicodeDecodeError.    (* in Python a subclass of [ValueError]; nothing
                            in the program catches either *)

(** Outcome of a call: a returned value or a raised exception. *)
Inductive result (A : Type) : Type :=
| Ok (a : A)
| Raise (e : exn).

Arguments Ok {A} a.
Arguments Raise {A} e.

Definition bind {A B : Type} (r : result A) (f : A -> result B) : result B :=
  match r with
  | Ok a => f a
  | Raise e => Raise e
  end.

Notation "x <- c ;; k" := (bind c (fun x => k))
  (at level 61, c at next level, right associativity).

(** The values a field of the parsed record can hold. *)
Inductive value : Type :=
| VNone                    (* None *)
| VStr (s : string)        (* str *)
| VBytes (s : string).     (* bytes *)

(** A [dict] with [str] keys, in insertion order. *)
Definition dict : Type := list (string * value).

Fixpoint dict_get (d : dict) (k : string) : option value :=
  match d with
  | [] => None
  | (k', v) :: d' => if String.eqb k' k then Some v else dict_get d' k
  end.

(** [d[k]] *)
Definition getitem (d : dict) (k : string) : result value :=
  match dict_get d k with
  | Some v => Ok v
  | None => Raise (KeyError k)
  end.

(** [d[k] = v]: an existing key keeps its place, a new key goes last. *)
Fixpoint setitem (d : dict) (k : string) (v : value) : dict :=
  match d with
  | [] => [(k, v)]
  | (k', v') :: d' =>
      if String.eqb k' k then (k', v) :: d' else (k', v') :: setitem d' k v
  end.

Definition keys (d : dict) : list string := map fst d.

(** [match.groupdict()]: every named group of the pattern, in pattern
    order; a group that took no part in the match maps to [None]. *)
Definition groupdict (r : Re.regex) (m : Re.mstate) : dict :=
  map (fun name =>
         (name, match Re.lookup name (Re.groups m) with
                | Some text => VStr text
                | None => VNone
                end))
      (Re.group_names r).

(* ------------------------------------------------------------------ *)
(** ** [urllib.parse.urlparse] (CPython 3.11, [str] argument) *)

Module Url.

Record ParseResult : Type := {
  scheme : value;
  netloc : value;
  path : value;
  params : value;
  query : value;
  fragment : value
}.

Definition is_ascii_alpha (a : ascii) : bool :=
  Str.between 65 90 a || Str.between 97 122 a.

(** [scheme_chars]: letters, digits, [+], [-] and [.]. *)
Definition scheme_char (a : ascii) : bool :=
  is_ascii_alpha a || Str.between 48 57 a || Str.mem a "+-.".

(** [_WHATWG_C0_CONTROL_OR_SPACE] *)
Definition c0_control_or_space (a : ascii) : bool := (Str.code a <=? 32)%N.

(** [_UNSAFE_URL_BYTES_TO_REMOVE]: tab, carriage return, newline. *)
Definition unsafe_byte (a : ascii) : bool :=
  N.eqb (Str.code a) 9 || N.eqb (Str.code a) 13 || N.eqb (Str.code a) 10.

Definition lstrip (p : ascii -> bool) (s : string) : string :=
  snd (Str.span p s).

Fixpoint remove (p : ascii -> bool) (s : string) : string :=
  match s with
  | EmptyString => EmptyString
  | String a t => if p a then remove p t else String a (remove p t)
  end.

Definition nonempty := Str.nonempty.

Definition hex_digit (a : ascii) : bool :=
  Str.between 48 57 a || Str.between 65 70 a || Str.between 97 102 a.

(** [IPv4Address._parse_octet] succeeds. *)
Definition octet_ok (o : string) : bool :=
  nonempty o && Str.all (Str.between 48 57) o
  && (String.length o <=? 3)%nat
  && (String.eqb o "0" || negb (Str.startswith "0" o))
  && (Str.decimal o 0 <=? 255)%N.

(** [ipaddress.IPv4Address(s)] succeeds. *)
Definition ipv4_ok (s : string) : bool :=
  negb (Str.mem "/" s) && nonempty s
  && let octets := Str.split "." s in
     (List.length octets =? 4)%nat && forallb octet_ok octets.

(** [IPv6Address._parse_hextet] succeeds. *)
Definition hextet_ok (h : string) : bool :=
  Str.all hex_digit h && (String.length h <=? 4)%nat && nonempty h.

Definition is_empty (s : string) : bool := negb (nonempty s).

(** Indices [i] with [1 <= i < len - 1] and [parts[i]] empty. *)
Definition inner_empty (parts : list string) : list nat :=
  filter (fun i => is_empty (nth i parts "x"))
         (seq 1 (List.length parts - 2)).

(** [IPv6Address._ip_int_from_string] succeeds. *)
Definition ipv6_parts_ok (ip_str : string) : bool :=
  nonempty ip_str
  && let parts := Str.split ":" ip_str in
     (3 <=? List.length parts)%nat
     && let tail := List.last parts "" in
        (if Str.mem "." tail then ipv4_ok tail else true)
        && let parts :=
             if Str.mem "." tail
             then (removelast parts ++ ["0"; "0"])%list   (* two hextets *)
             else parts in
           let len := List.length parts in
           (len <=? 9)%nat
           && match inner_empty parts with
              | _ :: _ :: _ => false
              | [skip_index] =>
                  let first_empty := is_empty (hd "" parts) in
                  let last_empty := is_empty (List.last parts "") in
                  let parts_hi :=
                    if first_empty then skip_index - 1 else skip_index in
                  let parts_lo :=
                    if last_empty then len - skip_index - 1 - 1
                    else len - skip_index - 1 in
                  negb (first_empty && negb (parts_hi =? 0)%nat)
                  && negb (last_empty && negb (parts_lo =? 0)%nat)
                  && (parts_hi + parts_lo <=? 7)%nat
                  && forallb hextet_ok (firstn parts_hi parts)
                  && forallb hextet_ok (skipn (len - parts_lo) parts)
              | [] =>
                  (len =? 8)%nat
                  && negb (is_empty (hd "" parts))
                  && negb (is_empty (List.last parts ""))
                  && forallb hextet_ok parts
              end.

(** [ipaddress.IPv6Address(s)] succeeds. *)
Definition ipv6_ok (s : string) : bool :=
  negb (Str.mem "/" s)
  && match Str.partition "%" s with
     | (addr, true, scope_id) =>
         nonempty scope_id && negb (Str.mem "%" scope_id)
         && ipv6_parts_ok addr
     | (addr, false, _) => ipv6_parts_ok addr
     end.

(** [re.match(r"\Av[a-fA-F0-9]+\..+\Z", hostname)] succeeds. *)
Definition ipvfuture_ok (hostname : string) : bool :=
  match hostname with
  | String v t =>
      Ascii.eqb v "v"
      && match Str.span hex_digit t with
         | (String _ _, String dot more) =>
             Ascii.eqb dot "."
             && nonempty more
             && Str.all (fun a => negb (Ascii.eqb a Str.newline)) more
         | _ => false
         end
  | EmptyString => false
  end.

(** [_check_bracketed_host] returns without raising. *)
Definition bracketed_host_ok (hostname : string) : bool :=
  if Str.startswith "v" hostname then ipvfuture_ok hostname
  else if ipv4_ok hostname then false
  else ipv6_ok hostname.

(** [_check_bracketed_netloc] returns without raising. *)
Definition bracketed_netloc_ok (netloc : string) : bool :=
  let hostname_and_port := List.last (Str.split "@" netloc) "" in
  match Str.partition "[" hostname_and_port with
  | (before_bracket, true, bracketed) =>
      if nonempty before_bracket then false
      else
        match Str.partition "]" bracketed with
        | (hostname, _, port) =>
            if nonempty port && negb (Str.startswith ":" port) then false
            else bracketed_host_ok hostname
        end
  | (_, false, _) =>
      match Str.partition ":" hostname_and_port with
      | (hostname, _, _) => bracketed_host_ok hostname
      end
  end.

(** [_splitnetloc(url, 2)] on the text after the leading [//]: the
    domain runs up to the first of [/], [?], [#]. *)
Definition splitnetloc (after_slashes : string) : string * string :=
  Str.span (fun a => negb (Str.mem a "/?#")) after_slashes.

Record SplitResult : Type := {
  s_scheme : string;
  s_netloc : string;
  s_path : string;
  s_query : string;
  s_fragment : string
}.

(** [unicodedata.normalize('NFKC', c)] for a character up to U+00FF, as
    code points (Unicode 14). On this range the normal form of a text is
    the normal forms of its characters put end to end: no character here
    combines with its neighbours. *)
Definition nfkc_char (a : ascii) : list N :=
  match Str.code a with
  | 160 => [32]                  (* no-break space *)
  | 168 => [32; 776]             (* diaeresis *)
  | 170 => [97]                  (* feminine ordinal *)
  | 175 => [32; 772]             (* macron *)
  | 178 => [50]                  (* superscript two *)
  | 179 => [51]                  (* superscript three *)
  | 180 => [32; 769]             (* acute accent *)
  | 181 => [956]                 (* micro sign *)
  | 184 => [32; 807]             (* cedilla *)
  | 185 => [49]                  (* superscript one *)
  | 186 => [111]                 (* masculine ordinal *)
  | 188 => [49; 8260; 52]        (* one quarter *)
  | 189 => [49; 8260; 50]        (* one half *)
  | 190 => [51; 8260; 52]        (* three quarters *)
  | c => [c]
  end%N.

Fixpoint nfkc (s : string) : list N :=
  match s with
  | EmptyString => []
  | String a t => (nfkc_char a ++ nfkc t)%list
  end.

Fixpoint codes (s : string) : list N :=
  match s with
  | EmptyString => []
  | String a t => Str.code a :: codes t
  end.

Fixpoint codes_eqb (l1 l2 : list N) : bool :=
  match l1, l2 with
  | [], [] => true
  | a :: l1', b :: l2' => N.eqb a b && codes_eqb l1' l2'
  | _, _ => false
  end.

Definition isascii (s : string) : bool :=
  Str.all (fun a => (Str.code a <? 128)%N) s.

(** [_checknetloc]: a netloc that turns, under NFKC normalisation, into
    a text holding one of [/?#@:] is refused. *)
Definition checknetloc (netloc : string) : result unit :=
  if negb (nonempty netloc) || isascii netloc then Ok tt
  else
    let n := remove (fun a => Str.mem a "@:#?") netloc in
    let netloc2 := nfkc n in
    if codes_eqb (codes n) netloc2 then Ok tt
    else if existsb (fun c => existsb (N.eqb c) netloc2) (codes "/?#@:")
         then Raise ValueError
         else Ok tt.

(** [urlsplit(url)] with the default [scheme=''] and
    [allow_fragments=True]. *)
Definition urlsplit (url : string) : result SplitResult :=
  let url := lstrip c0_control_or_space url in
  let url := remove unsafe_byte url in
  let '(scheme, url) :=
    match Str.partition ":" url with
    | (String a0 before, true, after) =>
        if is_ascii_alpha a0 && Str.all scheme_char (String a0 before)
        then (Str.lowercase (String a0 before), after)
        else (EmptyString, url)
    | _ => (EmptyString, url)
    end in
  res <- match Str.strip_prefix "//" url with
         | Some after_slashes =>
             let (netloc, url) := splitnetloc after_slashes in
             if (Str.mem "[" netloc && negb (Str.mem "]" netloc))
                || (Str.mem "]" netloc && negb (Str.mem "[" netloc))
             then Raise ValueError
             else if Str.mem "[" netloc && Str.mem "]" netloc
                     && negb (bracketed_netloc_ok netloc)
             then Raise ValueError
             else Ok (netloc, url)
         | None => Ok (EmptyString, url)
         end ;;
  let '(netloc, url) := res in
  let '(url, fragment) :=
    match Str.partition "#" url with
    | (before, true, after) => (before, after)
    | (_, false, _) => (url, EmptyString)
    end in
  let '(url, query) :=
    match Str.partition "?" url with
    | (before, true, after) => (before, after)
    | (_, false, _) => (url, EmptyString)
    end in
  _ <- checknetloc netloc ;;
  Ok {| s_scheme := scheme; s_netloc := netloc; s_path := url;
        s_query := query; s_fragment := fragment |}.

Definition uses_params : list string :=
  [""; "ftp"; "hdl"; "prospero"; "http"; "imap"; "https"; "shttp";
   "rtsp"; "rtspu"; "sip"; "sips"; "mms"; "sftp"; "tel"].

(** [url.rfind('/')] followed by [url.find(';', that)]: the text up to
    the first [;] of the last segment, and the text after it. *)
Fixpoint split_last_segment (url : string) : string * string :=
  match url with
  | EmptyString => (EmptyString, EmptyString)
  | String a t =>
      if Str.mem "/" t then
        let (h, l) := split_last_segment t in (String a h, l)
      else if Ascii.eqb a "/" then (String a EmptyString, t)
      else (EmptyString, url)
  end.

(** [_splitparams] *)
Definition splitparams (url : string) : string * string :=
  if Str.mem "/" url then
    let (head, segment) := split_last_segment url in
    match Str.partition ";" segment with
    | (before, true, after) => ((head ++ before)%string, after)
    | (_, false, _) => (url, EmptyString)
    end
  else
    match Str.partition ";" url with
    | (before, true, after) => (before, after)
    | (_, false, _) =>
        (* [find] gave -1: [url[:-1]] and [url[0:]] *)
        (Str.take (String.length url - 1) url, url)
    end.

Definition urlparse_str (url : string) : result ParseResult :=
  sp <- urlsplit url ;;
  let (url, params) :=
    if existsb (String.eqb (s_scheme sp)) uses_params
       && Str.mem ";" (s_path sp)
    then splitparams (s_path sp)
    else (s_path sp, EmptyString) in
  Ok {| scheme := VStr (s_scheme sp); netloc := VStr (s_netloc sp);
        path := VStr url; params := VStr params;
        query := VStr (s_query sp); fragment := VStr (s_fragment sp) |}.

Definition empty_bytes : ParseResult :=
  {| scheme := VBytes ""; netloc := VBytes ""; path := VBytes "";
     params := VBytes ""; query := VBytes ""; fragment := VBytes "" |}.

(** [urlparse(url)]: [_coerce_args] decodes a [bytes] or [None] first
    argument and encodes the result back to [bytes]. *)
Definition urlparse (url : value) : result ParseResult :=
  match url with
  | VStr s => urlparse_str s
  | VNone => Ok empty_bytes
  | VBytes s =>
      if Str.all (fun a => (Str.code a <? 128)%N) s then
        r <- urlparse_str s ;;
        let enc v := match v with VStr t => VBytes t | _ => v end in
        Ok {| scheme := enc (scheme r); netloc := enc (netloc r);
              path := enc (path r); params := enc (params r);
              query := enc (query r); fragment := enc (fragment r) |}
      else Raise ValueError
  end.

End Url.

(* ------------------------------------------------------------------ *)
(** ** Step 1: [parse_log_line] *)

(** [\d+\.\d+\.\d+\.\d+] *)
Definition ip_dotted : Re.regex :=
  let d := Re.Plus (Re.Is Re.ADigit) in
  let dot := Re.Lit "." in
  Re.Seq d (Re.Seq dot (Re.Seq d (Re.Seq dot (Re.Seq d (Re.Seq dot d))))).

(** [\bNULL\b] *)
Definition ip_null : Re.regex :=
  Re.Seq Re.WordBoundary (Re.Seq (Re.Lit "NULL") Re.WordBoundary).

Definition ip_re : Re.regex := Re.Alt ip_dotted ip_null.

(** The compiled pattern, piece by piece. [DQ] stands for the
    double-quote character in the comments below. *)
Definition log_pattern : Re.regex :=
  (* (?P<ip>\d+\.\d+\.\d+\.\d+|\bNULL\b) *)
  Re.Seq (Re.Group "ip" ip_re)
  (* - - \[ *)
 (Re.Seq (Re.Lit " - - [")
  (* (?P<timestamp>[^\]]+) *)
 (Re.Seq (Re.Group "timestamp" (Re.Plus (Re.NoneOf [Re.AChar "]"])))
  (* \] DQ *)
 (Re.Seq (Re.Lit ("] " ++ Str.dq))
  (* (?P<method>\w+) *)
 (Re.Seq (Re.Group "method" (Re.Plus (Re.Is Re.AWord)))
 (Re.Seq (Re.Lit " ")
  (* (?P<url>[^\s]+) *)
 (Re.Seq (Re.Group "url" (Re.Plus (Re.NoneOf [Re.ASpace])))
 (Re.Seq (Re.Lit " HTTP/")
  (* [^\DQ]+ *)
 (Re.Seq (Re.Plus (Re.NoneOf [Re.AChar Str.dquote]))
  (* DQ and a space *)
 (Re.Seq (Re.Lit (Str.dq ++ " "))
  (* (?P<status>\d{3}) *)
 (Re.Seq (Re.Group "status" (Re.Count 3 (Re.Is Re.ADigit)))
 (Re.Seq (Re.Lit " ")
  (* (?P<size>\d+|-)$ *)
 (Re.Seq (Re.Group "size"
            (Re.Alt (Re.Plus (Re.Is Re.ADigit)) (Re.Lit "-")))
         Re.EndAnchor)))))))))))).

Definition parse_log_line (line : string) : result (option dict) :=
  match Re.re_match log_pattern line with
  | Some m =>
      let log_dict := groupdict log_pattern m in
      url <- getitem log_dict "url" ;;
      parsed_url <- Url.urlparse url ;;
      let log_dict := setitem log_dict "query_parameters" (Url.query parsed_url) in
      let log_dict := setitem log_dict "url" (Url.path parsed_url) in
      Ok (Some log_dict)
  | None => Ok None
  end.

(* ------------------------------------------------------------------ *)
(** ** Step 2: [read_log_file] *)

(** Text-mode reading with universal newlines: a carriage return, alone or
    followed by a newline, is handed over as one newline. *)
Fixpoint universal_newlines (s : string) : string :=
  match s with
  | EmptyString => EmptyString
  | String a t =>
      if Ascii.eqb a Str.carriage_return then
        String Str.newline
          match t with
          | String b t' =>
              if Ascii.eqb b Str.newline then universal_newlines t'
              else universal_newlines t
          | EmptyString => EmptyString
          end
      else String a (universal_newlines t)
  end.

(** The lines of a text, each with its terminating newline; only the last
    line can lack one. *)
Fixpoint split_lines (s : string) : list string :=
  match s with
  | EmptyString => []
  | String a t =>
      if Ascii.eqb a Str.newline then String a EmptyString :: split_lines t
      else match split_lines t with
           | [] => [String a EmptyString]
           | l :: ls => String a l :: ls
           end
  end.

(** [for line in file]: the lines of the decoded file content. *)
Definition file_lines (content : string) : list string :=
  split_lines (universal_newlines content).

(** Truth value of what [parse_log_line] returns: [None] and the empty
    dictionary are false. *)
Definition truthy (parsed_log : option dict) : bool :=
  match parsed_log with
  | Some (_ :: _) => true
  | _ => false
  end.

(** The loop of [read_log_file] over the remaining lines, [parsed_logs]
    being the list built so far. An exception of [parse_log_line] is not
    caught: it ends the loop. *)
Fixpoint for_lines (lines : list string) (parsed_logs : list dict)
  : result (list dict) :=
  match lines with
  | [] => Ok parsed_logs
  | line :: more =>
      parsed_log <- parse_log_line line ;;
      match parsed_log with
      | Some d =>
          if truthy parsed_log then for_lines more (parsed_logs ++ [d])%list
          else for_lines more parsed_logs
      | None => for_lines more parsed_logs
      end
  end.

(** [read_log_file(file_path)], given the content of the file: the text
    of a file that opens and decodes in full. *)
Definition read_log_file (content : string) : result (list dict) :=
  for_lines (file_lines content) [].

(** Opening and decoding. [open(file_path, 'r')] raises [OSError] when
    the file cannot be opened. The file object then hands over the lines of
    the decoded text one at a time, until the text is exhausted, or until
    it comes to bytes that are no text in the encoding of the locale
    ([UnicodeDecodeError]), or until a read fails ([OSError]). *)
Module Io.

(** How the iteration over the file ends. *)
Inductive ending : Type :=
| Eof                  (* the text is exhausted *)
| DecodeFails          (* UnicodeDecodeError *)
| ReadFails.           (* OSError *)

(** What there is under a path. *)
Inductive file : Type :=
| Missing                                       (* [open] raises *)
| Stream (lines : list string) (e : ending).    (* the lines handed over,
                                                   and what comes then *)

(** A file whose bytes decode in full to [content]. *)
Definition text_file (content : string) : file :=
  Stream (file_lines content) Eof.

Definition lines (f : file) : list string :=
  match f with
  | Missing => []
  | Stream ls _ => ls
  end.

(** [read_log_file(file_path)], given what there is under the path. The
    lines are parsed as they come: a line on which [parse_log_line] raises
    ends the loop before the file object can fail. *)
Definition read_log_file (f : file) : result (list dict) :=
  match f with
  | Missing => Raise OSError
  | Stream ls e =>
      parsed_logs <- for_lines ls [] ;;
      match e with
      | Eof => Ok parsed_logs
      | DecodeFails => Raise UnicodeDecodeError
      | ReadFails => Raise OSError
      end
  end.

End Io.

(* ------------------------------------------------------------------ *)
(** ** Step 3: the data frame and its column coercions *)

(** A calendar moment with its UTC offset, in minutes east of UTC. *)
Record moment : Type := Moment {
  year : Z; month : Z; day : Z;
  hour : Z; minute : Z; second : Z;
  utcoffset : Z
}.

(** A cell of a data frame. *)
Inductive cell : Type :=
| CVal (v : value)            (* a Python object in an object column *)
| CFloat (f : spec_float)     (* float64; NaN is [S754_nan] *)
| CMoment (m : moment)        (* a timezone-aware timestamp *)
| CNaT.                       (* the missing timestamp *)

Definition NaN : cell := CFloat S754_nan.

(** A data frame: named columns of equal length, in column order. *)
Definition DataFrame : Type := list (string * list cell).

(** [float(n)] for a non-negative integer: binary64, round to nearest,
    ties to even. *)
Definition float_of_N (n : N) : spec_float :=
  binary_normalize 53 1024 (Z.of_N n) 0 false.

Definition digit_run (s : string) : bool :=
  Str.nonempty s && Str.all Re.is_digit s.

(** [float(s)] on the texts that reach it here, runs of decimal digits.
    The rest of the grammar of [float] (signs, fractions, exponents) is not
    modelled: any other text is reported as [ValueError]. *)
Definition py_float (s : string) : result spec_float :=
  if digit_run s then Ok (float_of_N (Str.decimal s 0))
  else Raise ValueError.

Module Pd.

Fixpoint map_result {A B : Type} (f : A -> result B) (l : list A)
  : result (list B) :=
  match l with
  | [] => Ok []
  | a :: l' => b <- f a ;; bs <- map_result f l' ;; Ok (b :: bs)
  end.

Fixpoint add_new (cols ks : list string) : list string :=
  match ks with
  | [] => cols
  | k :: ks' =>
      if existsb (String.eqb k) cols then add_new cols ks'
      else add_new (cols ++ [k])%list ks'
  end.

(** [pd.DataFrame(records)] for a list of dictionaries: the columns are
    the keys in order of first appearance, a record lacking a key gets
    NaN there. An empty list gives a frame without columns. *)
Definition cell_of (c : string) (r : dict) : cell :=
  match dict_get r c with
  | Some v => CVal v
  | None => NaN
  end.

Definition from_records (records : list dict) : DataFrame :=
  let cols := fold_left (fun cols r => add_new cols (keys r)) records [] in
  map (fun c => (c, map (cell_of c) records)) cols.

Fixpoint lookup (df : DataFrame) (name : string) : option (list cell) :=
  match df with
  | [] => None
  | (n, col) :: df' => if String.eqb n name then Some col else lookup df' name
  end.

(** [df[name]] *)
Definition getcol (df : DataFrame) (name : string) : result (list cell) :=
  match lookup df name with
  | Some col => Ok col
  | None => Raise (KeyError name)
  end.

(** [df[name] = col] *)
Fixpoint setcol (df : DataFrame) (name : string) (col : list cell)
  : DataFrame :=
  match df with
  | [] => [(name, col)]
  | (n, c) :: df' =>
      if String.eqb n name then (n, col) :: df'
      else (n, c) :: setcol df' name col
  end.

(** [df[[names]]] *)
Definition select (df : DataFrame) (names : list string) : result DataFrame :=
  map_result (fun n => col <- getcol df n ;; Ok (n, col)) names.

(** [series.replace(old, new)] for a text [old]. *)
Definition replace (old : string) (new : cell) (col : list cell) : list cell :=
  map (fun c => match c with
                | CVal (VStr s) => if String.eqb s old then new else c
                | _ => c
                end) col.

(** [series.astype(float)] *)
Definition astype_float (col : list cell) : result (list cell) :=
  map_result (fun c => match c with
                       | CVal (VStr s) | CVal (VBytes s) =>
                           f <- py_float s ;; Ok (CFloat f)
                       | CVal VNone | CNaT => Ok NaN
                       | CFloat f => Ok (CFloat f)
                       | CMoment _ => Raise ValueError
                       end) col.

(** [series.fillna(0)] on a float column. *)
Definition fillna_zero (col : list cell) : list cell :=
  map (fun c => match c with
                | CFloat S754_nan | CNaT | CVal VNone => CFloat (S754_zero false)
                | _ => c
                end) col.

(** *** [pd.to_datetime] with a format (pandas 3 on CPython 3.11)

    pandas reads every text of the column in turn ([array_strptime]):
    one of the six words for a missing value, and the empty text, gives
    NaT at once; any other text must be matched in full by the pattern
    made from the format, and its fields are then turned into a moment. *)

Definition nat_strings : list string :=
  ["NaT"; "nat"; "NAT"; "nan"; "NaN"; "NAN"].

Definition is_nat_string (s : string) : bool :=
  negb (Str.nonempty s) || existsb (String.eqb s) nat_strings.

(** A bracketed set of characters, written as alternatives. *)
Fixpoint one_of (chars : string) : Re.regex :=
  match chars with
  | EmptyString => Re.Lit ""
  | String a EmptyString => Re.Lit (String a "")
  | String a t => Re.Alt (Re.Lit (String a "")) (one_of t)
  end.

Definition upper (a : ascii) : ascii :=
  if Str.between 97 122 a then ascii_of_N (Str.code a - 32) else a.

(** A word under [re.IGNORECASE]: each letter in either case. *)
Fixpoint ignore_case (word : string) : Re.regex :=
  match word with
  | EmptyString => Re.Lit ""
  | String a EmptyString => one_of (String a (String (upper a) ""))
  | String a t =>
      Re.Seq (one_of (String a (String (upper a) ""))) (ignore_case t)
  end.

Fixpoint any_of (rs : list Re.regex) : Re.regex :=
  match rs with
  | [] => Re.Lit ""
  | [r] => r
  | r :: rs' => Re.Alt r (any_of rs')
  end.

(** The patterns of a list one after the other. *)
Fixpoint seq (rs : list Re.regex) : Re.regex :=
  match rs with
  | [] => Re.Lit ""
  | [r] => r
  | r :: rs' => Re.Seq r (seq rs')
  end.

(** [r?], greedy. *)
Definition opt (r : Re.regex) : Re.regex := Re.Alt r (Re.Lit "").

(** [\d] *)
Definition digit : Re.regex := Re.Count 1 (Re.Is Re.ADigit).

(** [\d{1,n+1}], greedy. *)
Fixpoint digits_upto (n : nat) : Re.regex :=
  match n with
  | O => digit
  | S n' => seq [digit; opt (digits_upto n')]
  end.

(** The pattern [_strptime.TimeRE] makes of [%d/%b/%Y:%H:%M:%S %z],
    compiled with [re.IGNORECASE]:

    (?P<d>3[0-1]|[1-2]\d|0[1-9]|[1-9]| [1-9])/
    (?P<b>jan|feb|mar|apr|may|jun|jul|aug|sep|oct|nov|dec)/
    (?P<Y>\d\d\d\d):(?P<H>2[0-3]|[0-1]\d|\d):(?P<M>[0-5]\d|\d):
    (?P<S>6[0-1]|[0-5]\d|\d)\s+
    (?P<z>[+-]\d\d:?[0-5]\d(:?[0-5]\d(\.\d{1,6})?)?|(?-i:Z))

    The month names are those of the C locale. *)
Definition format_regex : Re.regex :=
  let d19 := one_of "123456789" in
  let d05 := one_of "012345" in
  let fraction := seq [Re.Lit "."; digits_upto 5] in
  let seconds := seq [opt (Re.Lit ":"); d05; digit; opt fraction] in
  seq [Re.Group "d"
         (any_of [seq [Re.Lit "3"; one_of "01"];
                  seq [one_of "12"; digit];
                  seq [Re.Lit "0"; d19];
                  d19;
                  seq [Re.Lit " "; d19]]);
       Re.Lit "/";
       Re.Group "b"
         (any_of (map ignore_case
                    ["jan"; "feb"; "mar"; "apr"; "may"; "jun";
                     "jul"; "aug"; "sep"; "oct"; "nov"; "dec"]));
       Re.Lit "/";
       Re.Group "Y" (Re.Count 4 (Re.Is Re.ADigit));
       Re.Lit ":";
       Re.Group "H"
         (any_of [seq [Re.Lit "2"; one_of "0123"];
                  seq [one_of "01"; digit];
                  digit]);
       Re.Lit ":";
       Re.Group "M" (any_of [seq [d05; digit]; digit]);
       Re.Lit ":";
       Re.Group "S"
         (any_of [seq [Re.Lit "6"; one_of "01"];
                  seq [d05; digit];
                  digit]);
       Re.Plus (Re.Is Re.ASpace);
       Re.Group "z"
         (any_of [seq [one_of "+-"; digit; digit; opt (Re.Lit ":");
                       d05; digit; opt seconds];
                  Re.Lit "Z"])].

(** [found = format_regex.match(val)] succeeds and
    [found.end() == len(val)]. *)
Definition matches_format (s : string) : bool :=
  match Re.re_match format_regex s with
  | Some found => negb (Str.nonempty (Re.rest found))
  | None => false
  end.

(** The UTC offsets, in minutes, of the moments of a column. *)
Definition offsets (cells : list cell) : list Z :=
  flat_map (fun c => match c with
                     | CMoment m => [utcoffset m]
                     | _ => []
                     end) cells.

Definition same_offset (cells : list cell) : bool :=
  match offsets cells with
  | [] => true
  | o :: more => forallb (Z.eqb o) more
  end.

Section ToDatetime.

(** pandas is not part of the repository. What it makes of a text that
    the pattern has matched (the moment its fields denote, or nothing
    when they denote none, as for a 30th of February) is a parameter of
    the development. *)
Variable strptime : string -> option moment.

(** What [to_datetime] makes of one text of the column. *)
Definition parse_text (s : string) : result cell :=
  if is_nat_string s then Ok CNaT
  else if matches_format s then
    match strptime s with
    | Some m => Ok (CMoment m)
    | None => Raise ValueError
    end
  else Raise ValueError.

(** [pd.to_datetime(series, format=...)] with the default
    [errors='raise']: one text that is refused fails the whole call,
    and so do, in pandas 3, moments written with different offsets
    (pandas 2 handed them back as Python objects, with a warning).
    Moments keep the offset they were written with. *)
Definition to_datetime (col : list cell) : result (list cell) :=
  cells <- map_result (fun c => match c with
                                | CVal (VStr s) => parse_text s
                                | CVal VNone | CNaT | CFloat S754_nan => Ok CNaT
                                | CMoment m => Ok (CMoment m)
                                | _ => Raise ValueError
                                end) col ;;
  if same_offset cells then Ok cells else Raise ValueError.

End ToDatetime.

End Pd.

Definition final_columns : list string :=
  ["ip"; "timestamp"; "method"; "url"; "status"; "size"; "query_parameters"].

Section Clean.

Variable strptime : string -> option moment.

(** Lines 39-51 of the script: the frame built from the parsed records
    and cleaned column by column. *)
Definition clean (parsed_logs : list dict) : result DataFrame :=
  let df := Pd.from_records parsed_logs in
  (* df['timestamp'] = pd.to_datetime(df['timestamp'], format=...) *)
  ts <- Pd.getcol df "timestamp" ;;
  ts <- Pd.to_datetime strptime ts ;;
  let df := Pd.setcol df "timestamp" ts in
  (* df['size'] = df['size'].replace('-', np.nan).astype(float) *)
  size <- Pd.getcol df "size" ;;
  size <- Pd.astype_float (Pd.replace "-" NaN size) ;;
  let df := Pd.setcol df "size" size in
  (* df = df[[...]] *)
  df <- Pd.select df final_columns ;;
  (* df['size'] = df['size'].fillna(0) *)
  size <- Pd.getcol df "size" ;;
  Ok (Pd.setcol df "size" (Pd.fillna_zero size)).

(** Lines 36-51: the whole of step 3, from the content of the log file
    to the final row set. *)
Definition step3 (content : string) : result DataFrame :=
  parsed_logs <- read_log_file content ;;
  clean parsed_logs.

End Clean.

(* ------------------------------------------------------------------ *)
(** ** The grammar of section 4.1 of the specification *)

Module Grammar.

(** The fields of a request-log line, as the grammar names them. *)
Record fields : Type := Fields {
  client_address : string;
  timestamp : string;
  method : string;
  target : string;          (* the request target, path and query *)
  version : string;
  status_code : string;
  response_size : string
}.

(** Four runs of decimal digits separated by single dots. The values of
    the four numbers are not bounded. *)
Definition dotted_quad (s : string) : bool :=
  match Str.split "." s with
  | [a; b; c; d] => digit_run a && digit_run b && digit_run c && digit_run d
  | _ => false
  end.

(** A dotted-quad IPv4 literal: four decimal numbers from 0 to 255
    separated by single dots. *)
Definition octet (s : string) : bool :=
  digit_run s && (Str.decimal s 0 <=? 255)%N.

Definition ipv4_literal (s : string) : bool :=
  match Str.split "." s with
  | [a; b; c; d] => octet a && octet b && octet c && octet d
  | _ => false
  end.

Definition no (c : ascii) (s : string) : bool :=
  Str.all (fun a => negb (Ascii.eqb a c)) s.

(** Items 1 to 9 of the grammar, field by field. *)
Definition well_formed (f : fields) : bool :=
  (dotted_quad (client_address f) || String.eqb (client_address f) "NULL")
  && (Str.nonempty (timestamp f) && no "]" (timestamp f))
  && (Str.nonempty (method f) && Str.all Re.is_word (method f))
  && (Str.nonempty (target f)
      && Str.all (fun a => negb (Re.is_space a)) (target f))
  && (Str.nonempty (version f) && no Str.dquote (version f))
  && ((String.length (status_code f) =? 3)%nat
      && Str.all Re.is_digit (status_code f))
  && (digit_run (response_size f) || String.eqb (response_size f) "-").

(** The text of a line with the given fields, followed by [tail]. *)
Definition render (f : fields) (tail : string) : string :=
  client_address f ++ " - - [" ++ timestamp f ++ "] " ++ Str.dq
  ++ method f ++ " " ++ target f ++ " HTTP/" ++ version f ++ Str.dq
  ++ " " ++ status_code f ++ " " ++ response_size f ++ tail.

(** How a line may end after the size field: at once, or with the line
    break that terminates it. *)
Definition line_end (tail : string) : bool :=
  String.eqb tail "" || String.eqb tail (String Str.newline "").

(** A line matches the grammar in full. *)
Definition matches (line : string) : Prop :=
  exists f tail,
    well_formed f = true /\ line_end tail = true /\ line = render f tail.

(** The request target cut at its first [?]. *)
Definition before_query (t : string) : string :=
  fst (Str.span (fun a => negb (Ascii.eqb a "?")) t).

Definition after_query (t : string) : string :=
  match snd (Str.span (fun a => negb (Ascii.eqb a "?")) t) with
  | String _ q => q
  | EmptyString => EmptyString
  end.

(** A target that is a plain origin-form path: it starts with one [/],
    holds no [#], and has no [;] before its first [?]. *)
Definition plain_target (t : string) : bool :=
  Str.startswith "/" t && negb (Str.startswith "//" t)
  && no "#" t && no ";" (before_query t).


(** The named groups of the pattern, filled from the fields. *)
Definition captures (f : fields) : list (string * string) :=
  [("ip", client_address f); ("timestamp", timestamp f);
   ("method", method f); ("url", target f);
   ("status", status_code f); ("size", response_size f)].

(** The record [parse] is to return for a line with fields [f], the
    target being split into [path] and [query]. *)
Definition record (f : fields) (path query : string) : dict :=
  [("ip", VStr (client_address f));
   ("timestamp", VStr (timestamp f));
   ("method", VStr (method f));
   ("url", VStr path);
   ("status", VStr (status_code f));
   ("size", VStr (response_size f));
   ("query_parameters", VStr query)].

End Grammar.

(** ** Notions used in the statements *)

(** The pattern matches the line. *)
Definition accepted (line : string) : bool :=
  match Re.re_match log_pattern line with Some _ => true | None => false end.

(** [parse_log_line] raises on the line. *)
Definition raises (line : string) : bool :=
  match parse_log_line line with Raise _ => true | Ok _ => false end.

(** The records of the lines that parse, in the order of the lines. *)
Definition parsed_records (lines : list string) : list dict :=
  flat_map (fun line => match parse_log_line line with
                        | Ok (Some d) => [d]
                        | _ => []
                        end) lines.

(** The size of the final row set for a size text of the parser: zero for
    the dash, the float nearest to the number otherwise. *)
Definition size_value (text : string) : spec_float :=
  if String.eqb text "-" then S754_zero false
  else float_of_N (Str.decimal text 0).

(** A float that is not NaN and has its sign bit clear: a zero, a finite
    positive number, or the positive infinity a number beyond the range of
    binary64 is rounded to. *)
Definition nonneg (f : spec_float) : bool :=
  match f with
  | S754_zero false | S754_finite false _ _ | S754_infinity false => true
  | _ => false
  end.


(** The text made of the [bodies], each followed by a newline, and then
    of [last]: the final line when the text does not end with a newline,
    empty when it does. *)
Definition text_of_lines (bodies : list string) (last : string) : string :=
  fold_right (fun body rest => body ++ Str.nl ++ rest) last bodies.

(** The lines of that text: every body with its newline, and the final
    line if there is one. *)
Definition lines_of (bodies : list string) (last : string) : list string :=
  (map (fun body => (body ++ Str.nl)%string) bodies
   ++ (if Str.nonempty last then [last] else []))%list.

(** The text a record holds under a key; empty when it holds no text. *)
Definition text_of (key : string) (d : dict) : string :=
  match dict_get d key with
  | Some (VStr s) => s
  | _ => EmptyString
  end.

(** The timestamp cell of a row once its text has been through
    [to_datetime]. *)
Definition moment_cell (strptime : string -> option moment) (d : dict) : cell :=
  match Pd.parse_text strptime (text_of "timestamp" d) with
  | Ok c => c
  | Raise _ => CNaT
  end.

(** A column holding, unchanged, the text each record has under [key]. *)
Definition text_column (key : string) (rows : list dict) : list cell :=
  map (fun r => CVal (VStr (text_of key r))) rows.

(** The size cell of a row in the final row set. *)
Definition size_cell (d : dict) : cell :=
  CFloat (size_value (text_of "size" d)).

(** The row set step 3 ends with when it succeeds on the records [rows]. *)
Definition final_frame (strptime : string -> option moment)
  (rows : list dict) : DataFrame :=
  [("ip", text_column "ip" rows);
   ("timestamp", map (moment_cell strptime) rows);
   ("method", text_column "method" rows);
   ("url", text_column "url" rows);
   ("status", text_column "status" rows);
   ("size", map size_cell rows);
   ("query_parameters", text_column "query_parameters" rows)].

(** [to_datetime] takes every timestamp text of the records. *)
Definition timestamps_conform (strptime : string -> option moment)
  (rows : list dict) : bool :=
  forallb (fun r => match Pd.parse_text strptime (text_of "timestamp" r) with
                    | Ok _ => true
                    | Raise _ => false
                    end) rows.

(** The moments of the records all have the same UTC offset. *)
Definition same_offsets (strptime : string -> option moment)
  (rows : list dict) : bool :=
  Pd.same_offset (map (moment_cell strptime) rows).

(** The integer a float is equal to, when it is one. *)
Definition integer_value (f : spec_float) : option Z :=
  match f with
  | S754_zero _ => Some 0%Z
  | S754_finite s m e =>
      let sign := if s then (-1)%Z else 1%Z in
      if (0 <=? e)%Z then Some (sign * Zpos m * 2 ^ e)%Z
      else if (Zpos m mod 2 ^ (- e) =? 0)%Z
           then Some (sign * (Zpos m / 2 ^ (- e)))%Z
           else None
  | _ => None
  end.

(** A record as [parse_log_line] builds it from a line of the grammar. *)
Definition is_record (d : dict) : Prop :=
  exists f path query,
    Grammar.well_formed f = true /\ d = Grammar.record f path query.

(** Lines and fields used in the examples. *)
Module Sample.

(** The well-formed line of section 8 of the specification. *)
Definition fields : Grammar.fields :=
  Grammar.Fields "203.0.113.5" "10/Oct/2023:13:55:36 +0000" "GET"
                 "/index.html?id=42" "1.1" "200" "512".

Definition line : string := Grammar.render fields "".

Definition with_target (t : string) : Grammar.fields :=
  Grammar.Fields "203.0.113.5" "10/Oct/2023:13:55:36 +0000" "GET"
                 t "1.1" "200" "512".

Definition with_timestamp (ts : string) : Grammar.fields :=
  Grammar.Fields "203.0.113.5" ts "GET" "/index.html?id=42" "1.1" "200" "512".

Definition with_status (st : string) : Grammar.fields :=
  Grammar.Fields "203.0.113.5" "10/Oct/2023:13:55:36 +0000" "GET"
                 "/index.html?id=42" "1.1" st "512".

Definition with_address_size (ip sz : string) : Grammar.fields :=
  Grammar.Fields ip "10/Oct/2023:13:55:36 +0000" "GET"
                 "/index.html?id=42" "1.1" "200" sz.

(** The malformed line of section 8. *)
Definition malformed : string :=
  "- - - [bad] " ++ Str.dq ++ "BAD" ++ Str.dq ++ " -".

(** The well-formed line with the quote after the version left out. *)
Definition missing_quote : string :=
  "203.0.113.5 - - [10/Oct/2023:13:55:36 +0000] " ++ Str.dq
  ++ "GET /index.html?id=42 HTTP/1.1 200 512".

(** A file of two requests: one without a client address and without a
    body, and the line of section 8. *)
Definition two_requests : string :=
  Grammar.render (with_address_size "NULL" "-") Str.nl ++ line ++ Str.nl.



End Sample.

(** Modelled from the spec: the timestamp layout of section 4.1,
    day/MonthAbbrev/Year:Hour:Minute:Second, a space and a signed HHMM
    offset, with two-digit day, hour, minute and second, a four-digit year
    and the English month abbreviations. It stands in the examples for
    what pandas, which is not part of the repository, makes of a text its
    pattern has matched; the theorems on the coercion stage hold for any
    such conversion. *)
Module Layout.

Definition months : list string :=
  ["Jan"; "Feb"; "Mar"; "Apr"; "May"; "Jun";
   "Jul"; "Aug"; "Sep"; "Oct"; "Nov"; "Dec"].

Fixpoint index_of (x : string) (l : list string) (i : Z) : option Z :=
  match l with
  | [] => None
  | y :: l' => if String.eqb x y then Some i else index_of x l' (i + 1)%Z
  end.

(** Exactly [n] decimal digits, as a number. *)
Definition number (n : nat) (s : string) : option (Z * string) :=
  let d := Str.take n s in
  if (String.length d =? n)%nat && Str.all Re.is_digit d
  then match Str.strip_prefix d s with
       | Some q => Some (Z.of_N (Str.decimal d 0), q)
       | None => None
       end
  else None.

Definition leap (y : Z) : bool :=
  ((y mod 4 =? 0) && negb (y mod 100 =? 0) || (y mod 400 =? 0))%Z.

Definition days_in_month (y m : Z) : Z :=
  if (m =? 2)%Z then (if leap y then 29 else 28)
  else if ((m =? 4) || (m =? 6) || (m =? 9) || (m =? 11))%Z then 30
  else 31.

Definition sign (s : string) : option (Z * string) :=
  match s with
  | String c q =>
      if Ascii.eqb c "+" then Some (1%Z, q)
      else if Ascii.eqb c "-" then Some ((-1)%Z, q)
      else None
  | EmptyString => None
  end.

Definition obind {A B : Type} (o : option A) (f : A -> option B) : option B :=
  match o with Some a => f a | None => None end.

Definition strptime (s : string) : option moment :=
  obind (number 2 s) (fun '(d, s) =>
  obind (Str.strip_prefix "/" s) (fun s =>
  obind (index_of (Str.take 3 s) months 1) (fun mo =>
  obind (Str.strip_prefix (Str.take 3 s) s) (fun s =>
  obind (Str.strip_prefix "/" s) (fun s =>
  obind (number 4 s) (fun '(y, s) =>
  obind (Str.strip_prefix ":" s) (fun s =>
  obind (number 2 s) (fun '(h, s) =>
  obind (Str.strip_prefix ":" s) (fun s =>
  obind (number 2 s) (fun '(mi, s) =>
  obind (Str.strip_prefix ":" s) (fun s =>
  obind (number 2 s) (fun '(sec, s) =>
  obind (Str.strip_prefix " " s) (fun s =>
  obind (sign s) (fun '(sg, s) =>
  obind (number 2 s) (fun '(oh, s) =>
  obind (number 2 s) (fun '(om, s) =>
  if (String.eqb s ""
      && (1 <=? d)%Z && (d <=? days_in_month y mo)%Z
      && (h <=? 23)%Z && (mi <=? 59)%Z && (sec <=? 59)%Z
      && (om <=? 59)%Z)
  then Some (Moment y mo d h mi sec (sg * (60 * oh + om)))
  else None)))))))))))))))).

End Layout.

(* ------------------------------------------------------------------ *)
(** ** The pattern read without backtracking

    Every repetition of the pattern is followed by a character outside its
    class, so the matcher never has to give a character back. The steps
    below read the pattern left to right, each taking the longest run; they
    are proved equal to the backtracking matcher further down. *)

Module Det.

Import Re.

Definition obind {A B : Type} (o : option A) (f : A -> option B) : option B :=
  match o with Some a => f a | None => None end.

(** The character before the position reached after reading [r]. *)
Fixpoint last_or (p : option ascii) (r : string) : option ascii :=
  match r with
  | EmptyString => p
  | String a t => last_or (Some a) t
  end.

Definition advance (st : mstate) (r q : string) : mstate :=
  MState (last_or (prev st) r) q (groups st).

Definition step_lit (l : string) (st : mstate) : option mstate :=
  match Str.strip_prefix l (rest st) with
  | Some q => Some (advance st l q)
  | None => None
  end.

Definition step_run (c : cset) (st : mstate) : option mstate :=
  match Str.span (in_cset c) (rest st) with
  | (String a r, q) => Some (advance st (String a r) q)
  | (EmptyString, _) => None
  end.

Definition step_count (n : nat) (c : cset) (st : mstate) : option mstate :=
  let r := Str.take n (rest st) in
  if (String.length r =? n)%nat && Str.all (in_cset c) r
  then step_lit r st
  else None.

Definition step_boundary (st : mstate) : option mstate :=
  if at_boundary st then Some st else None.

Definition step_end (st : mstate) : option mstate :=
  if at_end st then Some st else None.

Definition step_group (name : string) (step : mstate -> option mstate)
  (st : mstate) : option mstate :=
  obind (step st) (fun st' => Some (set_group name (taken st st') st')).

Definition step_or (s1 s2 : mstate -> option mstate) (st : mstate)
  : option mstate :=
  match s1 st with Some st' => Some st' | None => s2 st end.

Definition then_ (s1 s2 : mstate -> option mstate) (st : mstate)
  : option mstate :=
  obind (s1 st) s2.

Definition digits : cset := Is ADigit.

Definition step_dotted : mstate -> option mstate :=
  then_ (step_run digits) (then_ (step_lit ".")
 (then_ (step_run digits) (then_ (step_lit ".")
 (then_ (step_run digits) (then_ (step_lit ".") (step_run digits)))))).

Definition step_null : mstate -> option mstate :=
  then_ step_boundary (then_ (step_lit "NULL") step_boundary).

Definition step_ip : mstate -> option mstate :=
  step_or step_dotted step_null.

Definition step_size : mstate -> option mstate :=
  step_or (step_run digits) (step_lit "-").

Definition scan : mstate -> option mstate :=
  then_ (step_group "ip" step_ip)
 (then_ (step_lit " - - [")
 (then_ (step_group "timestamp" (step_run (NoneOf [AChar "]"])))
 (then_ (step_lit ("] " ++ Str.dq))
 (then_ (step_group "method" (step_run (Is AWord)))
 (then_ (step_lit " ")
 (then_ (step_group "url" (step_run (NoneOf [ASpace])))
 (then_ (step_lit " HTTP/")
 (then_ (step_run (NoneOf [AChar Str.dquote]))
 (then_ (step_lit (Str.dq ++ " "))
 (then_ (step_group "status" (step_count 3 digits))
 (then_ (step_lit " ")
 (then_ (step_group "size" step_size)
        step_end)))))))))))).

(** After a size written in digits no further digit may follow; after
    the dash anything may. *)
Definition size_stops (sz q : string) : Prop :=
  sz = "-" \/ Str.stops is_digit q.

(** The continuation [k] fails wherever the next character is in [c]:
    giving back characters of a run of [c] cannot help. *)
Definition fails_on (c : cset) (k : cont) : Prop :=
  forall p a t g, in_cset c a = true -> k (MState p (String a t) g) = None.

End Det.

(* ------------------------------------------------------------------ *)
(** ** Step 4: storing the rows in MySQL

    The server and the connector are outside the repository. The script is
    modelled against any server, given by the way it answers [connect],
    [execute] and [commit]; what the script does is recorded as the
    sequence of its calls and prints. The cursor is buffered: the rows of
    an answer are all there when the script looks for a name among them.
    [load_dotenv] only fills the environment of the process, which the
    script does not read. *)

Module Db.

(** [dotenv_values(".env")]: names with their text, or with [None] for a
    name written without a value. *)
Definition config : Type := list (string * option string).

Fixpoint config_get (c : config) (k : string) : option (option string) :=
  match c with
  | [] => None
  | (k', v) :: c' => if String.eqb k' k then Some v else config_get c' k
  end.

(** A configuration value inside an f-string. *)
Definition fmt (v : option string) : string :=
  match v with Some s => s | None => "None" end.

Definition to_value (v : option string) : value :=
  match v with Some s => VStr s | None => VNone end.

(** A row of a result set, a tuple of values. *)
Definition row : Type := list value.

Definition value_eqb (x y : value) : bool :=
  match x, y with
  | VNone, VNone => true
  | VStr s, VStr t => String.eqb s t
  | VBytes s, VBytes t => String.eqb s t
  | _, _ => false
  end.

(** Equality of two tuples. *)
Fixpoint row_eqb (x y : row) : bool :=
  match x, y with
  | [], [] => true
  | a :: x', b :: y' => value_eqb a b && row_eqb x' y'
  | _, _ => false
  end.

(** [t in cursor]: some row of the result set equals the tuple. *)
Definition row_in (t : row) (rows : list row) : bool := existsb (row_eqb t) rows.

(** What the script does to the outside world. *)
Inductive event : Type :=
| Connect (host user password : option string)
| Execute (operation : string) (params : list cell)
| Commit
| Print (text : string).

(** How the script stops before its end. *)
Inductive stop : Type :=
| Exit (status : Z)          (* exit(status) *)
| PyRaise (e : exn)          (* an exception of Python nobody catches *)
| DbRaise (msg : string).    (* a mysql.connector.Error nobody catches *)

Definition table_description : string :=
  "CREATE TABLE IF NOT EXISTS nginx_logs ("
  ++ "log_id INT NOT NULL AUTO_INCREMENT,"
  ++ "ip_addr CHAR(15) NOT NULL,"
  ++ "time_stamp TIMESTAMP NOT NULL,"
  ++ "request_method CHAR(15) NOT NULL,"
  ++ "url CHAR(255) NOT NULL,"
  ++ "status_code INT NOT NULL,"
  ++ "response_size FLOAT,"
  ++ "query_parameters TEXT NOT NULL,"
  ++ "PRIMARY KEY (log_id)"
  ++ ") ENGINE=InnoDB".

Definition insert_query : string :=
  "INSERT INTO nginx_logs (ip_addr, time_stamp, request_method, url, status_code, response_size, query_parameters)"
  ++ "VALUES (%s, %s, %s, %s, %s, %s, %s)".

(** A row of the frame as [iterrows] yields it: the cell of every column. *)
Definition series : Type := list (string * cell).

Fixpoint series_get (s : series) (k : string) : option cell :=
  match s with
  | [] => None
  | (k', c) :: s' => if String.eqb k' k then Some c else series_get s' k
  end.

Definition nrows (df : DataFrame) : nat :=
  match df with
  | [] => 0
  | (_, column) :: _ => List.length column
  end.

(** [df.iterrows()], without the index labels the loop ignores. *)
Definition iterrows (df : DataFrame) : list series :=
  map (fun i => map (fun c => (fst c, nth i (snd c) NaN)) df)
      (seq 0 (nrows df)).

Section Script.

(** The server and the connection to it. An answer is the new state of
    the world with, on failure, the message of the
    [mysql.connector.Error] raised. *)
Variable world : Type.
Variable connect :
  world -> option string -> option string -> option string
  -> world * option string.
Variable execute :
  world -> string -> list cell -> world * (list row + string).
Variable commit : world -> world * option string.

(** A piece of the script: from a state of the world to a value or a
    stop, the new state, and what was done in between. *)
Definition M (A : Type) : Type := world -> (A + stop) * world * list event.

Definition ret {A : Type} (a : A) : M A := fun w => (inl a, w, []).

Definition raise {A : Type} (s : stop) : M A := fun w => (inr s, w, []).

Definition bind_m {A B : Type} (m : M A) (f : A -> M B) : M B :=
  fun w =>
    match m w with
    | (inl a, w', done) =>
        match f a w' with
        | (r, w'', done') => (r, w'', (done ++ done')%list)
        end
    | (inr s, w', done) => (inr s, w', done)
    end.

Notation "x <~ c ;; k" := (bind_m c (fun x => k))
  (at level 61, c at next level, right associativity).

Definition print (text : string) : M unit :=
  fun w => (inl tt, w, [Print text]).

(** [config[key]] *)
Definition item (c : config) (k : string) : M (option string) :=
  match config_get c k with
  | Some v => ret v
  | None => raise (PyRaise (KeyError k))
  end.

(** [row[key]] *)
Definition cell_at (s : series) (k : string) : M cell :=
  match series_get s k with
  | Some c => ret c
  | None => raise (PyRaise (KeyError k))
  end.

(** [my_cursor.execute(operation, params)]: the result set, or the error
    raised, for the [try] around it to look at. *)
Definition cursor_execute (operation : string) (params : list cell)
  : M (list row + string) :=
  fun w =>
    match execute w operation params with
    | (w', answer) => (inl answer, w', [Execute operation params])
    end.

(** Outside a [try] the error goes up. *)
Definition uncaught {A : Type} (answer : A + string) : M A :=
  match answer with
  | inl a => ret a
  | inr msg => raise (DbRaise msg)
  end.

(** Lines 58-63: the connection. *)
Definition connect_db (c : config) : M unit :=
  host <~ item c "HOST" ;;
  user <~ item c "USERNAME" ;;
  password <~ item c "DB_PASSWORD" ;;
  fun w =>
    match connect w host user password with
    | (w', None) => (inl tt, w', [Connect host user password])
    | (w', Some msg) => (inr (DbRaise msg), w', [Connect host user password])
    end.

(** Lines 66-77: the database is created unless the server lists it. *)
Definition create_database (c : config) : M unit :=
  name <~ item c "DB_NAME" ;;
  let db_description := "CREATE DATABASE IF NOT EXISTS " ++ fmt name ++ ";" in
  answer <~ cursor_execute "SHOW DATABASES" [] ;;
  databases <~ uncaught answer ;;
  name <~ item c "DB_NAME" ;;
  if row_in [to_value name] databases then
    name <~ item c "DB_NAME" ;;
    print ("Database " ++ fmt name ++ " already exists.")
  else
    answer <~ cursor_execute db_description [] ;;
    match answer with
    | inl _ =>
        name <~ item c "DB_NAME" ;;
        print ("Database " ++ fmt name ++ " created successfully.")
    | inr err =>
        _ <~ print ("Failed creating database: " ++ err) ;;
        raise (Exit 1)
    end.

(** Line 80 *)
Definition use_database (c : config) : M unit :=
  name <~ item c "DB_NAME" ;;
  answer <~ cursor_execute ("USE " ++ fmt name ++ ";") [] ;;
  _ <~ uncaught answer ;;
  ret tt.

(** Lines 83-105: the table is created unless the server lists it. *)
Definition create_table : M unit :=
  answer <~ cursor_execute "SHOW TABLES;" [] ;;
  tables <~ uncaught answer ;;
  if row_in [VStr "nginx_logs"] tables then
    print "Table nginx_logs already exists."
  else
    answer <~ cursor_execute table_description [] ;;
    match answer with
    | inl _ => print "Table nginx_logs created successfully."
    | inr err =>
        _ <~ print ("Failed creating table: " ++ err) ;;
        raise (Exit 1)
    end.

(** Lines 113-122: one [INSERT] for every row of the frame. *)
Fixpoint insert_rows (rows : list series) : M unit :=
  match rows with
  | [] => ret tt
  | row :: more =>
      ip <~ cell_at row "ip" ;;
      timestamp <~ cell_at row "timestamp" ;;
      method <~ cell_at row "method" ;;
      url <~ cell_at row "url" ;;
      status <~ cell_at row "status" ;;
      size <~ cell_at row "size" ;;
      query_parameters <~ cell_at row "query_parameters" ;;
      answer <~ cursor_execute insert_query
                  [ip; timestamp; method; url; status; size; query_parameters] ;;
      _ <~ uncaught answer ;;
      insert_rows more
  end.

(** Line 124: [cnx.commit()] *)
Definition commit_all : M unit :=
  fun w =>
    match commit w with
    | (w', None) => (inl tt, w', [Commit])
    | (w', Some msg) => (inr (DbRaise msg), w', [Commit])
    end.

(** What comes before the rows: connection, database, table. *)
Definition setup (c : config) : M unit :=
  _ <~ connect_db c ;;
  _ <~ create_database c ;;
  _ <~ use_database c ;;
  create_table.

(** Lines 52-124: step 4 of the script, on the frame of step 3. *)
Definition step4 (c : config) (df : DataFrame) : M unit :=
  _ <~ setup c ;;
  _ <~ insert_rows (iterrows df) ;;
  commit_all.

Definition result_of {A : Type} (r : (A + stop) * world * list event)
  : A + stop := fst (fst r).

Definition log_of {A : Type} (r : (A + stop) * world * list event)
  : list event := snd r.

End Script.

(** The parameter tuples of the [INSERT]s of a log, in order. *)
Definition inserted (log : list event) : list (list cell) :=
  flat_map (fun e => match e with
                     | Execute operation params =>
                         if String.eqb operation insert_query then [params]
                         else []
                     | _ => []
                     end) log.

(** The statements of a log, in order. *)
Definition statements (log : list event) : list string :=
  flat_map (fun e => match e with
                     | Execute operation _ => [operation]
                     | _ => []
                     end) log.

Definition committed (log : list event) : bool :=
  existsb (fun e => match e with Commit => true | _ => false end) log.

(** Number of [%s] marks of a statement. *)
Fixpoint placeholders (s : string) : nat :=
  match s with
  | String a t =>
      match t with
      | String b _ =>
          if Ascii.eqb a "%" && Ascii.eqb b "s" then S (placeholders t)
          else placeholders t
      | EmptyString => 0
      end
  | EmptyString => 0
  end.

(** The seven cells of a row of the final row set, in the order of the
    columns the [INSERT] names. *)
Definition row_params (strptime : string -> option moment) (r : dict)
  : list cell :=
  [CVal (VStr (text_of "ip" r));
   moment_cell strptime r;
   CVal (VStr (text_of "method" r));
   CVal (VStr (text_of "url" r));
   CVal (VStr (text_of "status" r));
   size_cell r;
   CVal (VStr (text_of "query_parameters" r))].

(** The first of the four names step 4 reads that the configuration
    lacks. *)
Definition first_missing (c : config) : option string :=
  find (fun k => match config_get c k with None => true | Some _ => false end)
       ["HOST"; "USERNAME"; "DB_PASSWORD"; "DB_NAME"].

(** Servers for the examples: the world is the list of the statements
    executed so far. *)
Module Toy.

Definition world : Type := list string.

Definition connect (w : world) (host user password : option string)
  : world * option string := (w, None).

Definition commit (w : world) : world * option string := (w, None).

(** A server on which nothing exists yet and everything succeeds. *)
Definition fresh (w : world) (operation : string) (params : list cell)
  : world * (list row + string) :=
  ((w ++ [operation])%list, inl []).

(** A server that lists the database [logs] and the table [nginx_logs]. *)
Definition provisioned (w : world) (operation : string) (params : list cell)
  : world * (list row + string) :=
  ((w ++ [operation])%list,
   inl (if String.eqb operation "SHOW DATABASES"
        then [[VStr "information_schema"]; [VStr "logs"]]
        else if String.eqb operation "SHOW TABLES;"
             then [[VStr "nginx_logs"]]
             else [])).

(** A server that refuses every [CREATE]. *)
Definition read_only (w : world) (operation : string) (params : list cell)
  : world * (list row + string) :=
  if Str.startswith "CREATE" operation
  then (w, inr "1044 (42000): Access denied")
  else ((w ++ [operation])%list, inl []).

Definition env : config :=
  [("HOST", Some "localhost"); ("USERNAME", Some "root");
   ("DB_PASSWORD", Some "secret"); ("DB_NAME", Some "logs")].

End Toy.

End Db.

(* ================================================================== *)
(** * Properties *)

(** ** Facts on text *)

Section StrFacts.

Implicit Types (p : ascii -> bool) (r q s l : string).

Lemma app_empty_r s : s ++ "" = s.
Proof. induction s as [|a s IH]; simpl; [reflexivity | now rewrite IH]. Qed.

Lemma app_assoc r q s : (r ++ q) ++ s = r ++ q ++ s.
Proof. induction r as [|a r IH]; simpl; [reflexivity | now rewrite IH]. Qed.

Lemma length_app r q : String.length (r ++ q) = String.length r + String.length q.
Proof. induction r as [|a r IH]; simpl; [reflexivity | now rewrite IH]. Qed.

Lemma app_inv_head l r q : l ++ r = l ++ q -> r = q.
Proof.
  induction l as [|a l IH]; simpl; intros H; [exact H|].
  injection H as H. auto.
Qed.

Lemma all_app p r q : Str.all p (r ++ q) = Str.all p r && Str.all p q.
Proof.
  induction r as [|a r IH]; simpl; [reflexivity|].
  now rewrite IH, andb_assoc.
Qed.

Lemma span_eq p s r q : Str.span p s = (r, q) -> s = r ++ q.
Proof.
  revert r q; induction s as [|a s IH]; simpl; intros r q H.
  - now inversion H.
  - destruct (p a).
    + destruct (Str.span p s) as [r' q'] eqn:E. inversion H; subst.
      simpl. f_equal. now apply IH.
    + now inversion H.
Qed.

Lemma span_all p s r q : Str.span p s = (r, q) -> Str.all p r = true.
Proof.
  revert r q; induction s as [|a s IH]; simpl; intros r q H.
  - now inversion H.
  - destruct (p a) eqn:Pa.
    + destruct (Str.span p s) as [r' q'] eqn:E. inversion H; subst.
      simpl. rewrite Pa. simpl. eapply IH; reflexivity.
    + now inversion H.
Qed.

Lemma span_stops p s r q : Str.span p s = (r, q) -> Str.stops p q.
Proof.
  revert r q; induction s as [|a s IH]; simpl; intros r q H.
  - inversion H; exact I.
  - destruct (p a) eqn:Pa.
    + destruct (Str.span p s) as [r' q'] eqn:E. inversion H; subst.
      eapply IH; reflexivity.
    + inversion H; subst. exact Pa.
Qed.

Lemma span_app p r q :
  Str.all p r = true -> Str.stops p q -> Str.span p (r ++ q) = (r, q).
Proof.
  induction r as [|a r IH]; simpl; intros Hall Hq.
  - destruct q as [|b q]; [reflexivity|]. simpl in Hq. simpl. now rewrite Hq.
  - apply andb_true_iff in Hall as [Pa Hall]. rewrite Pa.
    now rewrite (IH Hall Hq).
Qed.

Lemma strip_prefix_app l q : Str.strip_prefix l (l ++ q) = Some q.
Proof.
  induction l as [|a l IH]; simpl; [reflexivity|].
  now rewrite Ascii.eqb_refl.
Qed.

Lemma strip_prefix_eq l s q : Str.strip_prefix l s = Some q -> s = l ++ q.
Proof.
  revert s; induction l as [|a l IH]; simpl; intros s H.
  - now inversion H.
  - destruct s as [|b s]; [discriminate|].
    destruct (Ascii.eqb a b) eqn:E; [|discriminate].
    apply Ascii.eqb_eq in E; subst. f_equal. now apply IH.
Qed.

Lemma take_app r q : Str.take (String.length r) (r ++ q) = r.
Proof. induction r as [|a r IH]; simpl; [now destruct q | now rewrite IH]. Qed.

Lemma take_length_app r q :
  Str.take (String.length (r ++ q) - String.length q) (r ++ q) = r.
Proof.
  rewrite length_app.
  replace (String.length r + String.length q - String.length q)
    with (String.length r) by lia.
  apply take_app.
Qed.

Lemma take_length n s : String.length (Str.take n s) <= n.
Proof.
  revert s; induction n as [|n IH]; intros [|a s]; simpl; try lia.
  specialize (IH s). lia.
Qed.

Lemma take_prefix n s : exists q, s = Str.take n s ++ q.
Proof.
  revert s; induction n as [|n IH]; intros s.
  - exists s. now destruct s.
  - destruct s as [|a s]; [now exists ""|].
    destruct (IH s) as [q Hq]. exists q. simpl. now f_equal.
Qed.

Lemma nonempty_true s : Str.nonempty s = true -> exists a t, s = String a t.
Proof. destruct s as [|a t]; [discriminate | now exists a, t]. Qed.

End StrFacts.

(** ** The matcher never needs to backtrack on [log_pattern] *)

Section Cut.

Import Re Det.

Implicit Types (c : cset) (k : cont) (st : mstate).

Lemma obind_ext {A B : Type} (o : option A) (f g : A -> option B) :
  (forall a, f a = g a) -> obind o f = obind o g.
Proof. intros H; destruct o; simpl; auto. Qed.

Lemma run_seq r1 r2 k st : run (Seq r1 r2) k st = run r1 (run r2 k) st.
Proof. reflexivity. Qed.

Lemma eat_strip l p s :
  eat l p s = match Str.strip_prefix l s with
              | Some q => Some (last_or p l, q)
              | None => None
              end.
Proof.
  revert p s; induction l as [|a l IH]; intros p s; simpl; [reflexivity|].
  destruct s as [|b s]; [reflexivity|].
  destruct (Ascii.eqb a b) eqn:E; [|reflexivity].
  apply Ascii.eqb_eq in E; subst. apply IH.
Qed.

Lemma run_lit l k st : run (Lit l) k st = obind (step_lit l st) k.
Proof.
  unfold step_lit, advance. simpl. rewrite eat_strip.
  now destruct (Str.strip_prefix l (rest st)).
Qed.

(** Greedy repetition before a continuation that fails inside the run:
    the longest run is the only one tried with success. *)
Lemma star_cut c k p s g :
  fails_on c k ->
  star c k p s g =
    let (r, q) := Str.span (in_cset c) s in k (MState (last_or p r) q g).
Proof.
  intros Hk. revert p; induction s as [|a s IH]; intros p; simpl.
  - reflexivity.
  - destruct (in_cset c a) eqn:Ca; [|reflexivity].
    rewrite IH. destruct (Str.span (in_cset c) s) as [r q]. simpl.
    destruct (k (MState (last_or (Some a) r) q g)); [reflexivity|].
    now apply Hk.
Qed.

Lemma run_plus c k st :
  fails_on c k -> run (Plus c) k st = obind (step_run c st) k.
Proof.
  intros Hk. unfold step_run, advance. simpl.
  destruct (rest st) as [|a t]; [reflexivity|]. simpl.
  destruct (in_cset c a) eqn:Ca; [|reflexivity].
  rewrite (star_cut _ _ _ Hk).
  now destruct (Str.span (in_cset c) t) as [r q].
Qed.

Lemma count_take n c k p s g :
  count n c k p s g =
    if (String.length (Str.take n s) =? n)%nat
       && Str.all (in_cset c) (Str.take n s)
    then match Str.strip_prefix (Str.take n s) s with
         | Some q => k (MState (last_or p (Str.take n s)) q g)
         | None => None
         end
    else None.
Proof.
  revert p s; induction n as [|n IH]; intros p s; simpl.
  - now destruct s.
  - destruct s as [|a s]; [reflexivity|]. simpl.
    rewrite Ascii.eqb_refl.
    destruct (in_cset c a) eqn:Ca; simpl.
    + rewrite IH. reflexivity.
    + now rewrite andb_false_r.
Qed.

Lemma run_count n c k st : run (Count n c) k st = obind (step_count n c st) k.
Proof.
  unfold step_count, step_lit, advance. simpl. rewrite count_take.
  destruct (_ && _); [|reflexivity].
  now destruct (Str.strip_prefix _ _).
Qed.

Lemma run_boundary k st : run WordBoundary k st = obind (step_boundary st) k.
Proof. unfold step_boundary. simpl. now destruct (at_boundary st). Qed.

Lemma run_end k st : run EndAnchor k st = obind (step_end st) k.
Proof. unfold step_end. simpl. now destruct (at_end st). Qed.

(** A group around a pattern that is read by [step]. *)
Lemma run_group name r step k st :
  (forall k', (forall c, fails_on c k -> fails_on c k') ->
              run r k' st = obind (step st) k') ->
  run (Group name r) k st = obind (step_group name step st) k.
Proof.
  intros H. unfold step_group. simpl. rewrite H.
  - now destruct (step st).
  - intros c Hc p a t g Ca. simpl. now apply Hc.
Qed.

(** Continuations that fail inside a run. *)
Lemma fails_on_lit c b l k :
  in_cset c b = false -> fails_on c (run (Lit (String b l)) k).
Proof.
  intros Hb p a t g Ca. simpl.
  destruct (Ascii.eqb b a) eqn:E; [|reflexivity].
  apply Ascii.eqb_eq in E; subst. congruence.
Qed.

Lemma fails_on_seq c r1 r2 k :
  fails_on c (run r1 (run r2 k)) -> fails_on c (run (Seq r1 r2) k).
Proof. intros H p a t g Ca. now apply H. Qed.

Lemma fails_on_end c k :
  in_cset c Str.newline = false -> fails_on c (run EndAnchor k).
Proof.
  intros Hn p a t g Ca. simpl. unfold at_end. simpl.
  destruct t; [|reflexivity].
  destruct (Ascii.eqb a Str.newline) eqn:E; [|reflexivity].
  apply Ascii.eqb_eq in E; subst. congruence.
Qed.

End Cut.

Create HintDb cut discriminated.
#[local] Hint Resolve fails_on_lit fails_on_seq fails_on_end : cut.

Section Deterministic.

Import Re Det.

Implicit Types (c : cset) (k : cont) (st : mstate).

Lemma run_group_plus name c k st :
  fails_on c k ->
  run (Group name (Plus c)) k st = obind (step_group name (step_run c) st) k.
Proof.
  intros Hk. apply run_group. intros k' Hk'. apply run_plus. auto.
Qed.

Lemma run_group_count name n c k st :
  run (Group name (Count n c)) k st
  = obind (step_group name (step_count n c) st) k.
Proof. apply run_group. intros k' _. apply run_count. Qed.

(** Two alternatives that cannot both start at the same position. *)
Lemma run_alt r1 r2 s1 s2 k st :
  run r1 k st = obind (s1 st) k ->
  run r2 k st = obind (s2 st) k ->
  (s1 st <> None -> s2 st = None) ->
  run (Alt r1 r2) k st = obind (step_or s1 s2 st) k.
Proof.
  intros H1 H2 H. simpl. rewrite H1, H2. unfold step_or.
  destruct (s1 st) as [st'|] eqn:E; simpl; [|reflexivity].
  rewrite H by discriminate. simpl. now destruct (k st').
Qed.

Lemma step_run_head c st st' :
  step_run c st = Some st' ->
  exists a t, rest st = String a t /\ in_cset c a = true.
Proof.
  unfold step_run. destruct (Str.span (in_cset c) (rest st)) as [r q] eqn:E.
  destruct r as [|a r]; [discriminate|]. intros _.
  pose proof (span_eq _ _ E) as Hs. pose proof (span_all _ _ E) as Ha.
  simpl in *. apply andb_true_iff in Ha as [Ha _]. eauto.
Qed.

Lemma step_lit_head b l a t st :
  rest st = String a t -> a <> b -> step_lit (String b l) st = None.
Proof.
  intros Hr Hab. unfold step_lit. rewrite Hr. simpl.
  destruct (Ascii.eqb b a) eqn:E; [|reflexivity].
  apply Ascii.eqb_eq in E. congruence.
Qed.

Lemma obind_Some {A : Type} (o : option A) : obind o Some = o.
Proof. now destruct o. Qed.

(** Sequencing: the first pattern is read by [s1] before the
    continuation that matches the second, which is read by [s2]. *)
Lemma run_then r1 r2 s1 s2 k st :
  run r1 (run r2 k) st = obind (s1 st) (run r2 k) ->
  (forall st', run r2 k st' = obind (s2 st') k) ->
  run (Seq r1 r2) k st = obind (then_ s1 s2 st) k.
Proof.
  intros H1 H2. simpl. rewrite H1. unfold then_.
  destruct (s1 st); simpl; auto.
Qed.

Ltac read_one :=
  first [ apply run_lit
        | apply run_boundary
        | apply run_end
        | apply run_group_count
        | apply run_group_plus; solve [auto with cut]
        | apply run_plus; solve [auto with cut] ].

Lemma run_dotted k st :
  fails_on digits k -> run ip_dotted k st = obind (step_dotted st) k.
Proof.
  intros Hk. unfold ip_dotted, step_dotted.
  repeat (apply run_then; [read_one | clear st; intros st]).
  now apply run_plus.
Qed.

Lemma run_null k st : run ip_null k st = obind (step_null st) k.
Proof.
  unfold ip_null, step_null.
  repeat (apply run_then; [read_one | clear st; intros st]).
  apply run_boundary.
Qed.

Lemma step_dotted_head st st' :
  step_dotted st = Some st' ->
  exists a t, rest st = String a t /\ is_digit a = true.
Proof.
  unfold step_dotted, then_. intros H.
  destruct (step_run digits st) as [st1|] eqn:E; [|discriminate].
  exact (step_run_head _ _ E).
Qed.

Lemma run_ip k st :
  fails_on digits k -> run ip_re k st = obind (step_ip st) k.
Proof.
  intros Hk. unfold ip_re, step_ip.
  apply run_alt; [now apply run_dotted | apply run_null |].
  intros H. destruct (step_dotted st) as [st'|] eqn:E; [|congruence].
  destruct (step_dotted_head _ E) as (a & t & Hr & Ha).
  unfold step_null, then_, step_boundary.
  destruct (at_boundary st); [simpl|reflexivity].
  rewrite (@step_lit_head "N" "ULL" _ _ _ Hr); [reflexivity|].
  intros ->. discriminate Ha.
Qed.

Lemma run_size k st :
  fails_on digits k ->
  run (Alt (Plus digits) (Lit "-")) k st = obind (step_size st) k.
Proof.
  intros Hk. unfold step_size.
  apply run_alt; [now apply run_plus | apply run_lit |].
  intros H. destruct (step_run digits st) as [st'|] eqn:E; [|congruence].
  destruct (step_run_head _ _ E) as (a & t & Hr & Ha).
  apply (@step_lit_head "-" "" _ _ _ Hr). intros ->. discriminate Ha.
Qed.

(** The backtracking matcher and the left-to-right reading agree on
    [log_pattern], from every position. *)
Lemma run_log_pattern st : run log_pattern Some st = scan st.
Proof.
  rewrite <- (obind_Some (scan st)). unfold log_pattern, scan.
  cbn [append Str.dq].
  apply run_then;
    [apply run_group with (step := step_ip); intros; apply run_ip;
     auto with cut|].
  clear st; intros st.
  do 11 (apply run_then; [read_one | clear st; intros st]).
  apply run_then; [|intros st'; apply run_end].
  apply run_group with (step := step_size); intros; apply run_size.
  auto with cut.
Qed.

Lemma re_match_scan line :
  re_match log_pattern line = scan (MState None line []).
Proof. apply run_log_pattern. Qed.

End Deterministic.

(** ** What each reading step consumes *)

Section Steps.

Import Re Det.

Implicit Types (c : cset) (st : mstate) (r q l : string).

Lemma then_inv s1 s2 st st'' :
  then_ s1 s2 st = Some st'' ->
  exists st', s1 st = Some st' /\ s2 st' = Some st''.
Proof.
  unfold then_. destruct (s1 st) as [st'|]; simpl; [eauto | discriminate].
Qed.

Lemma step_lit_inv l st st' :
  step_lit l st = Some st' ->
  rest st = l ++ rest st' /\ groups st' = groups st
  /\ prev st' = last_or (prev st) l.
Proof.
  unfold step_lit. destruct (Str.strip_prefix l (rest st)) as [q|] eqn:E;
    [|discriminate].
  intros H; inversion H; subst; simpl. split; [|split]; try reflexivity.
  now apply strip_prefix_eq.
Qed.

Lemma step_run_inv c st st' :
  step_run c st = Some st' ->
  exists r, rest st = r ++ rest st' /\ groups st' = groups st
            /\ Str.nonempty r = true /\ Str.all (in_cset c) r = true
            /\ Str.stops (in_cset c) (rest st').
Proof.
  unfold step_run.
  destruct (Str.span (in_cset c) (rest st)) as [r q] eqn:E.
  destruct r as [|a r]; [discriminate|].
  intros H; inversion H; subst; simpl. exists (String a r).
  pose proof (span_eq _ _ E). pose proof (span_all _ _ E).
  pose proof (span_stops _ _ E). auto.
Qed.

Lemma step_count_inv n c st st' :
  step_count n c st = Some st' ->
  exists r, rest st = r ++ rest st' /\ groups st' = groups st
            /\ String.length r = n /\ Str.all (in_cset c) r = true.
Proof.
  unfold step_count.
  destruct ((String.length (Str.take n (rest st)) =? n)%nat
            && Str.all (in_cset c) (Str.take n (rest st))) eqn:E;
    [|discriminate].
  apply andb_true_iff in E as [Hn Ha]. apply Nat.eqb_eq in Hn.
  intros H. apply step_lit_inv in H as (Hr & Hg & _).
  exists (Str.take n (rest st)). auto.
Qed.

Lemma step_group_inv name step st st'' :
  step_group name step st = Some st'' ->
  exists st', step st = Some st' /\ rest st'' = rest st'
              /\ groups st'' = (groups st' ++ [(name, taken st st')])%list.
Proof.
  unfold step_group. destruct (step st) as [st'|]; simpl; [|discriminate].
  intros H; inversion H; subst; simpl. eauto.
Qed.

Lemma taken_app st st' r : rest st = r ++ rest st' -> taken st st' = r.
Proof. unfold taken. intros ->. apply take_length_app. Qed.

Lemma group_run_inv name c st st' :
  step_group name (step_run c) st = Some st' ->
  exists r, rest st = r ++ rest st'
            /\ groups st' = (groups st ++ [(name, r)])%list
            /\ Str.nonempty r = true /\ Str.all (in_cset c) r = true
            /\ Str.stops (in_cset c) (rest st').
Proof.
  intros H. apply step_group_inv in H as (st1 & H & Hr & Hg).
  apply step_run_inv in H as (r & Hs & Hg1 & Hn & Ha & Hq).
  exists r. rewrite Hr, Hg, Hg1, (taken_app _ _ _ Hs). auto.
Qed.

Lemma group_count_inv name n c st st' :
  step_group name (step_count n c) st = Some st' ->
  exists r, rest st = r ++ rest st'
            /\ groups st' = (groups st ++ [(name, r)])%list
            /\ String.length r = n /\ Str.all (in_cset c) r = true.
Proof.
  intros H. apply step_group_inv in H as (st1 & H & Hr & Hg).
  apply step_count_inv in H as (r & Hs & Hg1 & Hn & Ha).
  exists r. rewrite Hr, Hg, Hg1, (taken_app _ _ _ Hs). auto.
Qed.

(** Forward direction: a step applied to a text of the right shape. *)
Lemma step_lit_app l p q g :
  step_lit l (MState p (l ++ q) g) = Some (MState (last_or p l) q g).
Proof. unfold step_lit, advance. simpl. now rewrite strip_prefix_app. Qed.

Lemma step_run_app c p r q g :
  Str.nonempty r = true -> Str.all (in_cset c) r = true ->
  Str.stops (in_cset c) q ->
  step_run c (MState p (r ++ q) g) = Some (MState (last_or p r) q g).
Proof.
  intros Hn Ha Hq. unfold step_run, advance. simpl.
  rewrite (span_app _ _ _ Ha Hq). now destruct r.
Qed.

Lemma step_count_app c p r q g :
  Str.all (in_cset c) r = true ->
  step_count (String.length r) c (MState p (r ++ q) g)
  = Some (MState (last_or p r) q g).
Proof.
  intros Ha. unfold step_count. simpl. rewrite take_app, Nat.eqb_refl, Ha.
  apply step_lit_app.
Qed.

Lemma step_group_app name step p p' r q g :
  step (MState p (r ++ q) g) = Some (MState p' q g) ->
  step_group name step (MState p (r ++ q) g)
  = Some (MState p' q (g ++ [(name, r)])).
Proof.
  intros H. unfold step_group. rewrite H. simpl. unfold set_group. simpl.
  unfold taken. simpl. now rewrite take_length_app.
Qed.

End Steps.

(** ** Dotted quads *)

Section Dotted.

Implicit Types (a b c d s t : string) (x : ascii).

Lemma all_impl (p p' : ascii -> bool) s :
  (forall y, p y = true -> p' y = true) ->
  Str.all p s = true -> Str.all p' s = true.
Proof.
  intros H. induction s as [|y s IH]; simpl; [reflexivity|].
  intros Hs. apply andb_true_iff in Hs as [Hy Hs].
  now rewrite (H _ Hy), IH.
Qed.

Lemma all_ext (p p' : ascii -> bool) s :
  (forall y, p y = p' y) -> Str.all p s = Str.all p' s.
Proof.
  intros H. induction s as [|y s IH]; simpl; [reflexivity|].
  now rewrite H, IH.
Qed.

Lemma split_not_nil x s : Str.split x s <> [].
Proof.
  destruct s as [|y s]; simpl; [discriminate|].
  destruct (Ascii.eqb y x); [discriminate|].
  destruct (Str.split x s); discriminate.
Qed.

Lemma join_split x s : Str.join x (Str.split x s) = s.
Proof.
  induction s as [|y s IH]; simpl; [reflexivity|].
  pose proof (split_not_nil x s) as Hn.
  destruct (Ascii.eqb y x) eqn:E.
  - apply Ascii.eqb_eq in E; subst.
    destruct (Str.split x s) as [|u us]; [congruence|].
    simpl in *. now rewrite IH.
  - destruct (Str.split x s) as [|u us]; [congruence|].
    destruct us as [|u' us]; simpl in *; now rewrite <- IH.
Qed.

Lemma split_no x a : Grammar.no x a = true -> Str.split x a = [a].
Proof.
  unfold Grammar.no. induction a as [|y a IH]; simpl; [reflexivity|].
  intros H. apply andb_true_iff in H as [Hy H].
  apply negb_true_iff in Hy. rewrite Hy, (IH H). reflexivity.
Qed.

Lemma split_app x a t :
  Grammar.no x a = true ->
  Str.split x (a ++ String x t) = a :: Str.split x t.
Proof.
  unfold Grammar.no. induction a as [|y a IH]; simpl.
  - intros _. now rewrite Ascii.eqb_refl.
  - intros H. apply andb_true_iff in H as [Hy H].
    apply negb_true_iff in Hy. rewrite Hy, (IH H). reflexivity.
Qed.

Lemma digits_no_dot a : Str.all Re.is_digit a = true -> Grammar.no "." a = true.
Proof.
  apply all_impl. intros y Hy. apply negb_true_iff.
  destruct (Ascii.eqb y ".") eqn:E; [|reflexivity].
  apply Ascii.eqb_eq in E; subst. discriminate Hy.
Qed.

Lemma digit_run_inv a :
  digit_run a = true -> Str.nonempty a = true /\ Str.all Re.is_digit a = true.
Proof. unfold digit_run. intros H. now apply andb_true_iff in H. Qed.

Lemma dotted_quad_intro a b c d :
  digit_run a = true -> digit_run b = true ->
  digit_run c = true -> digit_run d = true ->
  Grammar.dotted_quad (a ++ "." ++ b ++ "." ++ c ++ "." ++ d) = true.
Proof.
  intros Ha Hb Hc Hd. unfold Grammar.dotted_quad. simpl.
  rewrite !split_app, split_no
    by (apply digits_no_dot; now apply digit_run_inv).
  now rewrite Ha, Hb, Hc, Hd.
Qed.

Lemma dotted_quad_inv s :
  Grammar.dotted_quad s = true ->
  exists a b c d,
    s = a ++ "." ++ b ++ "." ++ c ++ "." ++ d
    /\ digit_run a = true /\ digit_run b = true
    /\ digit_run c = true /\ digit_run d = true.
Proof.
  unfold Grammar.dotted_quad. intros H.
  pose proof (join_split "." s) as J.
  destruct (Str.split "." s) as [|a [|b [|c [|d [|e l]]]]]; try discriminate.
  apply andb_true_iff in H as [H Hd]. apply andb_true_iff in H as [H Hc].
  apply andb_true_iff in H as [Ha Hb].
  exists a, b, c, d. simpl in J. now rewrite <- J.
Qed.

End Dotted.

(** ** The reading steps against the grammar *)

Section ScanGrammar.

Import Re Det.

Lemma step_dotted_inv st st' :
  step_dotted st = Some st' ->
  exists ip, rest st = ip ++ rest st' /\ groups st' = groups st
             /\ Grammar.dotted_quad ip = true.
Proof.
  unfold step_dotted. intros H.
  apply then_inv in H as (s1 & E1 & H). apply then_inv in H as (s2 & E2 & H).
  apply then_inv in H as (s3 & E3 & H). apply then_inv in H as (s4 & E4 & H).
  apply then_inv in H as (s5 & E5 & H). apply then_inv in H as (s6 & E6 & H).
  apply step_run_inv in E1 as (a & R1 & G1 & Na & Aa & _).
  apply step_run_inv in E3 as (b & R3 & G3 & Nb & Ab & _).
  apply step_run_inv in E5 as (c & R5 & G5 & Nc & Ac & _).
  apply step_run_inv in H as (d & R7 & G7 & Nd & Ad & _).
  apply step_lit_inv in E2 as (R2 & G2 & _).
  apply step_lit_inv in E4 as (R4 & G4 & _).
  apply step_lit_inv in E6 as (R6 & G6 & _).
  exists (a ++ "." ++ b ++ "." ++ c ++ "." ++ d). split; [|split].
  - rewrite R1, R2, R3, R4, R5, R6, R7. simpl.
    repeat (rewrite !app_assoc; simpl). reflexivity.
  - congruence.
  - apply dotted_quad_intro; unfold digit_run; apply andb_true_iff; auto.
Qed.

Lemma step_dotted_app p a b c d q g :
  digit_run a = true -> digit_run b = true ->
  digit_run c = true -> digit_run d = true ->
  Str.stops is_digit q ->
  exists p',
    step_dotted (MState p ((a ++ "." ++ b ++ "." ++ c ++ "." ++ d) ++ q) g)
    = Some (MState p' q g).
Proof.
  intros Ha Hb Hc Hd Hq.
  apply digit_run_inv in Ha as [Na Aa]. apply digit_run_inv in Hb as [Nb Ab].
  apply digit_run_inv in Hc as [Nc Ac]. apply digit_run_inv in Hd as [Nd Ad].
  eexists. unfold step_dotted, then_. rewrite !app_assoc.
  do 3 (rewrite (step_run_app digits) by (auto; reflexivity); cbn [obind];
        rewrite (step_lit_app "."); cbn [obind]).
  rewrite (step_run_app digits) by auto. reflexivity.
Qed.

Lemma step_boundary_inv st st' :
  step_boundary st = Some st' -> st' = st /\ at_boundary st = true.
Proof.
  unfold step_boundary. destruct (at_boundary st); [|discriminate].
  intros H; inversion H; auto.
Qed.

Lemma step_null_inv st st' :
  step_null st = Some st' ->
  rest st = "NULL" ++ rest st' /\ groups st' = groups st.
Proof.
  unfold step_null. intros H.
  apply then_inv in H as (s1 & E1 & H). apply then_inv in H as (s2 & E2 & H).
  apply step_boundary_inv in E1 as [-> _].
  apply step_boundary_inv in H as [-> _].
  apply step_lit_inv in E2 as (R & G & _). auto.
Qed.

Lemma step_null_app q g :
  Str.stops is_word q ->
  step_null (MState None ("NULL" ++ q) g) = Some (MState (Some "L"%char) q g).
Proof.
  intros Hq. unfold step_null, then_, step_boundary.
  replace (at_boundary (MState None ("NULL" ++ q) g)) with true by reflexivity.
  cbn [obind]. rewrite step_lit_app. cbn [obind last_or].
  unfold at_boundary, word_before, word_after. simpl.
  destruct q as [|y q]; [reflexivity|]. simpl in Hq. now rewrite Hq.
Qed.

Lemma step_ip_inv st st' :
  step_ip st = Some st' ->
  exists ip, rest st = ip ++ rest st' /\ groups st' = groups st
             /\ (Grammar.dotted_quad ip || String.eqb ip "NULL") = true.
Proof.
  unfold step_ip, step_or. destruct (step_dotted st) as [s1|] eqn:E.
  - intros H; inversion H; subst.
    destruct (step_dotted_inv _ E) as (ip & R & G & D).
    exists ip. now rewrite D.
  - intros H. apply step_null_inv in H as [R G].
    exists "NULL". rewrite orb_true_r. auto.
Qed.

Lemma step_ip_app ip q g :
  (Grammar.dotted_quad ip || String.eqb ip "NULL") = true ->
  Str.stops is_digit q -> Str.stops is_word q ->
  exists p', step_ip (MState None (ip ++ q) g) = Some (MState p' q g).
Proof.
  intros H Hd Hw. unfold step_ip, step_or.
  destruct (Grammar.dotted_quad ip) eqn:D.
  - destruct (dotted_quad_inv _ D) as (a & b & c & d & -> & Ha & Hb & Hc & Hd').
    destruct (@step_dotted_app None a b c d q g Ha Hb Hc Hd' Hd) as [p' E].
    exists p'. now rewrite E.
  - simpl in H. apply String.eqb_eq in H; subst.
    replace (step_dotted (MState None ("NULL" ++ q) g)) with (@None mstate)
      by reflexivity.
    eexists. now apply step_null_app.
Qed.

Lemma step_size_inv st st' :
  step_size st = Some st' ->
  exists sz, rest st = sz ++ rest st' /\ groups st' = groups st
             /\ (digit_run sz || String.eqb sz "-") = true.
Proof.
  unfold step_size, step_or. destruct (step_run digits st) as [s1|] eqn:E.
  - intros H; inversion H; subst.
    apply step_run_inv in E as (sz & R & G & N & A & _).
    exists sz. unfold digit_run. change (Str.all (in_cset digits) sz)
      with (Str.all is_digit sz) in A. now rewrite N, A.
  - intros H. apply step_lit_inv in H as (R & G & _).
    exists "-". rewrite orb_true_r. auto.
Qed.

Lemma step_size_app p sz q g :
  (digit_run sz || String.eqb sz "-") = true ->
  size_stops sz q ->
  exists p', step_size (MState p (sz ++ q) g) = Some (MState p' q g).
Proof.
  intros H Hq. unfold step_size, step_or.
  destruct (String.eqb sz "-") eqn:E.
  - apply String.eqb_eq in E; subst.
    replace (step_run digits (MState p ("-" ++ q) g)) with (@None mstate)
      by reflexivity.
    eexists. apply step_lit_app.
  - rewrite orb_false_r in H. apply digit_run_inv in H as [N A].
    destruct Hq as [->|Hq]; [discriminate|].
    eexists. rewrite (step_run_app digits) by auto. reflexivity.
Qed.

Lemma noneof_char y c : in_cset (NoneOf [AChar c]) y = negb (Ascii.eqb y c).
Proof. simpl. now rewrite orb_false_r. Qed.

Lemma noneof_space y : in_cset (NoneOf [ASpace]) y = negb (is_space y).
Proof. simpl. now rewrite orb_false_r. Qed.

Lemma all_noneof_char c s :
  Str.all (in_cset (NoneOf [AChar c])) s = Grammar.no c s.
Proof. apply all_ext. intros y. apply noneof_char. Qed.

Lemma all_noneof_space s :
  Str.all (in_cset (NoneOf [ASpace])) s
  = Str.all (fun a => negb (is_space a)) s.
Proof. apply all_ext. intros y. apply noneof_space. Qed.

End ScanGrammar.

Section ScanSound.

Import Re Det.

(** A group around a step that consumes a text of shape [P]. *)
Lemma group_inv name step (P : string -> Prop) st st'' :
  (forall s s', step s = Some s' ->
                exists r, rest s = r ++ rest s' /\ groups s' = groups s /\ P r) ->
  step_group name step st = Some st'' ->
  exists r, rest st = r ++ rest st''
            /\ groups st'' = (groups st ++ [(name, r)])%list /\ P r.
Proof.
  intros Hstep H. apply step_group_inv in H as (st1 & H & Hr & Hg).
  apply Hstep in H as (r & Hs & Hg1 & HP).
  exists r. rewrite Hr, Hg, Hg1, (taken_app _ _ _ Hs). auto.
Qed.

Lemma step_end_inv st st' :
  step_end st = Some st' -> st' = st /\ at_end st = true.
Proof.
  unfold step_end. destruct (at_end st); [|discriminate].
  intros H; inversion H; auto.
Qed.

(** Soundness of the reading: what it accepts is a line of the grammar,
    and the groups are its fields. *)
Lemma scan_sound line m :
  scan (MState None line []) = Some m ->
  exists f,
    Grammar.well_formed f = true /\ line = Grammar.render f (rest m)
    /\ at_end m = true /\ groups m = Grammar.captures f.
Proof.
  unfold scan. intros H.
  apply then_inv in H as (s1 & E1 & H). apply then_inv in H as (s2 & E2 & H).
  apply then_inv in H as (s3 & E3 & H). apply then_inv in H as (s4 & E4 & H).
  apply then_inv in H as (s5 & E5 & H). apply then_inv in H as (s6 & E6 & H).
  apply then_inv in H as (s7 & E7 & H). apply then_inv in H as (s8 & E8 & H).
  apply then_inv in H as (s9 & E9 & H). apply then_inv in H as (s10 & E10 & H).
  apply then_inv in H as (s11 & E11 & H). apply then_inv in H as (s12 & E12 & H).
  apply then_inv in H as (s13 & E13 & H).
  apply step_end_inv in H as [-> Hend].
  apply group_inv with
    (P := fun r => (Grammar.dotted_quad r || String.eqb r "NULL") = true)
    in E1 as (ip & R1 & G1 & Hip); [|exact step_ip_inv].
  apply step_lit_inv in E2 as (R2 & G2 & _).
  apply group_run_inv in E3 as (ts & R3 & G3 & Nts & Ats & _).
  apply step_lit_inv in E4 as (R4 & G4 & _).
  apply group_run_inv in E5 as (me & R5 & G5 & Nme & Ame & _).
  apply step_lit_inv in E6 as (R6 & G6 & _).
  apply group_run_inv in E7 as (url & R7 & G7 & Nurl & Aurl & _).
  apply step_lit_inv in E8 as (R8 & G8 & _).
  apply step_run_inv in E9 as (ver & R9 & G9 & Nver & Aver & _).
  apply step_lit_inv in E10 as (R10 & G10 & _).
  apply group_count_inv in E11 as (status & R11 & G11 & Nst & Ast).
  apply step_lit_inv in E12 as (R12 & G12 & _).
  apply group_inv with
    (P := fun r => (digit_run r || String.eqb r "-") = true)
    in E13 as (sz & R13 & G13 & Hsz); [|exact step_size_inv].
  exists (Grammar.Fields ip ts me url ver status sz).
  split; [|split; [|split]].
  - unfold Grammar.well_formed. simpl.
    rewrite all_noneof_char in Ats, Aver. rewrite all_noneof_space in Aurl.
    change (Str.all (in_cset (Is AWord)) me) with (Str.all is_word me) in Ame.
    change (Str.all (in_cset digits) status)
      with (Str.all is_digit status) in Ast.
    rewrite Hip, Nts, Ats, Nme, Ame, Nurl, Aurl, Nver, Aver, Nst, Ast, Hsz.
    reflexivity.
  - simpl in R1. unfold Grammar.render. simpl.
    rewrite R1, R2, R3, R4, R5, R6, R7, R8, R9, R10, R11, R12, R13.
    reflexivity.
  - exact Hend.
  - rewrite G13, G12, G11, G10, G9, G8, G7, G6, G5, G4, G3, G2, G1.
    reflexivity.
Qed.

Lemma step_lit_eq l p s q g :
  Str.strip_prefix l s = Some q ->
  step_lit l (MState p s g) = Some (MState (last_or p l) q g).
Proof. intros H. unfold step_lit, advance. simpl. now rewrite H. Qed.

Lemma group_run_app name c p r q g :
  Str.nonempty r = true -> Str.all (in_cset c) r = true ->
  Str.stops (in_cset c) q ->
  step_group name (step_run c) (MState p (r ++ q) g)
  = Some (MState (last_or p r) q (g ++ [(name, r)])).
Proof.
  intros N A S. apply step_group_app. now apply step_run_app.
Qed.

(** Completeness of the reading, up to the end-of-line test: a rendered
    line is read field by field, whatever follows the size. *)
Lemma scan_render f tail :
  Grammar.well_formed f = true ->
  size_stops (Grammar.response_size f) tail ->
  exists p,
    scan (MState None (Grammar.render f tail) [])
    = step_end (MState p tail (Grammar.captures f)).
Proof.
  destruct f as [ip ts me url ver status sz].
  unfold Grammar.well_formed, Grammar.render, Grammar.captures. simpl.
  intros H Hq.
  repeat match type of H with
         | (_ && _) = true => apply andb_true_iff in H as [H ?]
         end.
  repeat match goal with
         | H : (_ && _) = true |- _ => apply andb_true_iff in H as [? ?]
         end.
  unfold scan, then_.
  match goal with
  | |- context [step_group "ip" step_ip (MState None (ip ++ ?q) [])] =>
      destruct (@step_ip_app ip q [] H eq_refl eq_refl) as [p1 E1]
  end.
  rewrite (@step_group_app "ip" step_ip _ _ _ _ _ E1). cbn [obind].
  erewrite step_lit_eq by reflexivity. cbn [obind].
  rewrite group_run_app; [| assumption | now rewrite all_noneof_char | reflexivity].
  cbn [obind]. erewrite step_lit_eq by reflexivity. cbn [obind].
  rewrite group_run_app; [| assumption | assumption | reflexivity].
  cbn [obind]. erewrite step_lit_eq by reflexivity. cbn [obind].
  rewrite group_run_app; [| assumption | now rewrite all_noneof_space | reflexivity].
  cbn [obind]. erewrite step_lit_eq by reflexivity. cbn [obind].
  rewrite step_run_app; [| assumption | now rewrite all_noneof_char | reflexivity].
  cbn [obind]. erewrite step_lit_eq by reflexivity. cbn [obind].
  match goal with
  | Hn : (String.length status =? 3)%nat = true |- _ =>
      apply Nat.eqb_eq in Hn; rewrite <- Hn
  end.
  rewrite (@step_group_app "status"
             (step_count (String.length status) digits) _ _ _ _ _
             (@step_count_app digits _ status _ _ ltac:(assumption))).
  cbn [obind]. erewrite step_lit_eq by reflexivity. cbn [obind].
  match goal with
  | Hs : (digit_run sz || String.eqb sz "-") = true |- _ =>
      destruct (@step_size_app (Some " "%char) sz tail
                  ([("ip", ip); ("timestamp", ts); ("method", me);
                    ("url", url); ("status", status)]) Hs Hq) as [p2 E2]
  end.
  simpl app. simpl last_or.
  rewrite (@step_group_app "size" step_size _ _ _ _ _ E2). cbn [obind].
  exists p2. reflexivity.
Qed.

End ScanSound.

(** ** [parse_log_line] against the grammar *)

Section Parse.

Import Re Det.

Lemma at_end_line_end m : at_end m = Grammar.line_end (rest m).
Proof.
  unfold at_end, Grammar.line_end. destruct (rest m) as [|a [|b t]]; simpl.
  - reflexivity.
  - destruct (Ascii.eqb a Str.newline); reflexivity.
  - destruct (Ascii.eqb a Str.newline); reflexivity.
Qed.

Lemma line_end_stops sz tail : Grammar.line_end tail = true -> size_stops sz tail.
Proof.
  unfold Grammar.line_end. intros H. right.
  apply orb_true_iff in H as [H|H]; apply String.eqb_eq in H; subst;
    [exact I | reflexivity].
Qed.

(** The pattern matches exactly the lines of the grammar, the groups
    being the fields. *)
Lemma re_match_sound line m :
  re_match log_pattern line = Some m ->
  exists f,
    Grammar.well_formed f = true /\ Grammar.line_end (rest m) = true
    /\ line = Grammar.render f (rest m) /\ groups m = Grammar.captures f.
Proof.
  rewrite re_match_scan. intros H.
  destruct (scan_sound _ H) as (f & W & R & E & G).
  exists f. rewrite <- at_end_line_end. auto.
Qed.

Lemma re_match_complete f tail :
  Grammar.well_formed f = true -> Grammar.line_end tail = true ->
  exists p,
    re_match log_pattern (Grammar.render f tail)
    = Some (MState p tail (Grammar.captures f)).
Proof.
  intros W E. rewrite re_match_scan.
  destruct (@scan_render f tail W (line_end_stops _ _ E)) as [p H].
  exists p. rewrite H. unfold step_end.
  now rewrite at_end_line_end; simpl; rewrite E.
Qed.

(** What [parse_log_line] does once the pattern has matched. *)
Lemma parse_matched line m f :
  re_match log_pattern line = Some m ->
  groups m = Grammar.captures f ->
  parse_log_line line =
    (parsed_url <- Url.urlparse_str (Grammar.target f) ;;
     Ok (Some [("ip", VStr (Grammar.client_address f));
               ("timestamp", VStr (Grammar.timestamp f));
               ("method", VStr (Grammar.method f));
               ("url", Url.path parsed_url);
               ("status", VStr (Grammar.status_code f));
               ("size", VStr (Grammar.response_size f));
               ("query_parameters", Url.query parsed_url)])).
Proof.
  intros M G. unfold parse_log_line. rewrite M.
  unfold groupdict. rewrite G. simpl.
  destruct (Url.urlparse_str (Grammar.target f)); reflexivity.
Qed.

Lemma urlparse_str_text u r :
  Url.urlparse_str u = Ok r ->
  exists p q, Url.path r = VStr p /\ Url.query r = VStr q.
Proof.
  unfold Url.urlparse_str. destruct (Url.urlsplit u) as [sp|e]; simpl;
    [|discriminate].
  destruct (_ && _); [destruct (Url.splitparams _)|];
    intros H; inversion H; simpl; eauto.
Qed.

Lemma all_remove (q p : ascii -> bool) s :
  Str.all q s = true -> Str.all q (Url.remove p s) = true.
Proof.
  induction s as [|a s IH]; simpl; [reflexivity|].
  intros H. apply andb_true_iff in H as [Ha H].
  destruct (p a); simpl; [|rewrite Ha]; auto.
Qed.

Lemma remove_all (p : ascii -> bool) s :
  Str.all (fun a => negb (p a)) (Url.remove p s) = true.
Proof.
  induction s as [|a s IH]; simpl; [reflexivity|].
  destruct (p a) eqn:Pa; simpl; [|rewrite Pa]; auto.
Qed.

(** The only characters up to U+00FF whose normal form holds one of
    [/?#@:] are these five themselves. *)
Lemma nfkc_char_special a c :
  In c [47; 63; 35; 64; 58]%N ->
  existsb (N.eqb c) (Url.nfkc_char a) = true -> Str.code a = c.
Proof.
  intros Hc. simpl in Hc.
  destruct a as [b0 b1 b2 b3 b4 b5 b6 b7].
  destruct b0, b1, b2, b3, b4, b5, b6, b7;
    repeat (destruct Hc as [<-|Hc];
            [vm_compute; intros H; first [discriminate H | reflexivity]|]);
    contradiction.
Qed.

Lemma nfkc_free s c :
  In c [47; 63; 35; 64; 58]%N ->
  Str.all (fun a => negb (N.eqb (Str.code a) c)) s = true ->
  existsb (N.eqb c) (Url.nfkc s) = false.
Proof.
  intros Hc. induction s as [|a s IH]; simpl; [reflexivity|].
  intros H. apply andb_true_iff in H as [Ha H].
  rewrite existsb_app, (IH H), orb_false_r.
  destruct (existsb (N.eqb c) (Url.nfkc_char a)) eqn:E; [|reflexivity].
  apply (nfkc_char_special _ Hc) in E. rewrite E, N.eqb_refl in Ha.
  discriminate Ha.
Qed.

Lemma code_eqb a b : N.eqb (Str.code a) (Str.code b) = Ascii.eqb a b.
Proof.
  unfold Str.code. destruct (Ascii.eqb_spec a b) as [->|Hab].
  - apply N.eqb_refl.
  - apply N.eqb_neq. intros H. apply Hab.
    now rewrite <- (ascii_N_embedding a), <- (ascii_N_embedding b), H.
Qed.

(** Up to U+00FF [_checknetloc] lets every netloc without [/] pass. *)
Lemma checknetloc_ok netloc :
  Str.all (fun a => negb (Ascii.eqb a "/")) netloc = true ->
  Url.checknetloc netloc = Ok tt.
Proof.
  intros H. unfold Url.checknetloc.
  destruct (_ || _); [reflexivity|].
  destruct (Url.codes_eqb _ _); [reflexivity|].
  set (n := Url.remove (fun a => Str.mem a "@:#?") netloc).
  assert (F : forall c, In c [47; 63; 35; 64; 58]%N ->
                        existsb (N.eqb c) (Url.nfkc n) = false).
  { intros c Hc. apply (nfkc_free _ Hc). simpl in Hc.
    destruct Hc as [<-|Hc].
    - unfold n. apply all_remove. revert H. apply all_impl. intros a.
      now rewrite <- (code_eqb a "/").
    - pose proof (remove_all (fun a => Str.mem a "@:#?") netloc) as R.
      fold n in R. revert R. apply all_impl. intros a Ha.
      destruct (N.eqb_spec (Str.code a) c) as [E|]; [|reflexivity].
      exfalso. rewrite <- (ascii_N_embedding a) in Ha.
      fold (Str.code a) in Ha. rewrite E in Ha.
      repeat (destruct Hc as [<-|Hc]; [discriminate Ha|]).
      contradiction. }
  change (Url.codes "/?#@:") with [47; 63; 35; 64; 58]%N.
  cbn [existsb].
  rewrite !F by (simpl; tauto). reflexivity.
Qed.

Lemma checknetloc_raises netloc e :
  Url.checknetloc netloc = Raise e -> e = ValueError.
Proof.
  unfold Url.checknetloc.
  destruct (_ || _); [discriminate|].
  destruct (Url.codes_eqb _ _); [discriminate|].
  destruct (existsb _ _); [|discriminate].
  intros H; now inversion H.
Qed.

Lemma urlsplit_raises u e : Url.urlsplit u = Raise e -> e = ValueError.
Proof.
  unfold Url.urlsplit.
  lazymatch goal with
  | |- match ?m with (_, _) => _ end = _ -> _ => destruct m as [scheme url]
  end.
  destruct (Str.strip_prefix "//" url) as [tl|]; cbn [bind].
  - destruct (Url.splitnetloc tl) as [netloc url'].
    destruct (_ || _); [intros H; now inversion H|].
    destruct (_ && _); [intros H; now inversion H|].
    cbn [bind]. destruct (Str.partition "#" url') as [[b1 f1] r1];
      destruct f1;
      destruct (Str.partition "?" _) as [[b2 f2] r2]; destruct f2;
      destruct (Url.checknetloc netloc) as [[]|e'] eqn:C; cbn [bind];
      try discriminate;
      intros H; inversion H; subst; exact (checknetloc_raises _ C).
  - change (Url.checknetloc "") with (Ok tt).
    destruct (Str.partition "#" url) as [[b1 f1] r1]; destruct f1;
      destruct (Str.partition "?" _) as [[b2 f2] r2]; destruct f2;
      discriminate.
Qed.

Lemma urlparse_str_raises u e : Url.urlparse_str u = Raise e -> e = ValueError.
Proof.
  unfold Url.urlparse_str. destruct (Url.urlsplit u) as [sp|e'] eqn:U.
  - cbn [bind]. destruct (_ && _); [destruct (Url.splitparams _)|];
      discriminate.
  - cbn [bind]. intros H; inversion H; subst. exact (urlsplit_raises _ U).
Qed.

Lemma parse_sound line d :
  parse_log_line line = Ok (Some d) ->
  exists f tail r p q,
    Grammar.well_formed f = true /\ Grammar.line_end tail = true
    /\ line = Grammar.render f tail
    /\ Url.urlparse_str (Grammar.target f) = Ok r
    /\ Url.path r = VStr p /\ Url.query r = VStr q
    /\ d = Grammar.record f p q.
Proof.
  intros H. destruct (re_match log_pattern line) as [m|] eqn:M.
  - destruct (re_match_sound _ M) as (f & W & E & R & G).
    rewrite (parse_matched _ M G) in H.
    destruct (Url.urlparse_str (Grammar.target f)) as [r|e] eqn:U;
      [|discriminate].
    destruct (urlparse_str_text _ U) as (p & q & Hp & Hq).
    simpl in H. inversion H; subst d.
    exists f, (rest m), r, p, q. rewrite Hp, Hq. auto 10.
  - unfold parse_log_line in H. rewrite M in H. discriminate.
Qed.

Lemma parse_complete f tail :
  Grammar.well_formed f = true -> Grammar.line_end tail = true ->
  parse_log_line (Grammar.render f tail) =
    (parsed_url <- Url.urlparse_str (Grammar.target f) ;;
     Ok (Some [("ip", VStr (Grammar.client_address f));
               ("timestamp", VStr (Grammar.timestamp f));
               ("method", VStr (Grammar.method f));
               ("url", Url.path parsed_url);
               ("status", VStr (Grammar.status_code f));
               ("size", VStr (Grammar.response_size f));
               ("query_parameters", Url.query parsed_url)])).
Proof.
  intros W E. destruct (re_match_complete _ _ W E) as [p M].
  now apply (parse_matched _ M).
Qed.

Lemma accepted_matches line : accepted line = true <-> Grammar.matches line.
Proof.
  unfold accepted, Grammar.matches. split.
  - destruct (re_match log_pattern line) as [m|] eqn:M; [|discriminate].
    intros _. destruct (re_match_sound _ M) as (f & W & E & R & G).
    exists f, (rest m). auto.
  - intros (f & tail & W & E & ->).
    destruct (re_match_complete _ _ W E) as [p M]. now rewrite M.
Qed.

Lemma not_accepted_none line : accepted line = false -> parse_log_line line = Ok None.
Proof.
  unfold accepted, parse_log_line.
  destruct (re_match log_pattern line); [discriminate | reflexivity].
Qed.

Lemma accepted_not_none line : accepted line = true -> parse_log_line line <> Ok None.
Proof.
  unfold accepted. destruct (re_match log_pattern line) as [m|] eqn:M;
    [|discriminate].
  intros _. destruct (re_match_sound _ M) as (f & W & E & R & G).
  rewrite (parse_matched _ M G).
  destruct (Url.urlparse_str _); discriminate.
Qed.

End Parse.

(** ** [urlparse] on plain targets *)

Section UrlFacts.

Lemma span_all_id p s : Str.all p s = true -> Str.span p s = (s, "").
Proof.
  intros H. rewrite <- (app_empty_r s) at 1. now apply span_app.
Qed.

Lemma partition_no c s :
  Grammar.no c s = true -> Str.partition c s = (s, false, "").
Proof.
  unfold Grammar.no, Str.partition. intros H. now rewrite span_all_id.
Qed.

Lemma mem_no c s : Grammar.no c s = true -> Str.mem c s = false.
Proof.
  unfold Grammar.no. induction s as [|a s IH]; simpl; [reflexivity|].
  intros H. apply andb_true_iff in H as [Ha H].
  apply negb_true_iff in Ha. now rewrite Ha, IH.
Qed.

Lemma remove_none p s :
  Str.all (fun a => negb (p a)) s = true -> Url.remove p s = s.
Proof.
  induction s as [|a s IH]; simpl; [reflexivity|].
  intros H. apply andb_true_iff in H as [Ha H].
  apply negb_true_iff in Ha. now rewrite Ha, IH.
Qed.

Lemma unsafe_is_space a : Url.unsafe_byte a = true -> Re.is_space a = true.
Proof.
  unfold Url.unsafe_byte, Re.is_space, Str.between.
  intros H. apply orb_true_iff in H as [H|H];
    [apply orb_true_iff in H as [H|H]|];
    apply N.eqb_eq in H; rewrite H; reflexivity.
Qed.

Lemma no_space_no_unsafe s :
  Str.all (fun a => negb (Re.is_space a)) s = true ->
  Str.all (fun a => negb (Url.unsafe_byte a)) s = true.
Proof.
  apply all_impl. intros a Ha. apply negb_true_iff.
  apply negb_true_iff in Ha.
  destruct (Url.unsafe_byte a) eqn:E; [|reflexivity].
  apply unsafe_is_space in E. congruence.
Qed.

Lemma partition_query t b found r :
  Str.partition "?" t = (b, found, r) ->
  (if found then (b, r) else (t, "")) =
  (Grammar.before_query t, Grammar.after_query t).
Proof.
  unfold Str.partition, Grammar.before_query, Grammar.after_query.
  destruct (Str.span (fun a => negb (Ascii.eqb a "?")) t) as [l q] eqn:E.
  destruct q as [|a q]; simpl; intros H; inversion H; subst; [|reflexivity].
  apply span_eq in E. now rewrite E, app_empty_r.
Qed.

(** On a whitespace-free target that is a plain path, [urlparse] does
    nothing but cut at the first [?]. *)
Lemma urlparse_plain t :
  Str.all (fun a => negb (Re.is_space a)) t = true ->
  Grammar.plain_target t = true ->
  Url.urlparse_str t =
    Ok {| Url.scheme := VStr ""; Url.netloc := VStr "";
          Url.path := VStr (Grammar.before_query t);
          Url.params := VStr "";
          Url.query := VStr (Grammar.after_query t);
          Url.fragment := VStr "" |}.
Proof.
  intros Hsp H. unfold Grammar.plain_target in H.
  apply andb_true_iff in H as [H Hsemi]. apply andb_true_iff in H as [H Hhash].
  apply andb_true_iff in H as [H1 H2].
  destruct t as [|a t]; [discriminate|].
  unfold Str.startswith in H1. cbn [Str.strip_prefix] in H1.
  destruct (Ascii.eqb "/" a) eqn:Ea; [|discriminate].
  apply Ascii.eqb_eq in Ea; subst a.
  assert (Hslash : Str.strip_prefix "//" (String "/" t) = None).
  { unfold Str.startswith in H2.
    destruct (Str.strip_prefix "//" (String "/" t)); [discriminate|reflexivity]. }
  unfold Url.urlparse_str, Url.urlsplit.
  replace (Url.lstrip Url.c0_control_or_space (String "/" t))
    with (String "/" t) by reflexivity.
  rewrite (remove_none _ _ (no_space_no_unsafe _ Hsp)).
  assert (Hscheme :
    (match Str.partition ":" (String "/" t) with
     | (String a0 before, true, after) =>
         if Url.is_ascii_alpha a0 && Str.all Url.scheme_char (String a0 before)
         then (Str.lowercase (String a0 before), after)
         else (EmptyString, String "/" t)
     | _ => (EmptyString, String "/" t)
     end) = (EmptyString, String "/" t)).
  { unfold Str.partition. simpl.
    destruct (Str.span (fun a => negb (Ascii.eqb a ":")) t) as [l r].
    destruct r; reflexivity. }
  rewrite Hscheme, Hslash. cbn [bind].
  change (Url.checknetloc "") with (Ok tt).
  rewrite (partition_no _ _ Hhash).
  destruct (Str.partition "?" (String "/" t)) as [[b found] r] eqn:P.
  pose proof (partition_query _ P) as Hq.
  destruct found; inversion Hq as [[Hb Hr]];
    cbn [bind Url.s_scheme Url.s_path Url.s_netloc Url.s_query Url.s_fragment].
  - rewrite (mem_no _ _ Hsemi), andb_false_r. reflexivity.
  - try rewrite <- Hb in Hsemi.
    rewrite (mem_no _ _ Hsemi), andb_false_r. reflexivity.
Qed.

End UrlFacts.

(** ** Where a line ends *)

Section LineEnd.

Lemma last_app_single s a : Str.last (s ++ String a "") = Some a.
Proof.
  induction s as [|b s IH]; simpl; [reflexivity|].
  rewrite IH. now destruct (s ++ String a "").
Qed.

Lemma last_app r q : q <> "" -> Str.last (r ++ q) = Str.last q.
Proof.
  intros Hq. induction r as [|b r IH]; simpl; [reflexivity|].
  rewrite IH. destruct (r ++ q) eqn:E; [|reflexivity].
  destruct r; simpl in E; [congruence | discriminate].
Qed.

Lemma last_all p s a :
  Str.all p s = true -> Str.last s = Some a -> p a = true.
Proof.
  induction s as [|b s IH]; simpl; [discriminate|].
  intros H. apply andb_true_iff in H as [Hb H].
  destruct s as [|c s]; [intros E; inversion E; now subst | auto].
Qed.

Lemma app_inv_last r s a : r ++ String a "" = s ++ String a "" -> r = s.
Proof.
  revert s; induction r as [|b r IH]; intros [|c s]; simpl; intros H.
  - reflexivity.
  - inversion H as [[E1 E2]]. destruct s; discriminate.
  - inversion H as [[E1 E2]]. destruct r; discriminate.
  - inversion H; subst. f_equal. auto.
Qed.

Lemma render_app f tail : Grammar.render f tail = Grammar.render f "" ++ tail.
Proof.
  unfold Grammar.render. rewrite app_empty_r.
  repeat (rewrite !app_assoc; simpl). reflexivity.
Qed.

(** A line of the grammar without its terminator ends with the last
    character of the size field, a digit or the dash. *)
Lemma render_last f :
  Grammar.well_formed f = true ->
  Str.last (Grammar.render f "") <> Some Str.newline.
Proof.
  intros W. unfold Grammar.well_formed in W.
  apply andb_true_iff in W as [_ Hsz].
  assert (H : Str.last (Grammar.response_size f) <> Some Str.newline
              /\ Grammar.response_size f <> "").
  { apply orb_true_iff in Hsz as [Hd|Hd].
    - apply digit_run_inv in Hd as [N A]. split.
      + intros L. pose proof (last_all _ _ A L). discriminate.
      + destruct (Grammar.response_size f); [discriminate|congruence].
    - apply String.eqb_eq in Hd. rewrite Hd. split; discriminate. }
  destruct H as [HL HN].
  assert (HX : exists X, Grammar.render f "" = X ++ Grammar.response_size f).
  { unfold Grammar.render. rewrite app_empty_r, <- !app_assoc.
    eexists. reflexivity. }
  destruct HX as [X ->]. now rewrite last_app.
Qed.

Lemma line_end_cases tail :
  Grammar.line_end tail = true -> tail = "" \/ tail = String Str.newline "".
Proof.
  unfold Grammar.line_end. intros H.
  apply orb_true_iff in H as [H|H]; apply String.eqb_eq in H; auto.
Qed.

End LineEnd.

(* ================================================================== *)
(** * The line parser (section 4.1) *)

(** C1, as stated, fails: the target [/a#b?c] has its first [?] after a
    [#]; [urlparse] takes everything from the [#] on as the fragment, so
    the path is [/a] and the query is empty, not [/a#b] and [c]. *)
Lemma split_at_first_question_mark_refuted :
  ~ (forall f tail,
        Grammar.well_formed f = true -> Grammar.line_end tail = true ->
        parse_log_line (Grammar.render f tail)
        = Ok (Some (Grammar.record f
                      (Grammar.before_query (Grammar.target f))
                      (Grammar.after_query (Grammar.target f))))).
Proof.
  intros H.
  specialize (H (Sample.with_target "/a#b?c") "" eq_refl eq_refl).
  vm_compute in H. discriminate H.
Qed.

(** C1, amended: for every line of the grammar, [parse_log_line] either
    returns a record whose seven fields are all text, the fields other
    than path and query being those of the line, or raises the
    [ValueError] of [urlparse]. When the request target is a plain path
    (it starts with a single [/], holds no [#], and has no [;] before its
    first [?]) it returns the record, the path being the target before its
    first [?] and the query everything after it, empty when there is
    none. *)
Theorem parse_splits_plain_target f tail :
  Grammar.well_formed f = true -> Grammar.line_end tail = true ->
  let line := Grammar.render f tail in
  (parse_log_line line = Raise ValueError
   \/ exists path query,
        parse_log_line line = Ok (Some (Grammar.record f path query)))
  /\ (forall path query,
        Forall (fun k => exists text,
                  dict_get (Grammar.record f path query) k = Some (VStr text))
               final_columns)
  /\ (Grammar.plain_target (Grammar.target f) = true ->
      parse_log_line line
      = Ok (Some (Grammar.record f
                    (Grammar.before_query (Grammar.target f))
                    (Grammar.after_query (Grammar.target f))))).
Proof.
  intros W E line. unfold line. rewrite (parse_complete _ _ W E).
  split; [|split].
  - destruct (Url.urlparse_str (Grammar.target f)) as [r|e] eqn:U; cbn [bind].
    + right. destruct (urlparse_str_text _ U) as (p & q & -> & ->).
      now exists p, q.
    + left. now rewrite (urlparse_str_raises _ U).
  - intros path query. unfold final_columns, Grammar.record.
    repeat constructor; eexists; reflexivity.
  - intros P.
    assert (Hs : Str.all (fun a => negb (Re.is_space a)) (Grammar.target f) = true).
    { unfold Grammar.well_formed in W.
      repeat match type of W with
             | (_ && _) = true => apply andb_true_iff in W as [W ?]
             end.
      match goal with
      | H : (Str.nonempty (Grammar.target f) && _) = true |- _ =>
          now apply andb_true_iff in H as [_ H]
      end. }
    rewrite (urlparse_plain _ Hs P). reflexivity.
Qed.

Lemma parse_splits_plain_target_witness :
  parse_log_line Sample.line
  = Ok (Some (Grammar.record Sample.fields "/index.html" "id=42")).
Proof.
  exact (proj2 (proj2 (parse_splits_plain_target Sample.fields ""
                         eq_refl eq_refl)) eq_refl).
Defined.

(** What [urlparse] does to other targets. *)
Example target_with_params :
  parse_log_line (Grammar.render (Sample.with_target "/a;b?c") "")
  = Ok (Some (Grammar.record (Sample.with_target "/a;b?c") "/a" "c")).
Proof. reflexivity. Qed.

Example target_with_scheme :
  parse_log_line (Grammar.render (Sample.with_target "x.com:443") "")
  = Ok (Some (Grammar.record (Sample.with_target "x.com:443") "443" "")).
Proof. reflexivity. Qed.

Example target_with_netloc :
  parse_log_line (Grammar.render (Sample.with_target "//h/p?q") "")
  = Ok (Some (Grammar.record (Sample.with_target "//h/p?q") "/p" "q")).
Proof. reflexivity. Qed.

(** A line of the grammar on which [parse_log_line] raises: the target
    opens a bracketed host and never closes it. *)
Example target_raises :
  Grammar.well_formed (Sample.with_target "//[") = true
  /\ parse_log_line (Grammar.render (Sample.with_target "//[") "")
     = Raise ValueError.
Proof. split; reflexivity. Qed.

(** C2: a line that does not match the grammar makes [parse_log_line]
    return [None], without raising, and the collector passes over it:
    the rows are those of the file without the line. *)
Theorem nonmatching_line_is_dropped line :
  ~ Grammar.matches line ->
  parse_log_line line = Ok None
  /\ forall before after parsed_logs,
       for_lines (before ++ line :: after) parsed_logs
       = for_lines (before ++ after) parsed_logs.
Proof.
  intros HM.
  assert (HN : parse_log_line line = Ok None).
  { apply not_accepted_none. destruct (accepted line) eqn:A; [|reflexivity].
    apply accepted_matches in A. contradiction. }
  split; [exact HN|].
  intros before after. induction before as [|l before IH]; intros acc; simpl.
  - now rewrite HN.
  - destruct (parse_log_line l) as [[d|]|e]; simpl; auto.
    destruct d; auto.
Qed.

Lemma nonmatching_line_is_dropped_witness :
  parse_log_line (Grammar.render (Sample.with_status "20") "") = Ok None
  /\ for_lines ([Sample.line] ++ Grammar.render (Sample.with_status "20") ""
                :: [Sample.line]) []
     = for_lines ([Sample.line] ++ [Sample.line]) [].
Proof.
  assert (H : ~ Grammar.matches (Grammar.render (Sample.with_status "20") "")).
  { intros M. apply accepted_matches in M. vm_compute in M. discriminate M. }
  split.
  - exact (proj1 (nonmatching_line_is_dropped H)).
  - exact (proj2 (nonmatching_line_is_dropped H) [Sample.line] [Sample.line] []).
Defined.

Example four_digit_status :
  parse_log_line (Grammar.render (Sample.with_status "2000") "") = Ok None.
Proof. reflexivity. Qed.

Example missing_quote_is_no_match :
  parse_log_line Sample.missing_quote = Ok None.
Proof. reflexivity. Qed.

(** C3: the two example lines of section 8. The well-formed line parses
    to the seven text fields shown; the coercion stage then turns its
    timestamp into the moment 2023-10-10T13:55:36+00:00 and its size into
    the float 512, and leaves the status as the text [200]. The malformed
    line gives [None] and no row. *)
Theorem specification_examples :
  Sample.line
  = "203.0.113.5 - - [10/Oct/2023:13:55:36 +0000] " ++ Str.dq
    ++ "GET /index.html?id=42 HTTP/1.1" ++ Str.dq ++ " 200 512"
  /\ parse_log_line Sample.line
     = Ok (Some [("ip", VStr "203.0.113.5");
                 ("timestamp", VStr "10/Oct/2023:13:55:36 +0000");
                 ("method", VStr "GET");
                 ("url", VStr "/index.html");
                 ("status", VStr "200");
                 ("size", VStr "512");
                 ("query_parameters", VStr "id=42")])
  /\ step3 Layout.strptime (Sample.line ++ Str.nl)
     = Ok [("ip", [CVal (VStr "203.0.113.5")]);
           ("timestamp", [CMoment (Moment 2023 10 10 13 55 36 0)]);
           ("method", [CVal (VStr "GET")]);
           ("url", [CVal (VStr "/index.html")]);
           ("status", [CVal (VStr "200")]);
           ("size", [CFloat (float_of_N 512)]);
           ("query_parameters", [CVal (VStr "id=42")])]
  /\ integer_value (float_of_N 512) = Some 512%Z
  /\ Str.decimal "200" 0 = 200%N
  /\ parse_log_line Sample.malformed = Ok None
  /\ read_log_file (Sample.malformed ++ Str.nl) = Ok []
  /\ read_log_file (Sample.malformed ++ Str.nl ++ Sample.line ++ Str.nl)
     = read_log_file (Sample.line ++ Str.nl).
Proof. repeat split; vm_compute; reflexivity. Qed.

(** C7, as stated, fails: a single newline after the size field is a
    character that follows it, and the line still matches. *)
Lemma trailing_characters_refuted :
  ~ (forall f tail,
        Grammar.well_formed f = true ->
        Det.size_stops (Grammar.response_size f) tail ->
        tail <> "" ->
        parse_log_line (Grammar.render f tail) = Ok None).
Proof.
  intros H.
  assert (Hs : Det.size_stops (Grammar.response_size Sample.fields) Str.nl)
    by (right; reflexivity).
  specialize (H Sample.fields Str.nl eq_refl Hs).
  assert (Hn : Str.nl <> "") by discriminate.
  specialize (H Hn). vm_compute in H. discriminate H.
Qed.

(** C7, amended: when the characters that follow the size field (the
    whole run of digits, or the dash) are anything but a single final
    newline, [parse_log_line] returns [None]. *)
Theorem trailing_characters_fail f tail :
  Grammar.well_formed f = true ->
  Det.size_stops (Grammar.response_size f) tail ->
  Grammar.line_end tail = false ->
  parse_log_line (Grammar.render f tail) = Ok None.
Proof.
  intros W S E. apply not_accepted_none. unfold accepted.
  rewrite re_match_scan. destruct (scan_render f W S) as [p H].
  rewrite H. unfold Det.step_end. rewrite at_end_line_end. simpl.
  now rewrite E.
Qed.

Lemma trailing_characters_fail_witness :
  parse_log_line (Grammar.render Sample.fields " ") = Ok None.
Proof.
  apply trailing_characters_fail;
    [reflexivity | right; reflexivity | reflexivity].
Defined.

Example trailing_second_newline :
  parse_log_line (Grammar.render Sample.fields (Str.nl ++ Str.nl)) = Ok None.
Proof. reflexivity. Qed.

(** Digits after a size written in digits belong to the size. *)
Example trailing_digit_extends_size :
  parse_log_line (Grammar.render Sample.fields "7")
  = Ok (Some (Grammar.record (Sample.with_address_size "203.0.113.5" "5127")
                "/index.html" "id=42")).
Proof. reflexivity. Qed.

(** C8, as stated, fails: the pattern asks for four runs of digits and
    does not look at their values, so [999.999.999.999], which is no IPv4
    literal, is taken as a client address. *)
Lemma client_address_refuted :
  ~ (forall line d,
        parse_log_line line = Ok (Some d) ->
        exists ip,
          dict_get d "ip" = Some (VStr ip)
          /\ (Grammar.ipv4_literal ip = true \/ ip = "NULL")).
Proof.
  intros H.
  destruct (H (Grammar.render
                 (Sample.with_address_size "999.999.999.999" "0") "")
              _ eq_refl) as (ip & Hip & Hshape).
  vm_compute in Hip. inversion Hip; subst ip.
  destruct Hshape as [Hs|Hs]; [vm_compute in Hs|]; discriminate.
Qed.

Lemma dotted_quad_head s :
  Grammar.dotted_quad s = true ->
  exists a t, s = String a t /\ Re.is_digit a = true.
Proof.
  intros H. apply dotted_quad_inv in H as (a & b & c & d & -> & Ha & _).
  apply digit_run_inv in Ha as [Hn Hd].
  destruct a as [|x a]; [discriminate|]. simpl in Hd.
  apply andb_true_iff in Hd as [Hx _]. simpl. eauto.
Qed.

(** C8, amended: a line the pattern accepts starts with its client
    address, which is four runs of decimal digits separated by dots (runs
    of any length, numbers of any size; the digits are those of [\d],
    which among the characters up to U+00FF are 0 to 9) or the token
    [NULL], followed by [ - - []; the record carries that very text. A
    line that does not start in this way gives [None]. The rest of the
    line being in the grammar, every such address is accepted. *)
Theorem client_address_shape line :
  (accepted line = true ->
   exists ip more,
     line = ip ++ " - - [" ++ more
     /\ (Grammar.dotted_quad ip = true \/ ip = "NULL")
     /\ forall d, parse_log_line line = Ok (Some d) ->
                  dict_get d "ip" = Some (VStr ip))
  /\ ((forall ip more,
          line = ip ++ " - - [" ++ more ->
          Grammar.dotted_quad ip = false /\ ip <> "NULL") ->
      parse_log_line line = Ok None)
  /\ (forall f tail,
        Grammar.well_formed f = true -> Grammar.line_end tail = true ->
        line = Grammar.render f tail ->
        accepted line = true
        /\ (Grammar.dotted_quad (Grammar.client_address f) = true
            \/ Grammar.client_address f = "NULL")).
Proof.
  assert (P1 : accepted line = true ->
     exists ip more,
       line = ip ++ " - - [" ++ more
       /\ (Grammar.dotted_quad ip = true \/ ip = "NULL")
       /\ forall d, parse_log_line line = Ok (Some d) ->
                    dict_get d "ip" = Some (VStr ip)).
  { unfold accepted.
    destruct (Re.re_match log_pattern line) as [m|] eqn:M; [|discriminate].
    intros _. destruct (re_match_sound _ M) as (f & W & E & R & G).
    exists (Grammar.client_address f). eexists. split; [|split].
    - rewrite R. unfold Grammar.render. reflexivity.
    - unfold Grammar.well_formed in W.
      repeat match type of W with
             | (_ && _) = true => apply andb_true_iff in W as [W _]
             end.
      apply orb_true_iff in W as [W|W]; [now left|].
      right. now apply String.eqb_eq.
    - intros d Hd. rewrite (parse_matched _ M G) in Hd.
      destruct (Url.urlparse_str (Grammar.target f)); [|discriminate].
      simpl in Hd. inversion Hd. reflexivity. }
  split; [exact P1|]. split.
  - intros Hno. apply not_accepted_none.
    destruct (accepted line) eqn:A; [|reflexivity].
    destruct (P1 eq_refl) as (ip & more & E & Hshape & _).
    destruct (Hno _ _ E) as [Hq Hn].
    destruct Hshape; congruence.
  - intros f tail W E ->. split.
    + apply accepted_matches. now exists f, tail.
    + unfold Grammar.well_formed in W.
      repeat match type of W with
             | (_ && _) = true => apply andb_true_iff in W as [W _]
             end.
      apply orb_true_iff in W as [W|W]; [now left|].
      right. now apply String.eqb_eq.
Qed.

Lemma client_address_shape_witness :
  (exists ip more,
      Grammar.render (Sample.with_address_size "NULL" "-") Str.nl
      = ip ++ " - - [" ++ more
      /\ (Grammar.dotted_quad ip = true \/ ip = "NULL")
      /\ forall d,
           parse_log_line
             (Grammar.render (Sample.with_address_size "NULL" "-") Str.nl)
           = Ok (Some d) -> dict_get d "ip" = Some (VStr ip))
  /\ parse_log_line
       (Grammar.render (Sample.with_address_size "localhost" "-") Str.nl)
     = Ok None
  /\ accepted
       (Grammar.render (Sample.with_address_size "999.999.999.999" "0") "")
     = true.
Proof.
  split; [|split].
  - apply (proj1 (client_address_shape _)). reflexivity.
  - apply (proj1 (proj2 (client_address_shape _))).
    intros ip more E. split.
    + destruct (Grammar.dotted_quad ip) eqn:Q; [|reflexivity].
      apply dotted_quad_head in Q as (a & t & -> & Ha).
      inversion E; subst a. discriminate Ha.
    + intros ->. discriminate E.
  - apply (proj2 (proj2 (client_address_shape _))
                 (Sample.with_address_size "999.999.999.999" "0") "");
      reflexivity.
Defined.

(** The four numbers of a dotted quad are not bounded. *)
Example address_octets_unbounded :
  accepted (Grammar.render (Sample.with_address_size "999.999.999.999" "0") "")
  = true.
Proof. reflexivity. Qed.

Example address_null_needs_boundary :
  accepted (Grammar.render (Sample.with_address_size "NULLX" "0") "") = false.
Proof. reflexivity. Qed.

(** C10, as stated, fails for a text that already ends with a newline:
    the line matches, the line with a second newline does not. *)
Lemma newline_tolerance_refuted :
  ~ (forall s, parse_log_line s = parse_log_line (s ++ Str.nl)).
Proof.
  intros H. specialize (H (Sample.line ++ Str.nl)).
  vm_compute in H. discriminate H.
Qed.

(** C10, amended: for every text that does not end with a newline,
    [parse_log_line] gives the same outcome on the text and on the text
    followed by one newline. *)
Theorem newline_tolerance s :
  Str.last s <> Some Str.newline ->
  parse_log_line (s ++ Str.nl) = parse_log_line s.
Proof.
  intros HL.
  destruct (accepted s) eqn:A.
  - apply accepted_matches in A as (f & tail & W & E & ->).
    destruct (line_end_cases _ E) as [->| ->].
    + rewrite (parse_complete _ _ W E).
      rewrite (render_app f ""), app_empty_r, <- render_app.
      now rewrite (parse_complete f Str.nl W eq_refl).
    + exfalso. apply HL. rewrite render_app. apply last_app_single.
  - rewrite (not_accepted_none _ A). apply not_accepted_none.
    destruct (accepted (s ++ Str.nl)) eqn:B; [|reflexivity].
    apply accepted_matches in B as (f & tail & W & E & R).
    destruct (line_end_cases _ E) as [->| ->].
    + exfalso. apply (render_last _ W). rewrite <- R. apply last_app_single.
    + rewrite render_app in R. apply app_inv_last in R. subst s.
      assert (M : Grammar.matches (Grammar.render f "")) by
        (exists f, ""; auto).
      apply accepted_matches in M. congruence.
Qed.

Lemma newline_tolerance_witness :
  parse_log_line (Sample.line ++ Str.nl) = parse_log_line Sample.line.
Proof. apply newline_tolerance. vm_compute. discriminate. Defined.

(* ================================================================== *)
(** * The record collector (section 4.2) *)

(** ** Floats of non-negative integers *)

Section FloatFacts.

Lemma shr_1_nonneg mrs : (0 <= shr_m mrs)%Z -> (0 <= shr_m (shr_1 mrs))%Z.
Proof.
  destruct mrs as [m r s]. simpl. intros H.
  destruct m as [|[p|p|]|p]; simpl; lia.
Qed.

Lemma iter_shr_1_nonneg p mrs :
  (0 <= shr_m mrs)%Z -> (0 <= shr_m (iter_pos shr_1 p mrs))%Z.
Proof.
  revert mrs; induction p as [p IH|p IH|]; intros mrs H; simpl.
  - apply IH, IH. now apply shr_1_nonneg.
  - now apply IH, IH.
  - now apply shr_1_nonneg.
Qed.

Lemma shr_fexp_nonneg prec emax m e l :
  (0 <= m)%Z -> (0 <= shr_m (fst (shr_fexp prec emax m e l)))%Z.
Proof.
  intros H. unfold shr_fexp, shr.
  assert (H0 : (0 <= shr_m (shr_record_of_loc m l))%Z)
    by (destruct l as [|[]]; exact H).
  destruct (_ - e)%Z; simpl; auto using iter_shr_1_nonneg.
Qed.

Lemma round_nearest_even_nonneg m l :
  (0 <= m)%Z -> (0 <= round_nearest_even m l)%Z.
Proof.
  intros H. destruct l as [|[]]; simpl; try lia.
  destruct (Z.even m); lia.
Qed.

Lemma binary_round_aux_nonneg prec emax m e l :
  (0 <= m)%Z -> nonneg (binary_round_aux prec emax false m e l) = true.
Proof.
  intros H. unfold binary_round_aux.
  pose proof (shr_fexp_nonneg prec emax e l H) as H1.
  destruct (shr_fexp prec emax m e l) as [mrs' e']. simpl in H1.
  pose proof (shr_fexp_nonneg prec emax e' loc_Exact
                (round_nearest_even_nonneg (loc_of_shr_record mrs') H1)) as H2.
  destruct (shr_fexp prec emax _ e' loc_Exact) as [mrs'' e'']. simpl in H2.
  destruct (shr_m mrs'') as [|q|q]; [reflexivity | | lia].
  destruct (e'' <=? emax - prec)%Z; reflexivity.
Qed.

(** The float of a non-negative integer is a zero, a positive number or
    the positive infinity; never NaN, never negative. *)
Lemma float_of_N_nonneg n : nonneg (float_of_N n) = true.
Proof.
  unfold float_of_N, binary_normalize. destruct n as [|p]; simpl;
    [reflexivity|].
  unfold binary_round. destruct (shl_align _ _ _) as [mz ez].
  apply binary_round_aux_nonneg. lia.
Qed.


End FloatFacts.

Section ExactFloats.

Local Open Scope Z_scope.

Lemma digits2_lower p : 2 ^ (Zpos (digits2_pos p) - 1) <= Zpos p.
Proof.
  induction p as [p IH|p IH|]; simpl digits2_pos.
  - rewrite Pos2Z.inj_succ.
    replace (Z.succ (Zpos (digits2_pos p)) - 1)
      with (Z.succ (Zpos (digits2_pos p) - 1)) by lia.
    rewrite Z.pow_succ_r by lia. lia.
  - rewrite Pos2Z.inj_succ.
    replace (Z.succ (Zpos (digits2_pos p)) - 1)
      with (Z.succ (Zpos (digits2_pos p) - 1)) by lia.
    rewrite Z.pow_succ_r by lia. lia.
  - simpl. lia.
Qed.

Lemma digits2_bound p : Zpos p < 2 ^ 53 -> Zpos (digits2_pos p) <= 53.
Proof.
  intros H. pose proof (digits2_lower p) as L.
  destruct (Z_le_gt_dec (Zpos (digits2_pos p)) 53) as [|G]; [assumption|].
  exfalso. assert (2 ^ 53 <= 2 ^ (Zpos (digits2_pos p) - 1))
    by (apply Z.pow_le_mono_r; lia).
  lia.
Qed.

Lemma iter_xO_digits p k :
  Zpos (digits2_pos (Pos.iter xO p k)) = Zpos (digits2_pos p) + Zpos k.
Proof.
  induction k as [|k IH] using Pos.peano_ind.
  - simpl. lia.
  - rewrite Pos.iter_succ. simpl digits2_pos. rewrite Pos2Z.inj_succ, IH. lia.
Qed.

Lemma iter_xO_value p k : Zpos (Pos.iter xO p k) = Zpos p * 2 ^ Zpos k.
Proof.
  induction k as [|k IH] using Pos.peano_ind.
  - simpl. lia.
  - rewrite Pos.iter_succ, Pos2Z.inj_xO, IH, Pos2Z.inj_succ.
    rewrite Z.pow_succ_r by lia. lia.
Qed.

Lemma binary_round_aux_exact m e :
  Zpos (digits2_pos m) = 53 -> -1074 <= e <= 971 ->
  binary_round_aux 53 1024 false (Zpos m) e loc_Exact = S754_finite false m e.
Proof.
  intros D He. unfold binary_round_aux.
  assert (S : shr_fexp 53 1024 (Zpos m) e loc_Exact
              = (Build_shr_record (Zpos m) false false, e)).
  { unfold shr_fexp. simpl Zdigits2. rewrite D.
    replace (fexp 53 1024 (53 + e) - e) with 0
      by (unfold fexp, emin; lia).
    reflexivity. }
  rewrite S. simpl shr_m. simpl loc_of_shr_record.
  simpl round_nearest_even. rewrite S. simpl shr_m.
  replace (e <=? 1024 - 53) with true by (symmetry; apply Z.leb_le; lia).
  reflexivity.
Qed.

Lemma float_of_pos_exact p :
  Zpos p < 2 ^ 53 -> integer_value (float_of_N (Npos p)) = Some (Zpos p).
Proof.
  intros H. pose proof (digits2_bound H) as D.
  unfold float_of_N, binary_normalize. simpl Z.of_N. unfold binary_round.
  unfold shl_align.
  replace (fexp 53 1024 (Zpos (digits2_pos p) + 0))
    with (Zpos (digits2_pos p) - 53) by (unfold fexp, emin; lia).
  destruct (Zpos (digits2_pos p) - 53 - 0) as [|k|k] eqn:K; [|lia|].
  - rewrite binary_round_aux_exact by lia. simpl. f_equal. lia.
  - rewrite binary_round_aux_exact
      by (rewrite ?iter_xO_digits; lia).
    unfold integer_value.
    replace (0 <=? Zpos (digits2_pos p) - 53) with false
      by (symmetry; apply Z.leb_gt; lia).
    replace (- (Zpos (digits2_pos p) - 53)) with (Zpos k) by lia.
    rewrite iter_xO_value.
    assert (P : 0 < 2 ^ Zpos k) by (apply Z.pow_pos_nonneg; lia).
    rewrite Z.mod_mul by lia. simpl Z.eqb. cbv iota.
    rewrite Z.div_mul by lia. f_equal; lia.
Qed.

Lemma float_of_N_exact n :
  Z.of_N n < 2 ^ 53 -> integer_value (float_of_N n) = Some (Z.of_N n).
Proof.
  destruct n as [|p]; [reflexivity|]. apply float_of_pos_exact.
Qed.

End ExactFloats.

(** ** Sizes within the range of binary64 *)

Section FiniteFloats.

Local Open Scope Z_scope.











End FiniteFloats.

(** ** The loop over the lines *)

Section Collector.

Lemma parse_record line d : parse_log_line line = Ok (Some d) -> is_record d.
Proof.
  intros H. apply parse_sound in H
    as (f & tail & r & p & q & W & _ & _ & _ & _ & _ & ->).
  now exists f, p, q.
Qed.

Lemma record_truthy d : is_record d -> truthy (Some d) = true.
Proof. intros (f & p & q & _ & ->). reflexivity. Qed.

Lemma for_lines_ok lines parsed_logs :
  forallb (fun l => negb (raises l)) lines = true ->
  for_lines lines parsed_logs = Ok (parsed_logs ++ parsed_records lines)%list.
Proof.
  revert parsed_logs; induction lines as [|l lines IH]; intros acc; simpl.
  - intros _. now rewrite List.app_nil_r.
  - intros H. apply andb_true_iff in H as [Hl H]. unfold raises in Hl.
    destruct (parse_log_line l) as [[d|]|e] eqn:P; [| |discriminate];
      cbn [bind].
    + rewrite (record_truthy (parse_record _ P)), (IH _ H).
      now rewrite <- List.app_assoc.
    + now rewrite (IH _ H).
Qed.

Lemma for_lines_raise lines parsed_logs :
  forallb (fun l => negb (raises l)) lines = false ->
  exists e, for_lines lines parsed_logs = Raise e.
Proof.
  revert parsed_logs; induction lines as [|l lines IH]; intros acc; simpl.
  - discriminate.
  - intros H. unfold raises in H.
    destruct (parse_log_line l) as [[d|]|e] eqn:P; cbn [bind negb andb] in *;
      [|now apply IH|eauto].
    destruct (truthy (Some d)); now apply IH.
Qed.

Lemma parsed_records_are_records lines : Forall is_record (parsed_records lines).
Proof.
  induction lines as [|l lines IH]; simpl; [constructor|].
  destruct (parse_log_line l) as [[d|]|e] eqn:P; simpl; auto.
  constructor; [exact (parse_record _ P) | exact IH].
Qed.

(** When no line raises, the records are those of the accepted lines,
    one for one and in order. *)
Lemma parsed_records_accepted lines :
  forallb (fun l => negb (raises l)) lines = true ->
  Forall2 (fun line row => parse_log_line line = Ok (Some row))
          (filter accepted lines) (parsed_records lines).
Proof.
  induction lines as [|l lines IH]; simpl; [constructor|].
  intros H. apply andb_true_iff in H as [Hl H]. specialize (IH H).
  unfold raises in Hl. destruct (accepted l) eqn:A.
  - pose proof (accepted_not_none _ A) as Hn.
    destruct (parse_log_line l) as [[d|]|e] eqn:P;
      [|congruence|discriminate].
    simpl. constructor; [exact P | exact IH].
  - now rewrite (not_accepted_none _ A).
Qed.

Lemma Forall2_nth {A B : Type} (R : A -> B -> Prop) l1 l2 i a :
  Forall2 R l1 l2 -> nth_error l1 i = Some a ->
  exists b, nth_error l2 i = Some b /\ R a b.
Proof.
  intros H; revert i; induction H as [|x y l1 l2 Hxy H IH]; intros i.
  - destruct i; discriminate.
  - destruct i as [|i]; simpl; [intros E; inversion E; subst; eauto | apply IH].
Qed.

End Collector.

(** The lines handed over by the reader: a body without newline, followed
    by one newline; only a non-empty last line can lack its newline. *)
Lemma split_lines_shape s :
  Forall (fun l => exists body,
            Grammar.no Str.newline body = true
            /\ (l = body ++ Str.nl \/ (l = body /\ body <> "")))
         (split_lines s).
Proof.
  induction s as [|a s IH]; simpl; [constructor|].
  destruct (Ascii.eqb a Str.newline) eqn:E.
  - apply Ascii.eqb_eq in E; subst. constructor; [|exact IH].
    exists "". split; [reflexivity | now left].
  - destruct (split_lines s) as [|l ls].
    + constructor; [|constructor].
      exists (String a ""). unfold Grammar.no. simpl. rewrite E.
      split; [reflexivity | right; split; [reflexivity | discriminate]].
    + inversion IH as [|? ? (body & Hb & Hl) Hls]; subst.
      constructor; [|exact Hls].
      exists (String a body). unfold Grammar.no in *. simpl. rewrite E, Hb.
      split; [reflexivity|].
      destruct Hl as [->|[-> _]]; [now left | right; split; [reflexivity|discriminate]].
Qed.

(** The loop stops at the first line on which [parse_log_line] raises. *)
Lemma collector_aborts content :
  forallb (fun l => negb (raises l)) (file_lines content) = false ->
  exists e, read_log_file content = Raise e.
Proof. intros H. now apply for_lines_raise. Qed.

Example collector_aborts_on_bracket :
  read_log_file (Sample.line ++ Str.nl
                 ++ Grammar.render (Sample.with_target "//[") Str.nl)
  = Raise ValueError.
Proof. reflexivity. Qed.

(** ** The frame of the parsed records *)

Section Frame.

Variable strptime : string -> option moment.

Lemma columns_fold rows :
  Forall is_record rows ->
  fold_left (fun cols r => Pd.add_new cols (keys r)) rows final_columns
  = final_columns.
Proof.
  induction 1 as [|r rows (f & p & q & _ & ->) _ IH]; simpl; [reflexivity|].
  exact IH.
Qed.

Lemma from_records_shape rows :
  rows <> [] -> Forall is_record rows ->
  Pd.from_records rows = map (fun c => (c, map (Pd.cell_of c) rows)) final_columns.
Proof.
  intros Hn H. unfold Pd.from_records. destruct H as [|r rows Hr H];
    [congruence|].
  destruct Hr as (f & p & q & _ & ->). cbn [fold_left].
  change (Pd.add_new [] (keys (Grammar.record f p q))) with final_columns.
  now rewrite (columns_fold H).
Qed.

Lemma text_cells key rows :
  In key final_columns -> Forall is_record rows ->
  map (Pd.cell_of key) rows = text_column key rows.
Proof.
  intros Hk. induction 1 as [|r rows (f & p & q & _ & ->) _ IH]; simpl;
    [reflexivity|].
  rewrite IH. f_equal.
  simpl in Hk. repeat (destruct Hk as [<-|Hk]; [reflexivity|]). contradiction.
Qed.

Lemma parse_text_raises s e :
  Pd.parse_text strptime s = Raise e -> e = ValueError.
Proof.
  unfold Pd.parse_text. destruct (Pd.is_nat_string s); [discriminate|].
  destruct (Pd.matches_format s); [|intros H; now inversion H].
  destruct (strptime s); [discriminate|intros H; now inversion H].
Qed.

Lemma to_datetime_texts rows :
  Pd.map_result (fun c => match c with
                          | CVal (VStr s) => Pd.parse_text strptime s
                          | CVal VNone | CNaT | CFloat S754_nan => Ok CNaT
                          | CMoment m => Ok (CMoment m)
                          | _ => Raise ValueError
                          end) (text_column "timestamp" rows)
  = if timestamps_conform strptime rows
    then Ok (map (moment_cell strptime) rows)
    else Raise ValueError.
Proof.
  induction rows as [|r rows IH]; [reflexivity|].
  cbn [text_column map timestamps_conform forallb Pd.map_result].
  fold (text_column "timestamp" rows). rewrite IH.
  fold (timestamps_conform strptime rows).
  destruct (Pd.parse_text strptime (text_of "timestamp" r)) as [c|e] eqn:E;
    cbn [bind andb].
  - replace (moment_cell strptime r) with c
      by (unfold moment_cell; now rewrite E).
    now destruct (timestamps_conform strptime rows).
  - now rewrite (parse_text_raises _ E).
Qed.

Lemma to_datetime_column rows :
  Forall is_record rows ->
  Pd.to_datetime strptime (text_column "timestamp" rows)
  = if timestamps_conform strptime rows && same_offsets strptime rows
    then Ok (map (moment_cell strptime) rows)
    else Raise ValueError.
Proof.
  intros _. unfold Pd.to_datetime. rewrite to_datetime_texts.
  destruct (timestamps_conform strptime rows); [|reflexivity].
  cbn [bind andb]. unfold same_offsets.
  now destruct (Pd.same_offset _).
Qed.

Lemma record_size_shape r :
  is_record r ->
  (digit_run (text_of "size" r) || String.eqb (text_of "size" r) "-") = true.
Proof.
  intros (f & p & q & W & ->). unfold Grammar.well_formed in W.
  now apply andb_true_iff in W as [_ W].
Qed.

Lemma digit_run_not_dash s : digit_run s = true -> String.eqb s "-" = false.
Proof.
  intros H. destruct (String.eqb_spec s "-") as [->|]; [discriminate H|reflexivity].
Qed.

Lemma fillna_float n :
  Pd.fillna_zero [CFloat (float_of_N n)] = [CFloat (float_of_N n)].
Proof.
  pose proof (float_of_N_nonneg n) as H. simpl.
  destruct (float_of_N n); [reflexivity | reflexivity | discriminate H | reflexivity].
Qed.

Lemma astype_replace_cons s col :
  Pd.astype_float (Pd.replace "-" NaN (CVal (VStr s) :: col))
  = if String.eqb s "-"
    then bs <- Pd.astype_float (Pd.replace "-" NaN col) ;; Ok (NaN :: bs)
    else f <- py_float s ;;
         bs <- Pd.astype_float (Pd.replace "-" NaN col) ;;
         Ok (CFloat f :: bs).
Proof.
  unfold Pd.astype_float, Pd.replace. cbn [map].
  destruct (String.eqb s "-"); [reflexivity|].
  cbn [Pd.map_result]. destruct (py_float s); reflexivity.
Qed.

Lemma fillna_cons c col :
  Pd.fillna_zero (c :: col) = (Pd.fillna_zero [c] ++ Pd.fillna_zero col)%list.
Proof. reflexivity. Qed.

(** The size column: the dash becomes NaN and then zero, a run of
    digits becomes the float of its number. Nothing raises. *)
Lemma size_column rows :
  Forall is_record rows ->
  exists size,
    Pd.astype_float (Pd.replace "-" NaN (text_column "size" rows)) = Ok size
    /\ Pd.fillna_zero size = map size_cell rows.
Proof.
  induction 1 as [|r rows Hr _ (size & IH1 & IH2)].
  - exists []. auto.
  - cbn [text_column map]. fold (text_column "size" rows).
    rewrite astype_replace_cons, IH1. cbn [bind].
    unfold size_cell at 1, size_value.
    pose proof (record_size_shape Hr) as Hs.
    destruct (String.eqb (text_of "size" r) "-") eqn:E.
    + exists (NaN :: size). split; [reflexivity|].
      rewrite fillna_cons, IH2. reflexivity.
    + rewrite orb_false_r in Hs. unfold py_float. rewrite Hs. cbn [bind].
      eexists. split; [reflexivity|].
      now rewrite fillna_cons, fillna_float, IH2.
Qed.

(** Step 3 on the records of the collector. *)
Lemma clean_records rows :
  rows <> [] -> Forall is_record rows ->
  clean strptime rows
  = if timestamps_conform strptime rows && same_offsets strptime rows
    then Ok (final_frame strptime rows)
    else Raise ValueError.
Proof.
  intros Hn H. unfold clean. rewrite (from_records_shape Hn H).
  cbn [map final_columns].
  rewrite !text_cells by (assumption || (simpl; tauto)).
  change (Pd.getcol _ "timestamp") with (Ok (text_column "timestamp" rows)).
  cbn [bind]. rewrite (to_datetime_column H).
  destruct (timestamps_conform strptime rows && same_offsets strptime rows);
    [|reflexivity].
  cbn [bind]. destruct (size_column H) as (size & S1 & S2).
  change (Pd.getcol _ "size") with (Ok (text_column "size" rows)) at 1.
  cbn [bind]. rewrite S1. cbn [bind].
  unfold final_frame. rewrite <- S2. reflexivity.
Qed.

Lemma clean_empty : clean strptime [] = Raise (KeyError "timestamp").
Proof. reflexivity. Qed.

Lemma read_log_file_records content rows :
  read_log_file content = Ok rows -> Forall is_record rows.
Proof.
  unfold read_log_file. intros H.
  destruct (forallb (fun l => negb (raises l)) (file_lines content)) eqn:E.
  - rewrite (for_lines_ok _ [] E) in H. inversion H.
    apply parsed_records_are_records.
  - destruct (for_lines_raise _ [] E) as [e He]. congruence.
Qed.

(** When step 3 succeeds. *)
Lemma step3_ok content df :
  step3 strptime content = Ok df ->
  exists rows,
    read_log_file content = Ok rows /\ rows <> [] /\ Forall is_record rows
    /\ timestamps_conform strptime rows && same_offsets strptime rows = true
    /\ df = final_frame strptime rows.
Proof.
  unfold step3. destruct (read_log_file content) as [rows|e] eqn:R;
    [|discriminate].
  cbn [bind]. pose proof (read_log_file_records _ R) as HR.
  destruct rows as [|r rows]; [rewrite clean_empty; discriminate|].
  rewrite (clean_records (rows := r :: rows)) by (congruence || assumption).
  destruct (timestamps_conform strptime (r :: rows)
            && same_offsets strptime (r :: rows)) eqn:T; [|discriminate].
  intros H; inversion H. exists (r :: rows).
  repeat split; auto; congruence.
Qed.

End Frame.

(** ** The coercion stage *)

Lemma record_text key r :
  In key final_columns -> is_record r ->
  dict_get r key = Some (VStr (text_of key r)).
Proof.
  intros Hk (f & p & q & _ & ->). simpl in Hk.
  repeat (destruct Hk as [<-|Hk]; [reflexivity|]). contradiction.
Qed.






Example dash_size_in_final_rows :
  step3 Layout.strptime (Grammar.render (Sample.with_address_size "NULL" "-") Str.nl)
  = Ok [("ip", [CVal (VStr "NULL")]);
        ("timestamp", [CMoment (Moment 2023 10 10 13 55 36 0)]);
        ("method", [CVal (VStr "GET")]);
        ("url", [CVal (VStr "/index.html")]);
        ("status", [CVal (VStr "200")]);
        ("size", [CFloat (S754_zero false)]);
        ("query_parameters", [CVal (VStr "id=42")])].
Proof. vm_compute. reflexivity. Qed.

(** Sizes beyond 2^53 are rounded, sizes beyond the range of binary64
    become the positive infinity. *)
Example large_size_is_rounded :
  integer_value (size_value "9007199254740993") = Some 9007199254740992%Z.
Proof. vm_compute. reflexivity. Qed.




(** What the pattern of the format takes is wider than the layout of
    section 4.1: one digit will do for the day and the time, the month is
    read in any case, the offset may hold a colon or be [Z]. *)
Example format_is_lenient :
  Pd.matches_format "1/oct/2023:1:2:3 +00:00" = true
  /\ Pd.matches_format "10/OCT/2023:13:55:36  Z" = true
  /\ Pd.matches_format "10/Oct/2023:13:55:36 +0000" = true
  /\ Pd.matches_format "10/Oct/2023:13:55:36" = false
  /\ Pd.matches_format "2023-10-10 13:55:36 +0000" = false
  /\ Pd.matches_format "NaT" = false.
Proof. repeat split; vm_compute; reflexivity. Qed.

(** A timestamp read as missing stays in the rows, as NaT. *)
Example nat_word_in_final_rows :
  step3 Layout.strptime (Grammar.render (Sample.with_timestamp "NaT") Str.nl)
  = Ok [("ip", [CVal (VStr "203.0.113.5")]);
        ("timestamp", [CNaT]);
        ("method", [CVal (VStr "GET")]);
        ("url", [CVal (VStr "/index.html")]);
        ("status", [CVal (VStr "200")]);
        ("size", [CFloat (float_of_N 512)]);
        ("query_parameters", [CVal (VStr "id=42")])].
Proof. vm_compute. reflexivity. Qed.

(** A file without a matching line has no timestamp column to coerce:
    step 3 stops with a [KeyError]. *)
Example no_record_no_frame :
  step3 Layout.strptime "" = Raise (KeyError "timestamp").
Proof. reflexivity. Qed.

(** C9: when step 3 succeeds, the final row set has the seven columns
    [ip], [timestamp], [method], [url], [status], [size] and
    [query_parameters], in this order and no other; the columns [ip],
    [method], [url], [status] and [query_parameters] hold, row by row, the
    very texts of the records of the parser (so a [NULL] address stays the
    text [NULL], and the status stays a text of three digits); the
    timestamp and size columns are the coerced ones. *)
Theorem coercion_frame strptime content df :
  step3 strptime content = Ok df ->
  exists rows,
    read_log_file content = Ok rows
    /\ map fst df = final_columns
    /\ (forall key,
          In key ["ip"; "method"; "url"; "status"; "query_parameters"] ->
          Pd.lookup df key = Some (text_column key rows)
          /\ Forall (fun r => dict_get r key = Some (VStr (text_of key r))) rows)
    /\ Forall (fun r =>
         String.length (text_of "status" r) = 3
         /\ Str.all Re.is_digit (text_of "status" r) = true
         /\ (Grammar.dotted_quad (text_of "ip" r) = true
             \/ text_of "ip" r = "NULL")) rows
    /\ Pd.lookup df "timestamp" = Some (map (moment_cell strptime) rows)
    /\ Pd.lookup df "size" = Some (map size_cell rows).
Proof.
  intros H. apply step3_ok in H as (rows & R & _ & HR & _ & ->).
  exists rows. split; [exact R|]. split; [reflexivity|].
  split; [|split; [|split; reflexivity]].
  - intros key Hk. split.
    + simpl in Hk. repeat (destruct Hk as [<-|Hk]; [reflexivity|]). contradiction.
    + apply Forall_forall. intros r Hr. rewrite Forall_forall in HR.
      apply record_text; [|now apply HR].
      simpl in *. tauto.
  - apply Forall_forall. intros r Hr. rewrite Forall_forall in HR.
    destruct (HR r Hr) as (f & p & q & W & ->).
    destruct f as [ip ts me url ver st sz].
    unfold Grammar.well_formed in W. simpl in W.
    repeat match type of W with
           | (_ && _) = true => apply andb_true_iff in W as [W ?H]
           end.
    match goal with
    | H : ((String.length st =? 3)%nat && _) = true |- _ =>
        apply andb_true_iff in H as [Hn Hd]
    end.
    apply Nat.eqb_eq in Hn.
    change (text_of "status" _) with st. change (text_of "ip" _) with ip.
    split; [exact Hn|]. split; [exact Hd|].
    apply orb_true_iff in W as [W|W]; [now left|].
    right. now apply String.eqb_eq.
Qed.

Lemma coercion_frame_witness :
  exists rows,
    read_log_file Sample.two_requests = Ok rows
    /\ map fst (final_frame Layout.strptime
                  (parsed_records (file_lines Sample.two_requests)))
       = final_columns
    /\ (forall key,
          In key ["ip"; "method"; "url"; "status"; "query_parameters"] ->
          Pd.lookup (final_frame Layout.strptime
                       (parsed_records (file_lines Sample.two_requests))) key
          = Some (text_column key rows)
          /\ Forall (fun r => dict_get r key = Some (VStr (text_of key r))) rows)
    /\ Forall (fun r =>
         String.length (text_of "status" r) = 3
         /\ Str.all Re.is_digit (text_of "status" r) = true
         /\ (Grammar.dotted_quad (text_of "ip" r) = true
             \/ text_of "ip" r = "NULL")) rows
    /\ Pd.lookup (final_frame Layout.strptime
                    (parsed_records (file_lines Sample.two_requests))) "timestamp"
       = Some (map (moment_cell Layout.strptime) rows)
    /\ Pd.lookup (final_frame Layout.strptime
                    (parsed_records (file_lines Sample.two_requests))) "size"
       = Some (map size_cell rows).
Proof.
  apply (coercion_frame Layout.strptime Sample.two_requests).
  vm_compute. reflexivity.
Defined.

Example null_address_survives :
  step3 Layout.strptime Sample.two_requests
  = Ok [("ip", [CVal (VStr "NULL"); CVal (VStr "203.0.113.5")]);
        ("timestamp", [CMoment (Moment 2023 10 10 13 55 36 0);
                       CMoment (Moment 2023 10 10 13 55 36 0)]);
        ("method", [CVal (VStr "GET"); CVal (VStr "GET")]);
        ("url", [CVal (VStr "/index.html"); CVal (VStr "/index.html")]);
        ("status", [CVal (VStr "200"); CVal (VStr "200")]);
        ("size", [CFloat (S754_zero false); CFloat (float_of_N 512)]);
        ("query_parameters", [CVal (VStr "id=42"); CVal (VStr "id=42")])].
Proof. vm_compute. reflexivity. Qed.

(* ================================================================== *)
(** * Further properties of the parser and the collector *)

Section Unambiguous.

Lemma app_inv_tail r r' s : r ++ s = r' ++ s -> r = r'.
Proof.
  revert r'; induction r as [|a r IH]; intros [|b r'] H; simpl in H.
  - reflexivity.
  - exfalso. apply (f_equal String.length) in H. simpl in H.
    rewrite length_app in H. lia.
  - exfalso. apply (f_equal String.length) in H. simpl in H.
    rewrite length_app in H. lia.
  - inversion H; subst. f_equal. auto.
Qed.

Lemma scan_accepts f tail :
  Grammar.well_formed f = true -> Grammar.line_end tail = true ->
  exists p,
    Det.scan (Re.MState None (Grammar.render f tail) [])
    = Some (Re.MState p tail (Grammar.captures f)).
Proof.
  intros W E. destruct (@scan_render f tail W (line_end_stops _ _ E)) as [p H].
  exists p. rewrite H. unfold Det.step_end.
  now rewrite at_end_line_end; simpl; rewrite E.
Qed.

End Unambiguous.

(** X1: the grammar is unambiguous. A line has at most one reading: two
    tuples of well-formed fields that render to the same line, each with
    a line end, are the same fields with the same line end. *)
Theorem grammar_is_unambiguous f f' tail tail' :
  Grammar.well_formed f = true -> Grammar.well_formed f' = true ->
  Grammar.line_end tail = true -> Grammar.line_end tail' = true ->
  Grammar.render f tail = Grammar.render f' tail' ->
  f = f' /\ tail = tail'.
Proof.
  intros W W' E E' R.
  destruct (scan_accepts f tail W E) as [p H].
  destruct (scan_accepts f' tail' W' E') as [p' H'].
  rewrite R, H' in H.
  assert (Ht : tail' = tail) by congruence.
  assert (Hc : Grammar.captures f' = Grammar.captures f) by congruence.
  subst tail'. clear H H' p p'.
  destruct f as [ip ts me url ver st sz], f' as [ip' ts' me' url' ver' st' sz'].
  unfold Grammar.captures in Hc. simpl in Hc.
  assert (ip' = ip /\ ts' = ts /\ me' = me /\ url' = url /\ st' = st /\ sz' = sz)
    as (-> & -> & -> & -> & -> & ->) by (repeat split; congruence).
  split; [|reflexivity].
  unfold Grammar.render in R. simpl in R.
  do 4 (apply app_inv_head in R; simpl in R; repeat (injection R as R)).
  f_equal. eapply app_inv_tail. exact R.
Qed.

Lemma grammar_is_unambiguous_witness :
  Sample.with_target "/index.html?id=42" = Sample.fields /\ "" = "".
Proof.
  apply grammar_is_unambiguous; reflexivity.
Defined.

(** ** What [urlparse] leaves in the path and the query *)

Section UrlParts.

Lemma no_app c r q : Grammar.no c (r ++ q) = Grammar.no c r && Grammar.no c q.
Proof. apply all_app. Qed.

Lemma no_take c n s : Grammar.no c s = true -> Grammar.no c (Str.take n s) = true.
Proof.
  intros H. destruct (take_prefix n s) as [q Hq]. rewrite Hq, no_app in H.
  now apply andb_true_iff in H as [H _].
Qed.

(** The three parts [s.partition(c)] returns. *)
Lemma partition_parts c s b found r :
  Str.partition c s = (b, found, r) ->
  Grammar.no c b = true
  /\ s = b ++ (if found then String c r else "")
  /\ (found = false -> r = "").
Proof.
  unfold Str.partition, Grammar.no.
  destruct (Str.span (fun a => negb (Ascii.eqb a c)) s) as [l q] eqn:E.
  pose proof (span_all _ _ E) as Ha. pose proof (span_eq _ _ E) as He.
  pose proof (span_stops _ _ E) as Hs.
  destruct q as [|a q]; intros H; inversion H; subst; repeat split; auto;
    try discriminate.
  simpl in Hs. apply negb_false_iff, Ascii.eqb_eq in Hs. now subst a.
Qed.

Lemma no_partition_parts x c s b found r :
  Str.partition c s = (b, found, r) -> Grammar.no x s = true ->
  Grammar.no x b = true /\ Grammar.no x r = true.
Proof.
  intros P H. destruct (@partition_parts _ _ _ _ _ P) as (_ & E & Hf).
  rewrite E, no_app in H. apply andb_true_iff in H as [Hb Hr]. split; [exact Hb|].
  destruct found; [|now rewrite Hf].
  unfold Grammar.no in Hr. simpl in Hr. now apply andb_true_iff in Hr as [_ Hr].
Qed.

Lemma split_last_segment_eq url h l :
  Url.split_last_segment url = (h, l) -> url = h ++ l.
Proof.
  revert h l; induction url as [|a t IH]; simpl; intros h l H.
  - now inversion H.
  - destruct (Str.mem "/" t).
    + destruct (Url.split_last_segment t) as [h' l'].
      inversion H; subst. simpl. f_equal. now apply IH.
    + destruct (Ascii.eqb a "/"); inversion H; reflexivity.
Qed.

Lemma no_splitparams x url :
  Grammar.no x url = true -> Grammar.no x (fst (Url.splitparams url)) = true.
Proof.
  intros H. unfold Url.splitparams. destruct (Str.mem "/" url).
  - destruct (Url.split_last_segment url) as [h l] eqn:S.
    pose proof (split_last_segment_eq _ S) as ->.
    rewrite no_app in H. apply andb_true_iff in H as [Hh Hl].
    destruct (Str.partition ";" l) as [[b found] r] eqn:P.
    destruct (@no_partition_parts x _ _ _ _ _ P Hl) as [Hb _].
    destruct found; simpl; rewrite no_app, ?Hh, ?Hb, ?Hl; reflexivity.
  - destruct (Str.partition ";" url) as [[b found] r] eqn:P.
    destruct (@no_partition_parts x _ _ _ _ _ P H) as [Hb _].
    destruct found; simpl; [exact Hb | now apply no_take].
Qed.

(** The path [urlsplit] returns holds neither [?] nor [#], the query
    no [#]. *)
Lemma urlsplit_parts u sp :
  Url.urlsplit u = Ok sp ->
  Grammar.no "?" (Url.s_path sp) = true
  /\ Grammar.no "#" (Url.s_path sp) = true
  /\ Grammar.no "#" (Url.s_query sp) = true.
Proof.
  unfold Url.urlsplit.
  lazymatch goal with
  | |- match ?m with (_, _) => _ end = _ -> _ => destruct m as [scheme url]
  end.
  assert (G : forall netloc url0,
    (let '(url1, fragment) :=
       match Str.partition "#" url0 with
       | (before, true, rest) => (before, rest)
       | (_, false, _) => (url0, "")
       end in
     let '(url2, query) :=
       match Str.partition "?" url1 with
       | (before, true, rest) => (before, rest)
       | (_, false, _) => (url1, "")
       end in
     _ <- Url.checknetloc netloc ;;
     Ok {| Url.s_scheme := scheme; Url.s_netloc := netloc; Url.s_path := url2;
           Url.s_query := query; Url.s_fragment := fragment |}) = Ok sp ->
    Grammar.no "?" (Url.s_path sp) = true
    /\ Grammar.no "#" (Url.s_path sp) = true
    /\ Grammar.no "#" (Url.s_query sp) = true).
  { intros netloc url0.
    destruct (Str.partition "#" url0) as [[b1 f1] r1] eqn:P1.
    destruct (@partition_parts _ _ _ _ _ P1) as (N1 & E1 & _).
    assert (N1' : Grammar.no "#" (if f1 then b1 else url0) = true).
    { destruct f1; [exact N1|]. rewrite E1, app_empty_r. exact N1. }
    set (u1 := if f1 then b1 else url0) in *.
    destruct (Str.partition "?" u1) as [[b2 f2] r2] eqn:P2.
    destruct (@partition_parts _ _ _ _ _ P2) as (N2 & E2 & _).
    destruct (@no_partition_parts "#" _ _ _ _ _ P2 N1') as [N3 N4].
    assert (Q1 : Grammar.no "?" (if f2 then b2 else u1) = true).
    { destruct f2; [exact N2|]. rewrite E2, app_empty_r. exact N2. }
    assert (Q2 : Grammar.no "#" (if f2 then b2 else u1) = true).
    { destruct f2; [exact N3 | exact N1']. }
    assert (Q3 : Grammar.no "#" (if f2 then r2 else "") = true).
    { destruct f2; [exact N4 | reflexivity]. }
    clear N1 E1 N2 E2 N3 N4 N1'.
    destruct f1; unfold u1 in *; rewrite P2; destruct f2;
      destruct (Url.checknetloc netloc) as [[]|e]; cbn [bind];
      intros H; inversion H; subst; simpl; auto. }
  destruct (Str.strip_prefix "//" url) as [tl|]; cbn [bind].
  - destruct (Url.splitnetloc tl) as [netloc url'].
    destruct (_ || _); [discriminate|].
    destruct (_ && _); [discriminate|].
    cbn [bind]. apply G.
  - apply G.
Qed.

Lemma urlparse_str_parts u r :
  Url.urlparse_str u = Ok r ->
  exists path query,
    Url.path r = VStr path /\ Url.query r = VStr query
    /\ Grammar.no "?" path = true /\ Grammar.no "#" path = true
    /\ Grammar.no "#" query = true.
Proof.
  unfold Url.urlparse_str. destruct (Url.urlsplit u) as [sp|e] eqn:U;
    [|discriminate].
  destruct (urlsplit_parts _ U) as (N1 & N2 & N3). cbn [bind].
  destruct (_ && _).
  - pose proof (no_splitparams "?" _ N1) as M1.
    pose proof (no_splitparams "#" _ N2) as M2.
    destruct (Url.splitparams (Url.s_path sp)) as [p params]. simpl in M1, M2.
    intros H; inversion H; simpl. eauto 10.
  - intros H; inversion H; simpl. eauto 10.
Qed.

End UrlParts.

(** X2: in every record [parse_log_line] returns, the [url] field holds
    neither [?] nor [#], and the [query_parameters] field holds no [#]:
    the query string and the fragment never stay in the path. *)
Theorem record_url_is_bare line d :
  parse_log_line line = Ok (Some d) ->
  exists path query,
    dict_get d "url" = Some (VStr path)
    /\ dict_get d "query_parameters" = Some (VStr query)
    /\ Grammar.no "?" path = true /\ Grammar.no "#" path = true
    /\ Grammar.no "#" query = true.
Proof.
  intros H. destruct (Re.re_match log_pattern line) as [m|] eqn:M.
  - destruct (re_match_sound _ M) as (f & W & E & R & G).
    rewrite (parse_matched _ M G) in H.
    destruct (Url.urlparse_str (Grammar.target f)) as [r|e] eqn:U;
      [|discriminate].
    destruct (urlparse_str_parts _ U) as (p & q & Hp & Hq & N1 & N2 & N3).
    simpl in H. inversion H; subst d. rewrite Hp, Hq.
    exists p, q. simpl. auto.
  - unfold parse_log_line in H. rewrite M in H. discriminate.
Qed.

Lemma record_url_is_bare_witness :
  exists path query,
    dict_get (Grammar.record (Sample.with_target "/a?b?c#d?e") "/a" "b?c")
             "url" = Some (VStr path)
    /\ dict_get (Grammar.record (Sample.with_target "/a?b?c#d?e") "/a" "b?c")
                "query_parameters" = Some (VStr query)
    /\ Grammar.no "?" path = true /\ Grammar.no "#" path = true
    /\ Grammar.no "#" query = true.
Proof.
  apply (@record_url_is_bare
           (Grammar.render (Sample.with_target "/a?b?c#d?e") "")).
  vm_compute. reflexivity.
Defined.

(** ** When [parse_log_line] raises *)

Section Raising.

Lemma no_lstrip c p s : Grammar.no c s = true -> Grammar.no c (Url.lstrip p s) = true.
Proof.
  intros H. unfold Url.lstrip. destruct (Str.span p s) as [r q] eqn:E.
  rewrite (span_eq _ _ E), no_app in H. simpl.
  now apply andb_true_iff in H as [_ H].
Qed.

Lemma no_remove c p s : Grammar.no c s = true -> Grammar.no c (Url.remove p s) = true.
Proof.
  unfold Grammar.no. induction s as [|a s IH]; simpl; [reflexivity|].
  intros H. apply andb_true_iff in H as [Ha H].
  destruct (p a); simpl; [auto | now rewrite Ha, IH].
Qed.

Lemma no_strip_prefix c l s q :
  Str.strip_prefix l s = Some q -> Grammar.no c s = true -> Grammar.no c q = true.
Proof.
  intros E H. rewrite (strip_prefix_eq _ _ E), no_app in H.
  now apply andb_true_iff in H as [_ H].
Qed.

Lemma no_span_fst c p s : Grammar.no c s = true -> Grammar.no c (fst (Str.span p s)) = true.
Proof.
  intros H. destruct (Str.span p s) as [r q] eqn:E.
  rewrite (span_eq _ _ E), no_app in H. simpl.
  now apply andb_true_iff in H as [H _].
Qed.

(** [urlsplit] raises only on a text that holds a bracket. *)
Lemma urlsplit_without_bracket u :
  Grammar.no "[" u = true -> Grammar.no "]" u = true ->
  exists sp, Url.urlsplit u = Ok sp.
Proof.
  intros HL HR. unfold Url.urlsplit.
  set (u1 := Url.remove Url.unsafe_byte (Url.lstrip Url.c0_control_or_space u)).
  assert (L1 : Grammar.no "[" u1 = true) by now apply no_remove, no_lstrip.
  assert (R1 : Grammar.no "]" u1 = true) by now apply no_remove, no_lstrip.
  assert (S : exists scheme url,
    match Str.partition ":" u1 with
    | (String a0 before, true, rest) =>
        if Url.is_ascii_alpha a0 && Str.all Url.scheme_char (String a0 before)
        then (Str.lowercase (String a0 before), rest)
        else (EmptyString, u1)
    | _ => (EmptyString, u1)
    end = (scheme, url)
    /\ Grammar.no "[" url = true /\ Grammar.no "]" url = true).
  { destruct (Str.partition ":" u1) as [[b found] r] eqn:P.
    destruct (@no_partition_parts "[" _ _ _ _ _ P L1) as [_ L2].
    destruct (@no_partition_parts "]" _ _ _ _ _ P R1) as [_ R2].
    destruct b as [|a0 b]; [eauto|]. destruct found; [|eauto].
    destruct (_ && _); eauto. }
  destruct S as (scheme & url & -> & L2 & R2).
  destruct (Str.strip_prefix "//" url) as [tl|] eqn:P; cbn [bind].
  - pose proof (no_strip_prefix "[" _ _ P L2) as L3.
    pose proof (no_strip_prefix "]" _ _ P R2) as R3.
    unfold Url.splitnetloc.
    pose proof (no_span_fst "[" (fun a => negb (Str.mem a "/?#")) _ L3) as L4.
    pose proof (no_span_fst "]" (fun a => negb (Str.mem a "/?#")) _ R3) as R4.
    destruct (Str.span (fun a => negb (Str.mem a "/?#")) tl)
      as [netloc url'] eqn:Sp.
    simpl in L4, R4. rewrite (mem_no _ _ L4), (mem_no _ _ R4). simpl.
    assert (C : Url.checknetloc netloc = Ok tt).
    { apply checknetloc_ok. apply span_all in Sp. revert Sp.
      apply all_impl. intros a Ha.
      destruct (Ascii.eqb_spec a "/") as [->|]; [discriminate Ha|reflexivity]. }
    rewrite C.
    destruct (Str.partition "#" url') as [[b1 f1] r1]; destruct f1;
      destruct (Str.partition "?" _) as [[b2 f2] r2]; destruct f2;
      cbn [bind]; eauto.
  - change (Url.checknetloc "") with (Ok tt).
    destruct (Str.partition "#" url) as [[b1 f1] r1]; destruct f1;
      destruct (Str.partition "?" _) as [[b2 f2] r2]; destruct f2;
      cbn [bind]; eauto.
Qed.

Lemma parse_raises line e :
  parse_log_line line = Raise e ->
  e = ValueError /\ accepted line = true.
Proof.
  intros H. unfold accepted.
  destruct (Re.re_match log_pattern line) as [m|] eqn:M.
  - destruct (re_match_sound _ M) as (f & W & E & R & G).
    rewrite (parse_matched _ M G) in H.
    destruct (Url.urlparse_str (Grammar.target f)) as [r|e'] eqn:U;
      [discriminate|].
    cbn [bind] in H. inversion H; subst. split; [|reflexivity].
    exact (urlparse_str_raises _ U).
  - unfold parse_log_line in H. rewrite M in H. discriminate.
Qed.

Lemma for_lines_raised lines parsed_logs e :
  for_lines lines parsed_logs = Raise e ->
  exists line, In line lines /\ parse_log_line line = Raise e.
Proof.
  revert parsed_logs; induction lines as [|l lines IH]; intros acc; simpl.
  - discriminate.
  - destruct (parse_log_line l) as [[d|]|e'] eqn:P; cbn [bind].
    + destruct (truthy (Some d)); intros H; apply IH in H as (x & Hx & Hp);
        eauto.
    + intros H; apply IH in H as (x & Hx & Hp); eauto.
    + intros H; inversion H; subst. eauto.
Qed.

Lemma forallb_false_exists {A : Type} (p : A -> bool) l :
  forallb p l = false -> exists x, In x l /\ p x = false.
Proof.
  induction l as [|a l IH]; simpl; [discriminate|].
  destruct (p a) eqn:E; simpl; [|eauto].
  intros H. destruct (IH H) as (x & Hx & Hp). eauto.
Qed.

(** What [read_log_file] returns, when it returns. *)
Lemma read_log_file_returns content rows :
  read_log_file content = Ok rows ->
  forallb (fun l => negb (raises l)) (file_lines content) = true
  /\ rows = parsed_records (file_lines content).
Proof.
  unfold read_log_file. intros H.
  destruct (forallb (fun l => negb (raises l)) (file_lines content)) eqn:E.
  - rewrite (for_lines_ok _ [] E) in H. inversion H. auto.
  - destruct (for_lines_raise _ [] E) as [e He]. congruence.
Qed.

End Raising.

(** X3: on lines of characters up to U+00FF, the text this development
    covers, a request target without brackets never makes
    [parse_log_line] raise: every line of the grammar whose target holds
    neither ['['] nor [']'] gets a record. The check [urlsplit] makes on
    the normal form of the host lets every host of this range pass
    ([checknetloc_ok]); it is there for characters beyond it, such as
    U+2100. *)
Theorem bracket_free_target_parses f tail :
  Grammar.well_formed f = true -> Grammar.line_end tail = true ->
  Grammar.no "[" (Grammar.target f) = true ->
  Grammar.no "]" (Grammar.target f) = true ->
  exists path query,
    parse_log_line (Grammar.render f tail)
    = Ok (Some (Grammar.record f path query)).
Proof.
  intros W E HL HR. rewrite (parse_complete _ _ W E).
  destruct (urlsplit_without_bracket _ HL HR) as [sp U].
  assert (U' : exists r, Url.urlparse_str (Grammar.target f) = Ok r).
  { unfold Url.urlparse_str. rewrite U. cbn [bind].
    destruct (_ && _); [destruct (Url.splitparams _)|]; eauto. }
  destruct U' as [r Hr]. rewrite Hr. cbn [bind].
  destruct (urlparse_str_text _ Hr) as (p & q & -> & ->). now exists p, q.
Qed.

Lemma bracket_free_target_parses_witness :
  exists path query,
    parse_log_line (Grammar.render (Sample.with_target "//h:80/p;x?q#f") Str.nl)
    = Ok (Some (Grammar.record (Sample.with_target "//h:80/p;x?q#f") path query)).
Proof.
  apply bracket_free_target_parses; reflexivity.
Defined.

(** X4: the ways [read_log_file] fails. It raises [OSError] when the
    file cannot be opened; the [ValueError] of [urlparse] when
    [parse_log_line] raises on a line the file hands over, a line that
    matches the grammar, and then whatever comes after that line; and, when
    no line handed over raises, the [UnicodeDecodeError] or [OSError] with
    which the file object stops. It returns rows in no other case than a
    file read to its end without a raising line. On a file that opens and
    decodes in full it is the loop over the lines of the text. *)
Theorem collector_failure (f : Io.file) :
  (forall e, Io.read_log_file f = Raise e ->
     (f = Io.Missing /\ e = OSError)
     \/ (e = ValueError
         /\ exists line, In line (Io.lines f)
                         /\ Grammar.matches line
                         /\ parse_log_line line = Raise ValueError)
     \/ (exists ls,
            forallb (fun l => negb (raises l)) ls = true
            /\ (f = Io.Stream ls Io.DecodeFails /\ e = UnicodeDecodeError
                \/ f = Io.Stream ls Io.ReadFails /\ e = OSError)))
  /\ (forall line, In line (Io.lines f) ->
        parse_log_line line = Raise ValueError ->
        Io.read_log_file f = Raise ValueError)
  /\ (forall rows, Io.read_log_file f = Ok rows ->
        exists ls, f = Io.Stream ls Io.Eof
                   /\ forallb (fun l => negb (raises l)) ls = true
                   /\ rows = parsed_records ls)
  /\ (forall content,
        Io.read_log_file (Io.text_file content) = read_log_file content).
Proof.
  split; [|split; [|split]].
  - intros e H. destruct f as [|ls en]; cbn [Io.read_log_file] in H.
    + left. inversion H. auto.
    + right.
      destruct (forallb (fun l => negb (raises l)) ls) eqn:E.
      * right. exists ls. split; [exact E|].
        rewrite (for_lines_ok _ [] E) in H. cbn [bind] in H.
        destruct en; inversion H; auto.
      * left. destruct (for_lines_raise _ [] E) as [e' He].
        rewrite He in H. cbn [bind] in H. inversion H; subst e'.
        apply for_lines_raised in He as (line & Hin & Hp).
        destruct (parse_raises _ Hp) as [-> A].
        split; [reflexivity|]. exists line. split; [exact Hin|].
        split; [now apply accepted_matches | exact Hp].
  - intros line Hin Hp. destruct f as [|ls en]; [contradiction|].
    cbn [Io.lines] in Hin. cbn [Io.read_log_file].
    destruct (forallb (fun l => negb (raises l)) ls) eqn:E.
    + rewrite forallb_forall in E. specialize (E line Hin).
      unfold raises in E. rewrite Hp in E. discriminate.
    + destruct (for_lines_raise _ [] E) as [e He].
      pose proof He as He'. apply for_lines_raised in He' as (l & _ & Hl).
      destruct (parse_raises _ Hl) as [-> _]. now rewrite He.
  - intros rows H. destruct f as [|ls en]; [discriminate H|].
    cbn [Io.read_log_file] in H.
    destruct (forallb (fun l => negb (raises l)) ls) eqn:E.
    + rewrite (for_lines_ok _ [] E) in H. cbn [bind] in H.
      destruct en; inversion H. exists ls. auto.
    + destruct (for_lines_raise _ [] E) as [e He].
      rewrite He in H. discriminate H.
  - intros content. unfold Io.text_file, read_log_file.
    cbn [Io.read_log_file]. now destruct (for_lines _ _).
Qed.

Lemma collector_failure_witness :
  Io.read_log_file
    (Io.Stream [Sample.line ++ Str.nl;
                Grammar.render (Sample.with_target "//[") Str.nl]
               Io.DecodeFails)
  = Raise ValueError.
Proof.
  apply (proj1 (proj2 (collector_failure _))
               (Grammar.render (Sample.with_target "//[") Str.nl)).
  - right. left. reflexivity.
  - reflexivity.
Defined.

Example undecodable_file :
  Io.read_log_file (Io.Stream [Sample.line ++ Str.nl] Io.DecodeFails)
  = Raise UnicodeDecodeError.
Proof. reflexivity. Qed.

(** X5: a file without a matching line, the empty file among them, gives
    no record, and step 3 then stops with [KeyError] on the [timestamp]
    column before any coercion, whatever the timestamp parser. *)
Theorem no_matching_line_key_error strptime content :
  forallb (fun l => negb (accepted l)) (file_lines content) = true ->
  read_log_file content = Ok []
  /\ step3 strptime content = Raise (KeyError "timestamp").
Proof.
  intros H.
  assert (R : forall acc, for_lines (file_lines content) acc = Ok acc).
  { induction (file_lines content) as [|l lines IH]; intros acc; simpl;
      [reflexivity|].
    simpl in H. apply andb_true_iff in H as [Hl H].
    apply negb_true_iff in Hl. rewrite (not_accepted_none _ Hl). cbn [bind].
    now apply IH. }
  unfold step3, read_log_file. rewrite R. split; reflexivity.
Qed.

Lemma no_matching_line_key_error_witness :
  read_log_file (Sample.malformed ++ Str.nl ++ Sample.missing_quote) = Ok []
  /\ step3 Layout.strptime (Sample.malformed ++ Str.nl ++ Sample.missing_quote)
     = Raise (KeyError "timestamp").
Proof.
  apply no_matching_line_key_error. reflexivity.
Defined.


(** X6: the coercion stage neither drops nor adds a row: when step 3
    succeeds, every column of the final row set has as many cells as the
    file has lines that match the grammar, and there is at least one. *)
Theorem coercion_keeps_every_row strptime content df :
  step3 strptime content = Ok df ->
  let n := List.length (filter accepted (file_lines content)) in
  1 <= n /\ Forall (fun column => List.length (snd column) = n) df.
Proof.
  intros H n. apply step3_ok in H as (rows & R & Hn & HR & _ & ->).
  apply read_log_file_returns in R as [NR ->].
  pose proof (Forall2_length (parsed_records_accepted _ NR)) as HL.
  fold n in HL. split.
  - rewrite HL. destruct (parsed_records (file_lines content));
      [congruence | simpl; lia].
  - unfold final_frame, text_column.
    repeat constructor; simpl; now rewrite length_map.
Qed.

Lemma coercion_keeps_every_row_witness :
  1 <= List.length (filter accepted (file_lines Sample.two_requests))
  /\ Forall (fun column =>
               List.length (snd column)
               = List.length (filter accepted (file_lines Sample.two_requests)))
            (final_frame Layout.strptime
               (parsed_records (file_lines Sample.two_requests))).
Proof.
  apply (@coercion_keeps_every_row Layout.strptime Sample.two_requests).
  vm_compute. reflexivity.
Defined.

(** ** Lines of a file *)

Section Lines.

Lemma last_cons a b t : Str.last (String a (String b t)) = Str.last (String b t).
Proof. reflexivity. Qed.

(** Translating the line ends of a text that ends with a newline, and of
    what follows it, one after the other. *)
Lemma universal_newlines_app_le n c1 c2 :
  String.length c1 <= n -> Str.last c1 = Some Str.newline ->
  universal_newlines (c1 ++ c2) = universal_newlines c1 ++ universal_newlines c2
  /\ Str.last (universal_newlines c1) = Some Str.newline.
Proof.
  revert c1; induction n as [|n IH]; intros c1 Hn HL.
  - destruct c1; [discriminate | simpl in Hn; lia].
  - destruct c1 as [|a t]; [discriminate|].
    simpl in Hn. cbn [append universal_newlines].
    destruct (Ascii.eqb a Str.carriage_return) eqn:Ea.
    + destruct t as [|b t'].
      * apply Ascii.eqb_eq in Ea. subst a. discriminate HL.
      * rewrite last_cons in HL. cbn [append].
        destruct (Ascii.eqb b Str.newline) eqn:Eb.
        -- destruct t' as [|c t''].
           ++ split; reflexivity.
           ++ rewrite last_cons in HL. simpl in Hn.
              destruct (IH (String c t'') ltac:(simpl; lia) HL) as [H1 H2].
              rewrite H1. split; [reflexivity|].
              destruct (universal_newlines (String c t'')); [discriminate|].
              exact H2.
        -- destruct (IH (String b t') ltac:(simpl in *; lia) HL) as [H1 H2].
           change (String b (t' ++ c2)) with (String b t' ++ c2).
           rewrite H1. split; [reflexivity|].
           destruct (universal_newlines (String b t')); [discriminate|].
           exact H2.
    + destruct t as [|b t'].
      * split; [reflexivity|]. exact HL.
      * rewrite last_cons in HL.
        destruct (IH (String b t') ltac:(simpl in *; lia) HL) as [H1 H2].
        rewrite H1. split; [reflexivity|].
        destruct (universal_newlines (String b t')); [discriminate|].
        exact H2.
Qed.

Lemma split_lines_app a b :
  Str.last a = Some Str.newline ->
  split_lines (a ++ b) = (split_lines a ++ split_lines b)%list.
Proof.
  induction a as [|x a IH]; [discriminate|].
  intros HL. cbn [append split_lines].
  destruct a as [|y a'].
  - inversion HL; subst. reflexivity.
  - rewrite last_cons in HL. specialize (IH HL).
    destruct (Ascii.eqb x Str.newline); rewrite IH; [reflexivity|].
    destruct (split_lines (String y a')) eqn:E; [|reflexivity].
    exfalso. simpl in E. destruct (Ascii.eqb y Str.newline); [discriminate|].
    destruct (split_lines a'); discriminate.
Qed.

Lemma file_lines_app c1 c2 :
  Str.last c1 = Some Str.newline ->
  file_lines (c1 ++ c2) = (file_lines c1 ++ file_lines c2)%list.
Proof.
  intros HL. unfold file_lines.
  destruct (@universal_newlines_app_le _ c1 c2 (Nat.le_refl _) HL) as [-> H].
  now apply split_lines_app.
Qed.

Lemma for_lines_from lines parsed_logs :
  for_lines lines parsed_logs
  = (rows <- for_lines lines [] ;; Ok (parsed_logs ++ rows)%list).
Proof.
  destruct (forallb (fun l => negb (raises l)) lines) eqn:E.
  - now rewrite !(for_lines_ok _ _ E).
  - assert (H : forall acc e, for_lines lines acc = Raise e ->
                  forall acc', for_lines lines acc' = Raise e).
    { clear. induction lines as [|l lines IH]; intros acc e; simpl;
        [discriminate|].
      destruct (parse_log_line l) as [[d|]|e'] eqn:P; cbn [bind]; eauto.
      destruct (truthy (Some d)); eauto. }
    destruct (for_lines_raise _ parsed_logs E) as [e He].
    now rewrite He, (H _ _ He []).
Qed.

Lemma for_lines_app l1 l2 parsed_logs :
  for_lines (l1 ++ l2) parsed_logs
  = (rows <- for_lines l1 parsed_logs ;; for_lines l2 rows).
Proof.
  revert parsed_logs; induction l1 as [|l l1 IH]; intros acc; simpl;
    [reflexivity|].
  destruct (parse_log_line l) as [[d|]|e]; cbn [bind]; auto.
  destruct (truthy (Some d)); auto.
Qed.

Lemma concat_split_lines s : fold_right append "" (split_lines s) = s.
Proof.
  induction s as [|a s IH]; simpl; [reflexivity|].
  destruct (Ascii.eqb a Str.newline).
  - simpl. now rewrite IH.
  - destruct (split_lines s) as [|l ls]; simpl in *; now rewrite <- IH.
Qed.



(** A text without newline is one line, or none when it is empty. *)
Lemma split_lines_last s :
  Grammar.no Str.newline s = true ->
  split_lines s = if Str.nonempty s then [s] else [].
Proof.
  unfold Grammar.no. induction s as [|a t IH]; [reflexivity|].
  cbn [Str.all split_lines Str.nonempty]. intros H.
  apply andb_true_iff in H as [Ha H]. apply negb_true_iff in Ha.
  rewrite Ha, (IH H). now destruct t.
Qed.

Lemma split_lines_body b :
  Grammar.no Str.newline b = true ->
  split_lines (b ++ Str.nl) = [b ++ Str.nl].
Proof.
  unfold Grammar.no. induction b as [|a t IH]; [reflexivity|].
  cbn [Str.all split_lines append]. intros H.
  apply andb_true_iff in H as [Ha H]. apply negb_true_iff in Ha.
  now rewrite Ha, (IH H).
Qed.

Lemma last_body b : Str.last (b ++ Str.nl) = Some Str.newline.
Proof.
  induction b as [|a t IH]; [reflexivity|].
  cbn [append]. destruct (t ++ Str.nl) eqn:E; [now destruct t|].
  now rewrite last_cons.
Qed.

(** The lines of a text are its bodies, each with its newline, and its
    final line. *)
Lemma split_lines_text bodies last :
  Forall (fun b => Grammar.no Str.newline b = true) (last :: bodies) ->
  split_lines (text_of_lines bodies last) = lines_of bodies last.
Proof.
  intros H. inversion H as [|? ? Hl Hb]; subst. clear H.
  unfold lines_of. induction Hb as [|b bodies Hn Hb IH].
  - now apply split_lines_last.
  - cbn [text_of_lines fold_right map app].
    fold (text_of_lines bodies last).
    rewrite <- app_assoc, (@split_lines_app (b ++ Str.nl) _ (last_body b)).
    now rewrite (@split_lines_body b Hn), IH.
Qed.

(** Every text is made of bodies without newline in one way. *)
Lemma text_has_lines s :
  exists bodies last,
    Forall (fun b => Grammar.no Str.newline b = true) (last :: bodies)
    /\ s = text_of_lines bodies last.
Proof.
  induction s as [|a s (bodies & last & H & ->)].
  - exists [], "". split; [repeat constructor | reflexivity].
  - inversion H as [|? ? Hl Hb]; subst.
    destruct (Ascii.eqb a Str.newline) eqn:Ea.
    + apply Ascii.eqb_eq in Ea; subst a.
      exists ("" :: bodies), last. split; [|reflexivity].
      repeat constructor; assumption.
    + destruct bodies as [|b bodies].
      * exists [], (String a last). split; [|reflexivity].
        repeat constructor. unfold Grammar.no in *. cbn [Str.all].
        now rewrite Ea, Hl.
      * exists (String a b :: bodies), last. split; [|reflexivity].
        inversion Hb; subst. repeat constructor; try assumption.
        unfold Grammar.no in *. cbn [Str.all].
        rewrite Ea. simpl. assumption.
Qed.

Lemma file_lines_text content bodies last :
  Forall (fun b => Grammar.no Str.newline b = true) (last :: bodies) ->
  universal_newlines content = text_of_lines bodies last ->
  file_lines content = lines_of bodies last.
Proof.
  intros H E. unfold file_lines. rewrite E. now apply split_lines_text.
Qed.

End Lines.

(** C4, as stated, fails: a file of two lines that match the grammar, the
    second with a target on which [urlparse] raises, gives no row set at
    all. *)
Lemma collector_order_refuted :
  ~ (forall bodies,
        Forall (fun b => Grammar.no Str.newline b = true) bodies ->
        exists rows,
          read_log_file (text_of_lines bodies "") = Ok rows
          /\ Forall2 (fun line row => parse_log_line line = Ok (Some row))
                     (filter accepted (lines_of bodies "")) rows).
Proof.
  intros H.
  destruct (H [Sample.line; Grammar.render (Sample.with_target "//[") ""])
    as (rows & R & _).
  - repeat constructor.
  - vm_compute in R. discriminate R.
Qed.

(** C4, amended: take any file, its text being made of the [bodies], each
    followed by a line end, and of a [last] line without one. When no
    line makes [parse_log_line] raise, the rows [read_log_file] returns
    are the records of the lines that match the grammar, one for one and
    in file order: row [i] is the record of the [i]-th matching line. When
    a line does (a matching line with a target [urlparse] refuses),
    [read_log_file] raises [ValueError] and returns no row. *)
Theorem collector_preserves_order content bodies last :
  Forall (fun b => Grammar.no Str.newline b = true) (last :: bodies) ->
  universal_newlines content = text_of_lines bodies last ->
  let lines := lines_of bodies last in
  let matching := filter accepted lines in
  (forall line, In line matching <-> In line lines /\ Grammar.matches line)
  /\ (forallb (fun l => negb (raises l)) lines = true ->
      exists rows,
        read_log_file content = Ok rows
        /\ Forall2 (fun line row => parse_log_line line = Ok (Some row))
                   matching rows
        /\ (forall i line, nth_error matching i = Some line ->
              exists row, nth_error rows i = Some row
                          /\ parse_log_line line = Ok (Some row)))
  /\ (forallb (fun l => negb (raises l)) lines = false ->
      read_log_file content = Raise ValueError).
Proof.
  intros HB HE lines matching.
  pose proof (@file_lines_text content bodies last HB HE) as FL.
  fold lines in FL.
  split; [|split].
  - intros line. unfold matching. rewrite filter_In, accepted_matches.
    reflexivity.
  - intros H. exists (parsed_records lines).
    pose proof (parsed_records_accepted _ H) as HF.
    split; [|split].
    + unfold read_log_file. rewrite FL. now rewrite (for_lines_ok _ [] H).
    + exact HF.
    + intros i line Hi. exact (Forall2_nth i HF Hi).
  - intros H. unfold read_log_file. rewrite FL.
    destruct (for_lines_raise _ [] H) as [e He].
    pose proof He as He'. apply for_lines_raised in He' as (l & _ & Hl).
    destruct (parse_raises _ Hl) as [-> _]. exact He.
Qed.

Lemma collector_preserves_order_witness :
  let bodies := [Sample.line; Sample.malformed;
                 Grammar.render (Sample.with_address_size "NULL" "-") ""] in
  let content :=
    Sample.line ++ Str.nl ++ Sample.malformed ++ Str.nl
    ++ Grammar.render (Sample.with_address_size "NULL" "-") Str.nl in
  let matching := filter accepted (lines_of bodies "") in
  (exists rows,
      read_log_file content = Ok rows
      /\ Forall2 (fun line row => parse_log_line line = Ok (Some row))
                 matching rows
      /\ (forall i line, nth_error matching i = Some line ->
            exists row, nth_error rows i = Some row
                        /\ parse_log_line line = Ok (Some row)))
  /\ read_log_file (Sample.line ++ Str.nl
                    ++ Grammar.render (Sample.with_target "//[") Str.nl)
     = Raise ValueError.
Proof.
  intros bodies content matching. split.
  - apply (proj1 (proj2 (@collector_preserves_order content bodies ""
                           ltac:(repeat constructor) eq_refl))).
    reflexivity.
  - apply (proj2 (proj2 (@collector_preserves_order
                           (Sample.line ++ Str.nl
                            ++ Grammar.render (Sample.with_target "//[") Str.nl)
                           [Sample.line;
                            Grammar.render (Sample.with_target "//[") ""] ""
                           ltac:(repeat constructor) eq_refl))).
    reflexivity.
Defined.

(** X7: the log files compose: when a first text ends with a newline,
    the rows of the two texts put end to end are the rows of the first
    followed by the rows of the second, and the whole raises as soon as
    one of them does. *)
Theorem collector_of_concatenation c1 c2 :
  Str.last c1 = Some Str.newline ->
  read_log_file (c1 ++ c2)
  = (rows1 <- read_log_file c1 ;;
     rows2 <- read_log_file c2 ;;
     Ok (rows1 ++ rows2)%list).
Proof.
  intros HL. unfold read_log_file.
  rewrite (@file_lines_app c1 c2 HL), for_lines_app.
  destruct (for_lines (file_lines c1) []) as [rows1|e]; cbn [bind];
    [|reflexivity].
  apply for_lines_from.
Qed.

Lemma collector_of_concatenation_witness :
  read_log_file ((Sample.line ++ Str.nl) ++ Sample.two_requests)
  = (rows1 <- read_log_file (Sample.line ++ Str.nl) ;;
     rows2 <- read_log_file Sample.two_requests ;;
     Ok (rows1 ++ rows2)%list).
Proof.
  apply collector_of_concatenation. vm_compute. reflexivity.
Defined.

(** X8: the reader hands every character of the text over exactly once,
    cut after each newline. The text of a file, its line ends translated,
    is made of bodies without newline, each followed by one newline, and of
    a last piece without newline; in whatever way it is written so, the
    lines are these bodies with their newlines, in order, followed by the
    last piece when it is not empty. So every line but the last ends with
    a newline, and no line is empty. *)
Theorem lines_partition_the_text content :
  (exists bodies last,
      Forall (fun b => Grammar.no Str.newline b = true) (last :: bodies)
      /\ universal_newlines content = text_of_lines bodies last)
  /\ (forall bodies last,
        Forall (fun b => Grammar.no Str.newline b = true) (last :: bodies) ->
        universal_newlines content = text_of_lines bodies last ->
        file_lines content = lines_of bodies last
        /\ fold_right append "" (file_lines content)
           = universal_newlines content).
Proof.
  split; [apply text_has_lines|].
  intros bodies last H E. split.
  - now apply file_lines_text.
  - apply concat_split_lines.
Qed.

Lemma lines_partition_the_text_witness :
  file_lines ("a" ++ Str.nl ++ Str.nl ++ "b") = ["a" ++ Str.nl; Str.nl; "b"]
  /\ fold_right append "" (file_lines ("a" ++ Str.nl ++ Str.nl ++ "b"))
     = universal_newlines ("a" ++ Str.nl ++ Str.nl ++ "b").
Proof.
  apply (proj2 (lines_partition_the_text ("a" ++ Str.nl ++ Str.nl ++ "b"))
               ["a"; ""] "b").
  - repeat constructor.
  - reflexivity.
Defined.


Example crlf_log_reads_like_lf_log :
  read_log_file (Sample.line ++ String Str.carriage_return Str.nl
                 ++ Sample.line ++ String Str.carriage_return "")
  = read_log_file (Sample.line ++ Str.nl ++ Sample.line ++ Str.nl).
Proof. reflexivity. Qed.

(** ** Sizes that are kept exactly *)


(** X10: a size below 2^53 bytes is kept exactly: for a size field made
    of digits whose number is below 2^53, the size of the final row set is
    the float equal to that number. *)
Theorem small_sizes_are_exact strptime content df :
  step3 strptime content = Ok df ->
  exists rows,
    read_log_file content = Ok rows
    /\ Pd.lookup df "size" = Some (map size_cell rows)
    /\ Forall (fun r =>
         let text := text_of "size" r in
         text <> "-" -> (Z.of_N (Str.decimal text 0) < 2 ^ 53)%Z ->
         exists f, size_cell r = CFloat f
                   /\ integer_value f = Some (Z.of_N (Str.decimal text 0)))
       rows.
Proof.
  intros H. apply step3_ok in H as (rows & R & _ & HR & _ & ->).
  exists rows. split; [exact R|]. split; [reflexivity|].
  apply Forall_forall. intros r _ text Hne Hlt.
  exists (size_value text). split; [reflexivity|].
  unfold size_value. apply String.eqb_neq in Hne. rewrite Hne.
  now apply float_of_N_exact.
Qed.

Lemma small_sizes_are_exact_witness :
  exists rows,
    read_log_file Sample.two_requests = Ok rows
    /\ Pd.lookup (final_frame Layout.strptime
                    (parsed_records (file_lines Sample.two_requests))) "size"
       = Some (map size_cell rows)
    /\ Forall (fun r =>
         let text := text_of "size" r in
         text <> "-" -> (Z.of_N (Str.decimal text 0) < 2 ^ 53)%Z ->
         exists f, size_cell r = CFloat f
                   /\ integer_value f = Some (Z.of_N (Str.decimal text 0)))
       rows.
Proof.
  apply (@small_sizes_are_exact Layout.strptime Sample.two_requests).
  vm_compute. reflexivity.
Defined.

(* ------------------------------------------------------------------ *)
(** ** Step 4: what the script sends to the server *)

Section DbScript.

Variable world : Type.
Variable connect :
  world -> option string -> option string -> option string
  -> world * option string.
Variable execute :
  world -> string -> list cell -> world * (list Db.row + string).
Variable commit : world -> world * option string.

Lemma inserted_app l1 l2 :
  Db.inserted (l1 ++ l2) = (Db.inserted l1 ++ Db.inserted l2)%list.
Proof. apply flat_map_app. Qed.

Lemma statements_app l1 l2 :
  Db.statements (l1 ++ l2) = (Db.statements l1 ++ Db.statements l2)%list.
Proof. apply flat_map_app. Qed.

Lemma committed_app l1 l2 :
  Db.committed (l1 ++ l2) = Db.committed l1 || Db.committed l2.
Proof. apply existsb_app. Qed.

Lemma bind_m_cases (A B : Type) (m : Db.M world A) (f : A -> Db.M world B) w :
  (exists a w1 l1,
      m w = (inl a, w1, l1)
      /\ Db.bind_m m f w
         = (Db.result_of (f a w1), snd (fst (f a w1)),
            (l1 ++ Db.log_of (f a w1))%list))
  \/ (exists s w1 l1,
         m w = (inr s, w1, l1) /\ Db.bind_m m f w = (inr s, w1, l1)).
Proof.
  unfold Db.bind_m, Db.result_of, Db.log_of.
  destruct (m w) as [[[a | s] w1] l1].
  - left. exists a, w1, l1. split; [reflexivity|].
    now destruct (f a w1) as [[r w2] l2].
  - right. now exists s, w1, l1.
Qed.

Ltac script_step :=
  match goal with
  | |- context [Db.config_get ?c ?k] =>
      destruct (Db.config_get c k) as [?|] eqn:?
  | |- context [connect ?w ?a ?b ?c] =>
      destruct (connect w a b c) as [? [?|]] eqn:?
  | |- context [execute ?w ?o ?p] =>
      destruct (execute w o p) as [? [?|?]] eqn:?
  | |- context [commit ?w] =>
      destruct (commit w) as [? [?|]] eqn:?
  | |- context [Db.row_in ?t ?r] =>
      destruct (Db.row_in t r) eqn:?
  end.

Ltac script_cases :=
  unfold Db.step4, Db.setup, Db.connect_db, Db.create_database,
    Db.use_database, Db.create_table, Db.commit_all, Db.bind_m, Db.item,
    Db.cursor_execute, Db.uncaught, Db.print, Db.raise, Db.ret,
    Db.result_of, Db.log_of;
  repeat (script_step; cbn).

(** Before the rows nothing is inserted and nothing is committed. *)
Lemma setup_quiet c w :
  Db.inserted (Db.log_of (Db.setup connect execute c w)) = []
  /\ Db.committed (Db.log_of (Db.setup connect execute c w)) = false.
Proof.
  script_cases; split; reflexivity.
Qed.

Lemma ending_of (l : list Db.event) a b earlier :
  rev l = b :: a :: earlier -> l = (rev earlier ++ [a; b])%list.
Proof.
  intros H. rewrite <- (rev_involutive l), H. cbn [rev].
  now rewrite <- List.app_assoc.
Qed.

(** The preparation exits only with status 1, and only after a [CREATE]
    statement whose failure it has just printed. *)
Lemma setup_exit c w s :
  Db.result_of (Db.setup connect execute c w) = inr (Db.Exit s) ->
  s = 1%Z
  /\ exists before stmt msg,
      Db.log_of (Db.setup connect execute c w)
      = (before ++ [Db.Execute stmt []; Db.Print msg])%list
      /\ Str.startswith "CREATE" stmt = true
      /\ Str.startswith "Failed creating " msg = true.
Proof.
  script_cases; intros H; try discriminate H;
    (split; [congruence|]);
    eexists; eexists; eexists;
    (split; [apply ending_of; cbn; reflexivity|]);
    split; reflexivity.
Qed.

(** With a name missing from the configuration no statement is sent. *)
Lemma setup_missing c w k :
  Db.first_missing c = Some k ->
  Db.statements (Db.log_of (Db.setup connect execute c w)) = []
  /\ (Db.result_of (Db.setup connect execute c w)
      = inr (Db.PyRaise (KeyError k))
      \/ k = "DB_NAME"
         /\ exists msg, Db.result_of (Db.setup connect execute c w)
                        = inr (Db.DbRaise msg)).
Proof.
  unfold Db.first_missing. cbn [find].
  script_cases; intros H; try discriminate H;
    (split; [reflexivity|]);
    first [ left; congruence
          | right; split; [congruence|]; eexists; reflexivity ].
Qed.

(** On a server that lists the database and the table the preparation
    sends no [CREATE]. *)
Lemma setup_keeps c w v :
  Db.config_get c "DB_NAME" = Some v ->
  (forall w0, exists w1 rows,
      execute w0 "SHOW DATABASES" [] = (w1, inl rows)
      /\ Db.row_in [Db.to_value v] rows = true) ->
  (forall w0, exists w1 rows,
      execute w0 "SHOW TABLES;" [] = (w1, inl rows)
      /\ Db.row_in [VStr "nginx_logs"] rows = true) ->
  Forall (fun stmt => Str.startswith "CREATE" stmt = false)
    (Db.statements (Db.log_of (Db.setup connect execute c w))).
Proof.
  intros Hv Hd Ht.
  unfold Db.setup, Db.connect_db, Db.create_database, Db.use_database,
    Db.create_table, Db.bind_m, Db.item, Db.cursor_execute, Db.uncaught,
    Db.print, Db.raise, Db.ret, Db.result_of, Db.log_of.
  rewrite Hv.
  repeat first
    [ match goal with
      | |- context [execute ?w0 "SHOW DATABASES" []] =>
          destruct (Hd w0) as (? & ? & -> & ->)
      | |- context [execute ?w0 "SHOW TABLES;" []] =>
          destruct (Ht w0) as (? & ? & -> & ->)
      end; cbn
    | script_step; cbn ];
    repeat constructor.
Qed.

(** The rows of the frame of step 3 are the records, cell by cell. *)
Lemma iterrows_final_frame strptime rows :
  Db.iterrows (final_frame strptime rows)
  = map (fun r => combine final_columns (Db.row_params strptime r)) rows.
Proof.
  unfold Db.iterrows, final_frame, Db.nrows, text_column.
  rewrite length_map. cbn [map fst snd].
  induction rows as [|r rows IH]; [reflexivity|].
  cbn [List.length seq map]. f_equal.
  rewrite <- seq_shift, map_map. exact IH.
Qed.

Lemma insert_rows_cons strptime r more w :
  Db.insert_rows execute
    (combine final_columns (Db.row_params strptime r) :: more) w
  = match execute w Db.insert_query (Db.row_params strptime r) with
    | (w1, inl _) =>
        (Db.result_of (Db.insert_rows execute more w1),
         snd (fst (Db.insert_rows execute more w1)),
         Db.Execute Db.insert_query (Db.row_params strptime r)
           :: Db.log_of (Db.insert_rows execute more w1))
    | (w1, inr msg) =>
        (inr (Db.DbRaise msg), w1,
         [Db.Execute Db.insert_query (Db.row_params strptime r)])
    end.
Proof.
  cbn [Db.insert_rows].
  unfold Db.bind_m, Db.cell_at, Db.cursor_execute, Db.uncaught, Db.raise,
    Db.ret, Db.result_of, Db.log_of.
  cbn [final_columns Db.row_params combine Db.series_get String.eqb
       Ascii.eqb Bool.eqb].
  cbn beta iota.
  destruct (execute w Db.insert_query (Db.row_params strptime r))
    as [w1 [answer|msg]] eqn:E; unfold Db.row_params in E; rewrite E;
    [|reflexivity].
  cbn [app].
  now destruct (Db.insert_rows execute more w1) as [[res w2] l].
Qed.

Lemma inserted_insert params l :
  Db.inserted (Db.Execute Db.insert_query params :: l)
  = params :: Db.inserted l.
Proof.
  unfold Db.inserted. cbn [flat_map]. now rewrite String.eqb_refl.
Qed.

(** The loop sends the rows in order and stops at the first failure. *)
Lemma insert_rows_log strptime rows w :
  exists k,
    k <= List.length rows
    /\ Db.inserted
         (Db.log_of
            (Db.insert_rows execute
               (map (fun r => combine final_columns
                                (Db.row_params strptime r)) rows) w))
       = map (Db.row_params strptime) (firstn k rows)
    /\ Db.committed
         (Db.log_of
            (Db.insert_rows execute
               (map (fun r => combine final_columns
                                (Db.row_params strptime r)) rows) w))
       = false
    /\ (forall u,
          Db.result_of
            (Db.insert_rows execute
               (map (fun r => combine final_columns
                                (Db.row_params strptime r)) rows) w)
          = inl u -> k = List.length rows)
    /\ (forall s,
          Db.result_of
            (Db.insert_rows execute
               (map (fun r => combine final_columns
                                (Db.row_params strptime r)) rows) w)
          <> inr (Db.Exit s)).
Proof.
  revert w. induction rows as [|r rows IH]; intros w.
  - exists 0. cbn. repeat split; auto. discriminate.
  - cbn [map]. rewrite insert_rows_cons.
    destruct (execute w Db.insert_query (Db.row_params strptime r))
      as [w1 [answer|msg]].
    + destruct (IH w1) as (k & Hk & Hi & Hc & Hr & He).
      exists (S k). unfold Db.result_of, Db.log_of in *. cbn [fst snd].
      rewrite inserted_insert, Hi.
      repeat split; cbn [List.length firstn map]; auto; try lia.
      intros u Hu. f_equal. eauto.
    + exists 1. unfold Db.result_of, Db.log_of. cbn [fst snd].
      rewrite inserted_insert.
      repeat split; cbn [List.length firstn map]; auto; try lia;
        try discriminate.
Qed.

(** Whatever the rows are, the loop sends nothing but [INSERT]s, commits
    nothing and never exits. *)
Lemma insert_rows_any rows w :
  Db.committed (Db.log_of (Db.insert_rows execute rows w)) = false
  /\ Forall (fun stmt => stmt = Db.insert_query)
       (Db.statements (Db.log_of (Db.insert_rows execute rows w)))
  /\ (forall s,
        Db.result_of (Db.insert_rows execute rows w) <> inr (Db.Exit s)).
Proof.
  revert w. induction rows as [|r more IH]; intros w.
  - cbn. repeat split; auto. discriminate.
  - cbn [Db.insert_rows].
    unfold Db.bind_m, Db.cell_at, Db.cursor_execute, Db.uncaught, Db.raise,
      Db.ret, Db.result_of, Db.log_of in *.
    repeat (match goal with
            | |- context [Db.series_get ?s ?k] =>
                destruct (Db.series_get s k)
            end; cbn);
      try (repeat split; [constructor | discriminate]).
    match goal with
    | |- context [execute ?w0 ?o ?p] =>
        destruct (execute w0 o p) as [w1 [answer|msg]]
    end; cbn.
    + specialize (IH w1).
      destruct (Db.insert_rows execute more w1) as [[res w2] l].
      cbn in *. destruct IH as (Hc & Hs & He).
      repeat split; auto.
    + repeat split; auto. discriminate.
Qed.

(** The three ways step 4 can go: the preparation stops, the loop stops,
    or the commit is reached. *)
Lemma step4_cases c df w :
  (exists s,
      Db.result_of (Db.setup connect execute c w) = inr s
      /\ Db.result_of (Db.step4 connect execute commit c df w) = inr s
      /\ Db.log_of (Db.step4 connect execute commit c df w)
         = Db.log_of (Db.setup connect execute c w))
  \/ (exists w1,
         Db.result_of (Db.setup connect execute c w) = inl tt
         /\ ((exists s,
                 Db.result_of (Db.insert_rows execute (Db.iterrows df) w1)
                 = inr s
                 /\ Db.result_of (Db.step4 connect execute commit c df w)
                    = inr s
                 /\ Db.log_of (Db.step4 connect execute commit c df w)
                    = (Db.log_of (Db.setup connect execute c w)
                       ++ Db.log_of
                            (Db.insert_rows execute (Db.iterrows df) w1))%list)
             \/ (Db.result_of (Db.insert_rows execute (Db.iterrows df) w1)
                 = inl tt
                 /\ (forall s,
                        Db.result_of
                          (Db.step4 connect execute commit c df w)
                        <> inr (Db.Exit s))
                 /\ Db.log_of (Db.step4 connect execute commit c df w)
                    = (Db.log_of (Db.setup connect execute c w)
                       ++ Db.log_of
                            (Db.insert_rows execute (Db.iterrows df) w1)
                       ++ [Db.Commit])%list
                 /\ exists w2,
                     Db.result_of (Db.step4 connect execute commit c df w)
                     = match snd (commit w2) with
                       | None => inl tt
                       | Some msg => inr (Db.DbRaise msg)
                       end))).
Proof.
  unfold Db.step4.
  unfold Db.bind_m, Db.result_of, Db.log_of.
  destruct (Db.setup connect execute c w) as [[[[] | s] w1] l1]; cbn [fst snd].
  - right. exists w1. split; [reflexivity|].
    destruct (Db.insert_rows execute (Db.iterrows df) w1)
      as [[[[] | s] w2] l2]; cbn [fst snd].
    + right. split; [reflexivity|]. unfold Db.commit_all.
      destruct (commit w2) as [w3 [msg|]] eqn:E; cbn [fst snd];
        (split; [discriminate|]); (split; [reflexivity|]);
        exists w2; now rewrite E.
    + left. exists s. repeat split.
  - left. exists s. repeat split.
Qed.

(** With the four names configured and a server that refuses nothing the
    preparation ends normally. *)
Lemma setup_succeeds c w :
  Db.first_missing c = None ->
  (forall w0 host user password,
      snd (connect w0 host user password) = None) ->
  (forall w0 stmt params,
      exists rows, snd (execute w0 stmt params) = inl rows) ->
  Db.result_of (Db.setup connect execute c w) = inl tt.
Proof.
  intros H Hcon Hex. revert H. unfold Db.first_missing. cbn [find].
  script_cases; intros H; try discriminate H; try reflexivity; exfalso;
    match goal with
    | E : connect ?w0 ?a ?b ?d = (_, Some _) |- _ =>
        pose proof (Hcon w0 a b d) as X; rewrite E in X; discriminate X
    | E : execute ?w0 ?o ?p = (_, inr _) |- _ =>
        destruct (Hex w0 o p) as [rows X]; rewrite E in X; discriminate X
    end.
Qed.

Lemma insert_rows_succeeds strptime rows w :
  (forall w0 stmt params,
      exists answer, snd (execute w0 stmt params) = inl answer) ->
  Db.result_of
    (Db.insert_rows execute
       (map (fun r => combine final_columns (Db.row_params strptime r))
            rows) w)
  = inl tt.
Proof.
  intros Hex. revert w. induction rows as [|r rows IH]; intros w.
  - reflexivity.
  - cbn [map]. rewrite insert_rows_cons.
    destruct (Hex w Db.insert_query (Db.row_params strptime r)) as [a X].
    destruct (execute w Db.insert_query (Db.row_params strptime r))
      as [w1 [answer|msg]]; [|discriminate X].
    unfold Db.result_of at 1. cbn [fst]. apply IH.
Qed.

End DbScript.

(** X11: when step 3 has produced the frame, the [INSERT]s step 4 sends
    carry the cells of the records read from the file, one statement for
    one record, in the order of the file and without gaps: what is sent is
    always an initial part of the records. Every statement carries as many
    values as the [INSERT] has marks. A run that ends normally has called
    [commit]; [commit] is called only after all the records were sent, once,
    as the last thing the step does. *)
Theorem rows_are_inserted_in_order
  (world : Type)
  (connect : world -> option string -> option string -> option string
             -> world * option string)
  (execute : world -> string -> list cell -> world * (list Db.row + string))
  (commit : world -> world * option string)
  strptime content df c w :
  step3 strptime content = Ok df ->
  let run := Db.step4 connect execute commit c df w in
  exists rows k,
    read_log_file content = Ok rows
    /\ k <= List.length rows
    /\ Db.inserted (Db.log_of run)
       = map (Db.row_params strptime) (firstn k rows)
    /\ Forall (fun params =>
                 List.length params = Db.placeholders Db.insert_query)
         (Db.inserted (Db.log_of run))
    /\ (Db.result_of run = inl tt -> Db.committed (Db.log_of run) = true)
    /\ (Db.committed (Db.log_of run) = true ->
        k = List.length rows
        /\ exists before,
            Db.log_of run = (before ++ [Db.Commit])%list
            /\ Db.committed before = false).
Proof.
  intros H run. apply step3_ok in H as (rows & R & _ & _ & _ & ->).
  exists rows.
  assert (HF : forall k,
             Forall (fun params =>
                       List.length params = Db.placeholders Db.insert_query)
               (map (Db.row_params strptime) (firstn k rows))).
  { intros k. apply Forall_forall. intros ps Hin.
    apply in_map_iff in Hin as (r & <- & _). reflexivity. }
  destruct (setup_quiet connect execute c w) as [Qi Qc].
  destruct (step4_cases connect execute commit c
              (final_frame strptime rows) w)
    as [(s & Hs & Hr & Hl) | (w1 & Hs & Hcase)].
  - exists 0. fold run in Hr, Hl. rewrite Hl, Qi, Qc.
    repeat split; auto; try lia; try discriminate.
    rewrite Hr. discriminate.
  - rewrite iterrows_final_frame in Hcase.
    destruct (insert_rows_log execute strptime rows w1)
      as (k & Hk & Hi & Hc & Hall & _).
    destruct Hcase as [(s & Hs2 & Hr & Hl) | (Hs2 & _ & Hl & _)];
      fold run in Hl; exists k; rewrite Hl.
    + fold run in Hr. rewrite inserted_app, committed_app, Qi, Qc, Hi, Hc.
      cbn [app orb].
      repeat split; auto; try discriminate.
      rewrite Hr. discriminate.
    + rewrite !inserted_app, !committed_app, Qi, Qc, Hi, Hc.
      cbn [app orb Db.inserted flat_map Db.committed existsb].
      rewrite List.app_nil_r.
      repeat split; eauto.
      eexists. rewrite List.app_assoc. split; [reflexivity|].
      now rewrite committed_app, Qc, Hc.
Qed.

Lemma rows_are_inserted_in_order_witness :
  let run := Db.step4 Db.Toy.connect Db.Toy.fresh Db.Toy.commit Db.Toy.env
               (final_frame Layout.strptime
                  (parsed_records (file_lines Sample.two_requests))) [] in
  exists rows k,
    read_log_file Sample.two_requests = Ok rows
    /\ k <= List.length rows
    /\ Db.inserted (Db.log_of run)
       = map (Db.row_params Layout.strptime) (firstn k rows)
    /\ Forall (fun params =>
                 List.length params = Db.placeholders Db.insert_query)
         (Db.inserted (Db.log_of run))
    /\ (Db.result_of run = inl tt -> Db.committed (Db.log_of run) = true)
    /\ (Db.committed (Db.log_of run) = true ->
        k = List.length rows
        /\ exists before,
            Db.log_of run = (before ++ [Db.Commit])%list
            /\ Db.committed before = false).
Proof.
  apply (@rows_are_inserted_in_order _ Db.Toy.connect Db.Toy.fresh
           Db.Toy.commit Layout.strptime Sample.two_requests).
  vm_compute. reflexivity.
Defined.

(** X12: step 4 exits only with status 1, and only when the last things
    it did were to send a [CREATE] statement and to print that it failed;
    it has then sent no [INSERT] and has not called [commit]. *)
Theorem exit_only_after_failed_create
  (world : Type)
  (connect : world -> option string -> option string -> option string
             -> world * option string)
  (execute : world -> string -> list cell -> world * (list Db.row + string))
  (commit : world -> world * option string)
  c df w status :
  let run := Db.step4 connect execute commit c df w in
  Db.result_of run = inr (Db.Exit status) ->
  status = 1%Z
  /\ Db.inserted (Db.log_of run) = []
  /\ Db.committed (Db.log_of run) = false
  /\ exists before stmt msg,
      Db.log_of run = (before ++ [Db.Execute stmt []; Db.Print msg])%list
      /\ Str.startswith "CREATE" stmt = true
      /\ Str.startswith "Failed creating " msg = true.
Proof.
  intros run H.
  destruct (step4_cases connect execute commit c df w)
    as [(s & Hs & Hr & Hl) | (w1 & Hs & [(s & Hs2 & Hr & Hl) | (_ & Hne & _)])];
    fold run in Hr || fold run in Hne.
  - fold run in Hl. rewrite Hl.
    assert (s = Db.Exit status) by congruence. subst s.
    destruct (setup_quiet connect execute c w) as [Qi Qc].
    destruct (setup_exit connect execute c w Hs) as [H1 H2].
    repeat split; auto.
  - assert (s = Db.Exit status) by congruence. subst s.
    now destruct (insert_rows_any execute (Db.iterrows df) w1)
      as (_ & _ & Hne); apply Hne in Hs2.
  - now apply Hne in H.
Qed.

Lemma exit_only_after_failed_create_witness :
  let run := Db.step4 Db.Toy.connect Db.Toy.read_only Db.Toy.commit
               Db.Toy.env
               (final_frame Layout.strptime
                  (parsed_records (file_lines Sample.two_requests))) [] in
  1%Z = 1%Z
  /\ Db.inserted (Db.log_of run) = []
  /\ Db.committed (Db.log_of run) = false
  /\ exists before stmt msg,
      Db.log_of run = (before ++ [Db.Execute stmt []; Db.Print msg])%list
      /\ Str.startswith "CREATE" stmt = true
      /\ Str.startswith "Failed creating " msg = true.
Proof.
  apply (@exit_only_after_failed_create _ Db.Toy.connect Db.Toy.read_only
           Db.Toy.commit Db.Toy.env
           (final_frame Layout.strptime
              (parsed_records (file_lines Sample.two_requests))) [] 1%Z).
  vm_compute. reflexivity.
Defined.

(** X13: when the configuration lacks one of the four names step 4 reads,
    no statement reaches the server and nothing is committed. The step ends
    with [KeyError] on the first name missing, in the order [HOST],
    [USERNAME], [DB_PASSWORD], [DB_NAME]; for [DB_NAME], which is read after
    the connection is made, it may end with the error of the connection
    instead. *)
Theorem missing_setting_sends_nothing
  (world : Type)
  (connect : world -> option string -> option string -> option string
             -> world * option string)
  (execute : world -> string -> list cell -> world * (list Db.row + string))
  (commit : world -> world * option string)
  c df w key :
  Db.first_missing c = Some key ->
  let run := Db.step4 connect execute commit c df w in
  Db.statements (Db.log_of run) = []
  /\ Db.committed (Db.log_of run) = false
  /\ (Db.result_of run = inr (Db.PyRaise (KeyError key))
      \/ key = "DB_NAME"
         /\ exists msg, Db.result_of run = inr (Db.DbRaise msg)).
Proof.
  intros H run.
  destruct (@setup_missing _ connect execute c w key H) as [Hst Hres].
  destruct (setup_quiet connect execute c w) as [_ Qc].
  destruct (step4_cases connect execute commit c df w)
    as [(s & Hs & Hr & Hl) | (w1 & Hs & _)].
  - fold run in Hr, Hl. rewrite Hl.
    split; [exact Hst|]. split; [exact Qc|].
    rewrite Hr, <- Hs. exact Hres.
  - destruct Hres as [Hres | (_ & msg & Hres)]; congruence.
Qed.

Lemma missing_setting_sends_nothing_witness :
  let run := Db.step4 Db.Toy.connect Db.Toy.fresh Db.Toy.commit
               [("HOST", Some "localhost"); ("DB_NAME", Some "logs")]
               (final_frame Layout.strptime
                  (parsed_records (file_lines Sample.two_requests))) [] in
  Db.statements (Db.log_of run) = []
  /\ Db.committed (Db.log_of run) = false
  /\ (Db.result_of run = inr (Db.PyRaise (KeyError "USERNAME"))
      \/ "USERNAME" = "DB_NAME"
         /\ exists msg, Db.result_of run = inr (Db.DbRaise msg)).
Proof.
  apply (@missing_setting_sends_nothing _ Db.Toy.connect Db.Toy.fresh
           Db.Toy.commit
           [("HOST", Some "localhost"); ("DB_NAME", Some "logs")]).
  vm_compute. reflexivity.
Defined.

(** X14: on a server that lists the configured database among its
    databases and [nginx_logs] among its tables, step 4 sends no [CREATE]
    statement, whatever else happens. *)
Theorem existing_database_and_table_are_kept
  (world : Type)
  (connect : world -> option string -> option string -> option string
             -> world * option string)
  (execute : world -> string -> list cell -> world * (list Db.row + string))
  (commit : world -> world * option string)
  c df w name :
  Db.config_get c "DB_NAME" = Some name ->
  (forall w0, exists w1 rows,
      execute w0 "SHOW DATABASES" [] = (w1, inl rows)
      /\ Db.row_in [Db.to_value name] rows = true) ->
  (forall w0, exists w1 rows,
      execute w0 "SHOW TABLES;" [] = (w1, inl rows)
      /\ Db.row_in [VStr "nginx_logs"] rows = true) ->
  Forall (fun stmt => Str.startswith "CREATE" stmt = false)
    (Db.statements
       (Db.log_of (Db.step4 connect execute commit c df w))).
Proof.
  intros Hn Hd Ht.
  pose proof (@setup_keeps _ connect execute c w name Hn Hd Ht) as Hk.
  assert (Hi : forall w1,
             Forall (fun stmt => Str.startswith "CREATE" stmt = false)
               (Db.statements
                  (Db.log_of
                     (Db.insert_rows execute (Db.iterrows df) w1)))).
  { intros w1.
    destruct (insert_rows_any execute (Db.iterrows df) w1) as (_ & Hi & _).
    eapply Forall_impl; [|exact Hi]. now intros stmt ->. }
  destruct (step4_cases connect execute commit c df w)
    as [(s & Hs & Hr & Hl)
       | (w1 & Hs & [(s & Hs2 & Hr & Hl) | (_ & _ & Hl & _)])];
    rewrite Hl.
  - exact Hk.
  - rewrite statements_app. apply Forall_app. split; [exact Hk | apply Hi].
  - rewrite !statements_app. apply Forall_app. split; [exact Hk|].
    apply Forall_app. split; [apply Hi | constructor].
Qed.

Lemma existing_database_and_table_are_kept_witness :
  Forall (fun stmt => Str.startswith "CREATE" stmt = false)
    (Db.statements
       (Db.log_of
          (Db.step4 Db.Toy.connect Db.Toy.provisioned Db.Toy.commit
             Db.Toy.env
             (final_frame Layout.strptime
                (parsed_records (file_lines Sample.two_requests))) []))).
Proof.
  apply (@existing_database_and_table_are_kept _ Db.Toy.connect
           Db.Toy.provisioned Db.Toy.commit Db.Toy.env
           (final_frame Layout.strptime
              (parsed_records (file_lines Sample.two_requests))) []
           (Some "logs")).
  - reflexivity.
  - intros w0. eexists. eexists. split; reflexivity.
  - intros w0. eexists. eexists. split; reflexivity.
Defined.

(** X15: when step 3 has produced the frame, the configuration has the
    four names, and the server refuses nothing (the connection, every
    statement and the commit succeed), step 4 ends normally, having sent
    one [INSERT] for every record read from the file, in the order of the
    file, and having called [commit]. *)
Theorem willing_server_gets_every_record
  (world : Type)
  (connect : world -> option string -> option string -> option string
             -> world * option string)
  (execute : world -> string -> list cell -> world * (list Db.row + string))
  (commit : world -> world * option string)
  strptime content df c w :
  step3 strptime content = Ok df ->
  Db.first_missing c = None ->
  (forall w0 host user password,
      snd (connect w0 host user password) = None) ->
  (forall w0 stmt params,
      exists rows, snd (execute w0 stmt params) = inl rows) ->
  (forall w0, snd (commit w0) = None) ->
  let run := Db.step4 connect execute commit c df w in
  exists rows,
    read_log_file content = Ok rows
    /\ Db.result_of run = inl tt
    /\ Db.inserted (Db.log_of run) = map (Db.row_params strptime) rows
    /\ Db.committed (Db.log_of run) = true.
Proof.
  intros H Hcfg Hcon Hex Hcom run.
  apply step3_ok in H as (rows & R & _ & _ & _ & ->).
  exists rows. split; [exact R|].
  pose proof (@setup_succeeds _ connect execute c w Hcfg Hcon Hex) as Hset.
  destruct (setup_quiet connect execute c w) as [Qi Qc].
  destruct (step4_cases connect execute commit c
              (final_frame strptime rows) w)
    as [(s & Hs & _) | (w1 & _ & Hcase)]; [congruence|].
  rewrite iterrows_final_frame in Hcase.
  pose proof (@insert_rows_succeeds _ execute strptime rows w1 Hex) as Hins.
  destruct (insert_rows_log execute strptime rows w1)
    as (k & _ & Hi & Hc & Hall & _).
  destruct Hcase as [(s & Hs2 & _) | (_ & _ & Hl & w2 & Hr)];
    [congruence|].
  fold run in Hl, Hr. rewrite Hl, Hr, Hcom.
  rewrite (Hall tt Hins), firstn_all in Hi.
  rewrite !inserted_app, !committed_app, Qi, Qc, Hi, Hc.
  cbn [app orb Db.inserted flat_map Db.committed existsb].
  now rewrite List.app_nil_r.
Qed.

Lemma willing_server_gets_every_record_witness :
  let run := Db.step4 Db.Toy.connect Db.Toy.fresh Db.Toy.commit Db.Toy.env
               (final_frame Layout.strptime
                  (parsed_records (file_lines Sample.two_requests))) [] in
  exists rows,
    read_log_file Sample.two_requests = Ok rows
    /\ Db.result_of run = inl tt
    /\ Db.inserted (Db.log_of run) = map (Db.row_params Layout.strptime) rows
    /\ Db.committed (Db.log_of run) = true.
Proof.
  apply (@willing_server_gets_every_record _ Db.Toy.connect Db.Toy.fresh
           Db.Toy.commit Layout.strptime Sample.two_requests).
  - vm_compute. reflexivity.
  - reflexivity.
  - reflexivity.
  - intros w0 stmt params. eexists. reflexivity.
  - reflexivity.
Defined.
